(** * Interview-Agent: the model-orchestration and scoring engine of [agent.js]

    A shallow embedding of the server ([agent.js], first module) and of the
    helpers of the related assessment module (second module of the same file),
    followed by the properties of the specification that are checked on it.

    Modelling conventions.
    - A JavaScript string is the list of its UTF-16 code units ([list N]);
      [js "..."] writes one from an ASCII literal.
    - A JavaScript number that is only read, rounded, clamped or compared is
      [Finite q] for the exact rational value [q] of the double, or one of
      [NaN], [Infinity]. Where the code does arithmetic on numbers that need
      not be integers (the weights of the matrix, the 0.7/0.3 blend of the
      overall score) the number is an IEEE double, Rocq's primitive [float],
      and the operations are those of binary64.
    - A value produced by [JSON.parse] is a [value]; property access follows
      JavaScript: reading a property of [null] or [undefined] throws a
      [TypeError], reading a missing property gives [undefined]. Converting a
      value to a string follows JavaScript too: it throws a [TypeError] on an
      object that has an own property [toString] (which, coming from JSON, is
      not a function), and on an array that holds one.
    - Code that can throw returns a [result]; code that talks to the model
      endpoint, sleeps or writes a file threads a [world].
    - Host built-ins whose algorithm is outside the repository are variables
      of the section: [Number_toString] (Number::toString in radix 10) and
      [JSON_parse]; so is the configured [MAX_FOLLOWUPS_PER_SKILL], taken to
      be a whole number. *)

From Stdlib Require Import Floats.
From Stdlib Require Import ZArith NArith QArith Qround List String Ascii Lia Bool.
From Stdlib Require Import Permutation Sorted Lqa.
From stdpp Require Import base option list gmap fin_maps.
Import ListNotations.
Open Scope Z_scope.

(* ===================================================================== *)
(** * JavaScript strings *)
(* ===================================================================== *)

Abbreviation jsstring := (list N).

Definition js (s : string) : jsstring :=
  List.map N_of_ascii (list_ascii_of_string s).
Arguments js s%_string.

Fixpoint str_eqb (a b : jsstring) : bool :=
  match a, b with
  | [], [] => true
  | x :: a', y :: b' => (x =? y)%N && str_eqb a' b'
  | _, _ => false
  end.

(** The code units matched by [\s] and removed by [String.prototype.trim]
    (WhiteSpace and LineTerminator of ECMAScript). *)
Definition is_ws (c : N) : bool :=
  ((9 <=? c) && (c <=? 13) || (c =? 32) || (c =? 160) || (c =? 5760)
   || (8192 <=? c) && (c <=? 8202) || (c =? 8232) || (c =? 8233)
   || (c =? 8239) || (c =? 8287) || (c =? 12288) || (c =? 65279))%N.

Fixpoint trimStart (s : jsstring) : jsstring :=
  match s with
  | c :: s' => if is_ws c then trimStart s' else s
  | [] => []
  end.

Definition trimEnd (s : jsstring) : jsstring := rev (trimStart (rev s)).

Definition trim (s : jsstring) : jsstring := trimEnd (trimStart s).

Fixpoint starts_with (needle s : jsstring) : bool :=
  match needle, s with
  | [], _ => true
  | a :: needle', b :: s' => (a =? b)%N && starts_with needle' s'
  | _ :: _, [] => false
  end.

Fixpoint indexOf_from (needle s : jsstring) (i : Z) : Z :=
  if starts_with needle s then i
  else match s with
       | [] => -1
       | _ :: s' => indexOf_from needle s' (i + 1)
       end.

(** [s.indexOf(needle)]: the first position of [needle] in [s], or -1. *)
Definition indexOf (s needle : jsstring) : Z := indexOf_from needle s 0.

Fixpoint lastIndexOf_from (needle s : jsstring) (i best : Z) : Z :=
  let best' := if starts_with needle s then i else best in
  match s with
  | [] => best'
  | _ :: s' => lastIndexOf_from needle s' (i + 1) best'
  end.

(** [s.lastIndexOf(needle)]: the last position of [needle] in [s], or -1. *)
Definition lastIndexOf (s needle : jsstring) : Z := lastIndexOf_from needle s 0 (-1).

Definition includes (s needle : jsstring) : bool := negb (indexOf s needle =? -1).

(** [s.slice(from, to)] with JavaScript's treatment of negative and
    out-of-range positions; an empty span gives the empty string. *)
Definition slice (s : jsstring) (from to : Z) : jsstring :=
  let len := Z.of_nat (List.length s) in
  let k := if from <? 0 then Z.max (len + from) 0 else Z.min from len in
  let e := if to <? 0 then Z.max (len + to) 0 else Z.min to len in
  firstn (Z.to_nat (Z.max (e - k) 0)) (skipn (Z.to_nat k) s).

(** [toLowerCase] on the ASCII letters; other code units are left as they
    are (the needles searched for in lower-cased text are ASCII). *)
Definition lower_unit (c : N) : N :=
  if ((65 <=? c) && (c <=? 90))%N then (c + 32)%N else c.

Definition toLowerCase (s : jsstring) : jsstring := List.map lower_unit s.

Fixpoint join (sep : jsstring) (parts : list jsstring) : jsstring :=
  match parts with
  | [] => []
  | [p] => p
  | p :: rest => p ++ sep ++ join sep rest
  end.

(* ===================================================================== *)
(** * JavaScript numbers, values and errors *)
(* ===================================================================== *)

Inductive number :=
| Finite (q : Q)
| NaN
| Infinity (negative : bool).

#[warnings="-register-all"]
Inductive value :=
| VUndefined
| VNull
| VBool (b : bool)
| VNum (n : number)
| VStr (s : jsstring)
| VArr (items : list value)
| VObj (fields : list (jsstring * value)).

Record js_error := Error { ename : jsstring; emessage : jsstring }.

Inductive result (A : Type) :=
| Return (a : A)
| Throw (e : js_error).
Arguments Return {A} a.
Arguments Throw {A} e.

#[global] Instance result_ret : MRet result := fun _ a => Return a.

#[global] Instance result_bind : MBind result := fun _ _ k r =>
  match r with
  | Return a => k a
  | Throw e => Throw e
  end.

(** [Error.prototype.toString]. *)
Definition Error_toString (e : js_error) : jsstring :=
  match ename e, emessage e with
  | n, [] => n
  | [], m => m
  | n, m => n ++ js ": " ++ m
  end.

(** [String(e?.message || e)] for a thrown error [e]. *)
Definition err_text (e : js_error) : jsstring :=
  match emessage e with
  | [] => Error_toString e
  | m => m
  end.

Definition TypeError_read (of_what prop : jsstring) : js_error :=
  Error (js "TypeError")
        (js "Cannot read properties of " ++ of_what ++ js " (reading '" ++ prop ++ js "')").

(** The error of ToPrimitive on an object that neither [toString] nor
    [valueOf] turns into a primitive value. *)
Definition TypeError_primitive : js_error :=
  Error (js "TypeError") (js "Cannot convert object to primitive value").

Definition Qis_zero (q : Q) : bool := Qeq_bool q 0.

(** ToBoolean. *)
Definition truthy (v : value) : bool :=
  match v with
  | VUndefined | VNull => false
  | VBool b => b
  | VNum (Finite q) => negb (Qis_zero q)
  | VNum NaN => false
  | VNum (Infinity _) => true
  | VStr s => match s with [] => false | _ => true end
  | VArr _ | VObj _ => true
  end.

(** [a || b] *)
Definition or_else (a b : value) : value := if truthy a then a else b.

(** [a ?? b] *)
Definition nullish_else (a b : value) : value :=
  match a with
  | VUndefined | VNull => b
  | _ => a
  end.

Fixpoint assoc (k : jsstring) (fields : list (jsstring * value)) : value :=
  match fields with
  | [] => VUndefined
  | (k', v) :: rest => if str_eqb k k' then v else assoc k rest
  end.

(** [Object.hasOwn(o, k)] on the fields of an object. *)
Definition hasOwn (fields : list (jsstring * value)) (k : jsstring) : bool :=
  existsb (fun kv => str_eqb k kv.1) fields.

(** [v.prop] for a property name that no prototype defines. *)
Definition get (v : value) (prop : jsstring) : result value :=
  match v with
  | VUndefined => Throw (TypeError_read (js "undefined") prop)
  | VNull => Throw (TypeError_read (js "null") prop)
  | VObj fields => Return (assoc prop fields)
  | _ => Return VUndefined
  end.

(** [v?.prop] *)
Definition get_opt (v : value) (prop : jsstring) : value :=
  match v with
  | VObj fields => assoc prop fields
  | _ => VUndefined
  end.

Definition isArray (v : value) : bool :=
  match v with VArr _ => true | _ => false end.

Definition items_of (v : value) : list value :=
  match v with VArr l => l | _ => [] end.

(** [Math.round]: the nearest integer, halves towards +infinity. *)
Definition Math_round (q : Q) : Z := Qfloor (q + (1 # 2)).

(** The double that holds an integer: the nearest one, which is the integer
    itself up to 2^53. *)
Definition double_of_Z (z : Z) : float :=
  SF2Prim (binary_normalize prec emax z 0 false).

(** The exact value of a double. *)
Definition number_of_double (x : float) : number :=
  match Prim2SF x with
  | S754_zero _ => Finite 0
  | S754_infinity negative => Infinity negative
  | S754_nan => NaN
  | S754_finite negative m e =>
      Finite ((if negative then - inject_Z (Z.pos m) else inject_Z (Z.pos m)) * 2 ^ e)
  end.

(** [Math.round] of a double. *)
Definition Math_round_double (x : float) : number :=
  match number_of_double x with
  | Finite q => Finite (inject_Z (Math_round q))
  | n => n
  end.

(** The least magnitude that the conversion of an integer to a double
    rounds to an infinity. *)
Definition overflow_threshold : Z := 2 ^ 1024 - 2 ^ 970.

Definition is_digit (c : N) : bool := ((48 <=? c) && (c <=? 57))%N.

Fixpoint digits_value (s : jsstring) (acc : Z) : Z :=
  match s with
  | c :: s' => if is_digit c then digits_value s' (10 * acc + (Z.of_N c - 48)) else acc
  | [] => acc
  end.

(** [parseInt(s, 10)] on a string. A finite result is kept as the exact
    integer read; its rounding to a double changes neither its finiteness nor
    its comparison with, or rounding against, small integers. *)
Definition parseInt_string (s : jsstring) : number :=
  let t := trimStart s in
  let '(negative, body) :=
    match t with
    | 45%N :: r => (true, r)
    | 43%N :: r => (false, r)
    | _ => (false, t)
    end in
  match body with
  | c :: _ =>
      if is_digit c then
        let n := digits_value body 0 in
        if overflow_threshold <=? n then Infinity negative
        else Finite (inject_Z (if negative then - n else n))
      else NaN
  | [] => NaN
  end.

(** [Math.min(...l)] and [Math.max(...l)] on a list of integers. On the empty
    list JavaScript gives +Infinity and -Infinity; the callers modelled here
    only spread lists with one entry per assessor, and the value chosen for
    the empty list is never read. *)
Definition Math_min (l : list Z) : Z :=
  match l with
  | [] => 0
  | x :: r => fold_left Z.min r x
  end.

Definition Math_max (l : list Z) : Z :=
  match l with
  | [] => 0
  | x :: r => fold_left Z.max r x
  end.

(** [Array.prototype.sort(cmp)]: a stable sort (ECMAScript 2019), written as
    the insertion sort that keeps equal elements in their order. *)
Fixpoint sort_insert {A} (cmp : A -> A -> Z) (x : A) (l : list A) : list A :=
  match l with
  | [] => [x]
  | y :: l' => if cmp x y <=? 0 then x :: l else y :: sort_insert cmp x l'
  end.

Fixpoint Array_sort {A} (cmp : A -> A -> Z) (l : list A) : list A :=
  match l with
  | [] => []
  | x :: l' => sort_insert cmp x (Array_sort cmp l')
  end.

(** [new Map(entries)]: entries are set in order, a later key overwrites. *)
Definition Map_of {V} (entries : list (jsstring * V)) : gmap jsstring V :=
  fold_left (fun m kv => <[kv.1 := kv.2]> m) entries ∅.

(* ===================================================================== *)
(** * The outside world *)
(* ===================================================================== *)

(** What one call of [hf.chat.completions.create] gives back: the text
    [r?.choices?.[0]?.message?.content || ""], or a thrown error. *)
Inductive reply :=
| Content (text : jsstring)
| Failed (e : js_error).

(** The observable environment of the server: the replies of the model
    endpoint in call order, the pauses taken, the session id and the
    timestamp that the clock and the random generator give to each started
    session, and the outcome of each report file written. *)
Record world := World {
  reply_at : nat -> reply;
  calls : nat;
  slept : list Z;
  session_id_at : nat -> jsstring;
  timestamp_at : nat -> jsstring;
  started : nat;
  write_error_at : nat -> option js_error;
  writes : nat;
}.

Definition chat (w : world) : reply * world :=
  (reply_at w (calls w),
   World (reply_at w) (S (calls w)) (slept w)
         (session_id_at w) (timestamp_at w) (started w)
         (write_error_at w) (writes w)).

Definition sleep (ms : Z) (w : world) : world :=
  World (reply_at w) (calls w) (slept w ++ [ms])
        (session_id_at w) (timestamp_at w) (started w)
        (write_error_at w) (writes w).

(** The id and the timestamp of the next session. *)
Definition fresh_session (w : world) : jsstring * jsstring * world :=
  (session_id_at w (started w), timestamp_at w (started w),
   World (reply_at w) (calls w) (slept w)
         (session_id_at w) (timestamp_at w) (S (started w))
         (write_error_at w) (writes w)).

Definition writeFileSync (w : world) : result unit * world :=
  (match write_error_at w (writes w) with
   | Some e => Throw e
   | None => Return tt
   end,
   World (reply_at w) (calls w) (slept w)
         (session_id_at w) (timestamp_at w) (started w)
         (write_error_at w) (S (writes w))).

(* ===================================================================== *)
(** * Data model *)
(* ===================================================================== *)

Record SkillDefinition := { name : jsstring; weight : float }.

Record Matrix := { role : jsstring; skills : list SkillDefinition }.

Record SkillScore := {
  skill : jsstring;
  score_1_to_9 : Z;
  confidence_low_med_high : value;
  assessor_stance : value;
  why_this_score : jsstring;
  what_was_missing_for_next_level : jsstring;
  evidence_bullets : list value;
  risks : list value;
  followups : list value;
}.

Record AssessmentResult := {
  recommendation : jsstring;
  skill_scores : list SkillScore;
  exercise_score_1_to_9 : Z;
  exercise_why_this_score : jsstring;
  exercise_what_was_missing_for_next_level : jsstring;
  exercise_evidence_bullets : list value;
  summary : list value;
}.

(** One entry of the list given to [compareMulti]. *)
Record Assessed := { assessor : jsstring; model : jsstring; norm : AssessmentResult }.

Record DisagreementRow := {
  row_skill : jsstring;
  scores : list Z;
  min : Z;
  max : Z;
  spread : Z;
}.

Record Disagreement := {
  rows : list DisagreementRow;
  biggest_disagreements : list DisagreementRow;
}.

Record QAEntry := { qa_skill : jsstring; qa_question : jsstring; qa_answer : jsstring }.

Record Session := {
  candidateName : jsstring;
  matrix : Matrix;
  planQuestions : list value;
  idx : nat;
  transcript : list QAEntry;
  followupsLeft : Z;
  createdAt : jsstring;
}.

(* ===================================================================== *)
(** * Utils: [cleanJSON] *)
(* ===================================================================== *)

Definition backtick : N := 96.
Definition lbrace : N := 123.
Definition rbrace : N := 125.

(** The greedy [`{1,3}] once a first backtick is known to be there: up to
    [n] backticks are consumed. *)
Fixpoint strip_ticks (n : nat) (s : jsstring) : jsstring :=
  match n, s with
  | S n', c :: s' => if (c =? backtick)%N then strip_ticks n' s' else s
  | _, _ => s
  end.

(** [json] under the [i] flag. *)
Definition strip_json_word (s : jsstring) : option jsstring :=
  match s with
  | a :: b :: c :: d :: rest =>
      if str_eqb (toLowerCase [a; b; c; d]) (js "json") then Some rest else None
  | _ => None
  end.

(** [t.replace(/^\s*`{1,3}\s*json\s*/i, "")] *)
Definition replace_fence_json (t : jsstring) : jsstring :=
  match trimStart t with
  | c :: r1 =>
      if (c =? backtick)%N then
        match strip_json_word (trimStart (strip_ticks 2 r1)) with
        | Some rest => trimStart rest
        | None => t
        end
      else t
  | [] => t
  end.

(** [t.replace(/^\s*`{1,3}\s*/i, "")] *)
Definition replace_fence_open (t : jsstring) : jsstring :=
  match trimStart t with
  | c :: r1 => if (c =? backtick)%N then trimStart (strip_ticks 2 r1) else t
  | [] => t
  end.

(** Whether [\s*`{1,3}\s*$] matches the whole of [s]. *)
Definition matches_fence_close (s : jsstring) : bool :=
  match trimStart s with
  | c :: r1 =>
      (c =? backtick)%N &&
      match trimStart (strip_ticks 2 r1) with [] => true | _ => false end
  | [] => false
  end.

(** [t.replace(/\s*`{1,3}\s*$/i, "")]: the match that starts leftmost is
    removed. *)
Fixpoint replace_fence_close (t : jsstring) : jsstring :=
  if matches_fence_close t then []
  else match t with
       | [] => []
       | c :: t' => c :: replace_fence_close t'
       end.

(** The three replacements of [cleanJSON], before any slicing. *)
Definition strip_fences (text : jsstring) : jsstring :=
  replace_fence_close (replace_fence_open (replace_fence_json (trim text))).

(** [cleanJSON] of the server. [text || ""] is [text] on a string. *)
Definition cleanJSON (text : jsstring) : jsstring :=
  let t := strip_fences text in
  let a := indexOf t [lbrace] in
  let b := lastIndexOf t [rbrace] in
  let t := if negb (a =? -1) && negb (b =? -1) && (b >? a)
           then slice t a (b + 1) else t in
  trim t.

(** The helpers of the related assessment module. *)
Module Assessment.

Definition cleanJSON (text : jsstring) : jsstring :=
  let t := strip_fences text in
  let a := indexOf t [lbrace] in
  let b := lastIndexOf t [rbrace] in
  let t := if negb (a =? -1) && negb (b =? -1)
           then slice t a (b + 1) else t in
  trim t.

(** [Math.round], [Math.min(9, x)] and [Math.max(1, x)] on a number that may
    be [NaN] or infinite. *)
Definition Math_round_number (n : number) : number :=
  match n with
  | Finite q => Finite (inject_Z (Math_round q))
  | _ => n
  end.

Definition Math_min_9 (n : number) : number :=
  match n with
  | Finite q => if Qle_bool q 9 then n else Finite 9
  | NaN => NaN
  | Infinity false => Finite 9
  | Infinity true => n
  end.

Definition Math_max_1 (n : number) : number :=
  match n with
  | Finite q => if Qle_bool 1 q then n else Finite 1
  | NaN => NaN
  | Infinity false => n
  | Infinity true => Finite 1
  end.

(** [clamp(n)] for a number [n]. *)
Definition clamp (n : number) : number :=
  Math_max_1 (Math_min_9 (Math_round_number n)).

(** [scoreTo100(s)] for a number [s]. *)
Definition scoreTo100 (s : number) : number :=
  match s with
  | Finite q => Finite (inject_Z (Math_round (((q - 1) / 8) * 100)%Q))
  | _ => s
  end.

End Assessment.

(* ===================================================================== *)
(** * Disagreement analysis: [compareMulti] *)
(* ===================================================================== *)

(** [(r.norm.skill_scores || []).find((x) => x.skill === skill)], then the
    score found or 1. *)
Definition score_of (skill_name : jsstring) (r : Assessed) : Z :=
  match List.find (fun x => str_eqb (skill x) skill_name) (skill_scores (norm r)) with
  | Some found => score_1_to_9 found
  | None => 1
  end.

Definition row_of (results : list Assessed) (skill_name : jsstring) : DisagreementRow :=
  let scores := List.map (score_of skill_name) results in
  let min := Math_min scores in
  let max := Math_max scores in
  {| row_skill := skill_name; scores := scores; min := min; max := max;
     spread := max - min |}.

(** The rows before [rows.sort]. *)
Definition unsorted_rows (results : list Assessed) : list DisagreementRow :=
  let skills :=
    match results with
    | r0 :: _ => List.map skill (skill_scores (norm r0))
    | [] => []
    end in
  List.map (row_of results) skills.

Definition compareMulti (results : list Assessed) : Disagreement :=
  let rows := Array_sort (fun a b => spread b - spread a) (unsorted_rows results) in
  {| rows := rows; biggest_disagreements := firstn 5 rows |}.

Section Host.

(** Number::toString (radix 10) of a finite number. *)
Variable Number_toString : Q -> jsstring.

(** [JSON.parse]: the value, or the [SyntaxError] thrown. *)
Variable JSON_parse : jsstring -> result value.

(** [Number(process.env.MAX_FOLLOWUPS_PER_SKILL ?? 1)] for a setting that is a
    whole number, negative ones included; a setting that is fractional or
    not a number is outside the model. *)
Variable MAX_FOLLOWUPS_PER_SKILL : Z.

(** What [loadMatrix()] gives: [ai_skills_matrix.json] parsed, or the error
    thrown on reading it. *)
Variable matrix_file : result Matrix.

(* =================================================================== *)
(** * Utils: [clampInt] *)
(* =================================================================== *)

Definition Number_text (n : number) : jsstring :=
  match n with
  | Finite q => Number_toString q
  | NaN => js "NaN"
  | Infinity false => js "Infinity"
  | Infinity true => js "-Infinity"
  end.

(** [String(v)], which is also the conversion made by a template literal and
    by [parseInt]. An object is converted by its [toString]: the inherited one
    gives [[object Object]]; an own property of that name, which is not a
    function in a value read from JSON, leaves the inherited [valueOf], which
    gives back the object, and the conversion throws. An array joins the
    strings of its elements with commas, [null] and [undefined] elements
    giving the empty string. *)
Fixpoint ToString (v : value) : result jsstring :=
  match v with
  | VUndefined => Return (js "undefined")
  | VNull => Return (js "null")
  | VBool true => Return (js "true")
  | VBool false => Return (js "false")
  | VNum n => Return (Number_text n)
  | VStr s => Return s
  | VArr items =>
      parts ← mapM (fun x => match x with
                             | VUndefined | VNull => Return []
                             | _ => ToString x
                             end) items;
      mret (join (js ",") parts)
  | VObj fields =>
      if hasOwn fields (js "toString") then Throw TypeError_primitive
      else Return (js "[object Object]")
  end.

Definition Number_isFinite (v : value) : bool :=
  match v with
  | VNum (Finite _) => true
  | _ => false
  end.

(** [parseInt(v, 10)] *)
Definition parseInt (v : value) : result number :=
  s ← ToString v; mret (parseInt_string s).

Definition clampInt (n : value) (min max : Z) : result Z :=
  x ← (match n with
       | VNum (Finite q) => Return (Finite q)
       | _ => parseInt n
       end);
  mret (match x with
        | Finite q => Z.max min (Z.min max (Math_round q))
        | _ => min
        end).

(* =================================================================== *)
(** * Scoring *)
(* =================================================================== *)

Definition score1to9_to_0to100 (score1to9 : value) : result Z :=
  s ← clampInt score1to9 1 9;
  mret (Math_round (((inject_Z s - 1) / 8) * 100)%Q).

(** The loop of [weightedSkillsScore0to100]: [(totalW, weighted)] after the
    skill scores seen so far, in doubles. *)
Definition accumulate (wMap : gmap jsstring float) (acc : float * float) (ss : SkillScore)
  : float * float :=
  let w := default 0%float (wMap !! skill ss) in
  (acc.1 + w, acc.2 + w * double_of_Z (score_1_to_9 ss))%float.

Definition weightedSkillsScore0to100
    (skillScores : list SkillScore) (skills : list SkillDefinition) : result Z :=
  let wMap := Map_of (List.map (fun s => (name s, weight s)) skills) in
  let '(totalW, weighted) := fold_left (accumulate wMap) skillScores (0%float, 0%float) in
  if (totalW <=? 0)%float then mret 0
  else
    let avg := (weighted / totalW)%float in
    score1to9_to_0to100 (VNum (number_of_double avg)).

(** [overall(norm)] of the finish route; [0.7] and [0.3] are the doubles
    nearest to these decimals. *)
Definition overall (m : Matrix) (r : AssessmentResult) : result number :=
  skills100 ← weightedSkillsScore0to100 (skill_scores r) (skills m);
  exercise100 ← score1to9_to_0to100 (VNum (Finite (inject_Z (exercise_score_1_to_9 r))));
  mret (Math_round_double (0x1.6666666666666p-1 * double_of_Z skills100
                           + 0x1.3333333333333p-2 * double_of_Z exercise100)%float).

(* =================================================================== *)
(** * Assessment normalizer *)
(* =================================================================== *)

(** The entry synthesized for a skill that the assessor left out. *)
Definition default_entry (skill_name stanceLabel : jsstring) : SkillScore :=
  {| skill := skill_name;
     score_1_to_9 := 1;
     confidence_low_med_high := VStr (js "low");
     assessor_stance := VStr stanceLabel;
     why_this_score := js "Insufficient evidence in transcript/exercise.";
     what_was_missing_for_next_level :=
       js "Provide a concrete example: tools used, steps taken, measurable outcome, validation, and failure handling.";
     evidence_bullets := [VStr (js "No evidence captured for this skill.")];
     risks := [VStr (js "Evidence gap"); VStr (js "Unverified capability")];
     followups := [VStr (js "Give a specific example you personally delivered.");
                   VStr (js "How did you validate and handle failures?")] |}.

(** [Array.isArray(v) ? v.slice(0, n) : []] *)
Definition array_prefix (n : nat) (v : value) : list value :=
  if isArray v then firstn n (items_of v) else [].

(** The entry built from the assessor's own entry [x]. *)
Definition entry_from (skill_name stanceLabel : jsstring) (x : value) : result SkillScore :=
  s19 ← get x (js "score_1_to_9");
  s ← get x (js "score");
  score ← clampInt (nullish_else s19 s) 1 9;
  conf ← get x (js "confidence_low_med_high");
  st ← get x (js "assessor_stance");
  why ← get x (js "why_this_score");
  why_text ← ToString (or_else why (VStr []));
  missing ← get x (js "what_was_missing_for_next_level");
  missing_text ← ToString (or_else missing (VStr []));
  ev ← get x (js "evidence_bullets");
  rk ← get x (js "risks");
  fu ← get x (js "followups");
  mret {| skill := skill_name;
          score_1_to_9 := score;
          confidence_low_med_high := or_else conf (VStr (js "medium"));
          assessor_stance := or_else st (VStr stanceLabel);
          why_this_score := why_text;
          what_was_missing_for_next_level := missing_text;
          evidence_bullets := array_prefix 3 ev;
          risks := array_prefix 2 rk;
          followups := array_prefix 2 fu |}.

(** [[String(x.skill || "").trim(), x]] *)
Definition keyed (x : value) : result (jsstring * value) :=
  sk ← get x (js "skill");
  key ← ToString (or_else sk (VStr []));
  mret (trim key, x).

Definition normalize_skill (map : gmap jsstring value) (stanceLabel skill_name : jsstring)
  : result SkillScore :=
  match map !! skill_name with
  | Some x => if truthy x then entry_from skill_name stanceLabel x
              else mret (default_entry skill_name stanceLabel)
  | None => mret (default_entry skill_name stanceLabel)
  end.

Definition normalizeAssessorResult (m : Matrix) (raw : value) (stanceLabel : jsstring)
  : result AssessmentResult :=
  let skillNames := List.map name (skills m) in
  raw_scores ← get raw (js "skill_scores");
  let incoming := if isArray raw_scores then items_of raw_scores else [] in
  entries ← mapM keyed incoming;
  let map := Map_of entries in
  skill_scores ← mapM (normalize_skill map stanceLabel) skillNames;
  rec ← get raw (js "recommendation");
  rec_text ← ToString (or_else rec (VStr (js "Lean Hire")));
  ex ← get raw (js "exercise_score_1_to_9");
  ex_score ← clampInt ex 1 9;
  ex_why ← get raw (js "exercise_why_this_score");
  ex_why_text ← ToString (or_else ex_why (VStr []));
  ex_missing ← get raw (js "exercise_what_was_missing_for_next_level");
  ex_missing_text ← ToString (or_else ex_missing (VStr []));
  ex_ev ← get raw (js "exercise_evidence_bullets");
  summ ← get raw (js "summary");
  mret {| recommendation := rec_text;
          skill_scores := skill_scores;
          exercise_score_1_to_9 := ex_score;
          exercise_why_this_score := ex_why_text;
          exercise_what_was_missing_for_next_level := ex_missing_text;
          exercise_evidence_bullets := array_prefix 3 ex_ev;
          summary := array_prefix 6 summ |}.

(* =================================================================== *)
(** * Report rendering: [renderReportMarkdown] *)
(* =================================================================== *)

(** [for (const b of items.slice(0, n)) lines.push(`... ${b}`)]: each item is
    converted to a string. *)
Definition render_items (n : nat) (items : list value) : result (list jsstring) :=
  mapM ToString (firstn n items).

(** The lines of one skill. The score and the two texts are a number and
    strings; the other interpolated values are the assessor's own. *)
Definition render_skill (s : SkillScore) : result unit :=
  _ ← ToString (or_else (confidence_low_med_high s) (VStr (js "medium")));
  _ ← ToString (or_else (assessor_stance s) (VStr (js "diverse")));
  _ ← render_items 3 (evidence_bullets s);
  _ ← render_items 2 (followups s);
  mret tt.

(** [renderReportMarkdown] as far as it can fail: of the values it
    interpolates, those taken over from the assessor's output are converted
    to strings here, in the order of the source (the summary, the skills,
    the evidence of the exercise); the names, the coverage, the scores and
    the normalized texts are strings and numbers, whose conversion cannot
    throw. The text of the report is not modelled. *)
Definition renderReportMarkdown (res : AssessmentResult) : result unit :=
  _ ← render_items 6 (summary res);
  _ ← mapM render_skill (skill_scores res);
  _ ← render_items 3 (exercise_evidence_bullets res);
  mret tt.

(* =================================================================== *)
(** * Structured calls: [callChatJSON], [callChatText] *)
(* =================================================================== *)

Definition plain_error (msg : jsstring) : js_error := Error (js "Error") msg.

(** The body of the [try] block: one attempt, with its single repair call
    when the first text does not parse. The model, the messages and the
    temperature are not modelled: the replies of the endpoint are those of
    the world, whatever was asked. *)
Definition attempt (w : world) : result value * world :=
  let '(r, w1) := chat w in
  match r with
  | Failed e => (Throw e, w1)
  | Content last =>
      match cleanJSON last with
      | [] => (Throw (plain_error (js "Model returned empty content.")), w1)
      | cleaned =>
          match JSON_parse cleaned with
          | Return v => (Return v, w1)
          | Throw _ =>
              let '(fixed, w2) := chat w1 in
              match fixed with
              | Failed e => (Throw e, w2)
              | Content fixedText =>
                  match cleanJSON fixedText with
                  | [] => (Throw (plain_error (js "JSON-fix step returned empty content.")), w2)
                  | fixedClean => (JSON_parse fixedClean, w2)
                  end
              end
          end
      end
  end.

Definition is429 (msg : jsstring) : bool :=
  includes msg (js "429") || includes (toLowerCase msg) (js "rate limit").

Definition isTransient (msg : jsstring) : bool :=
  is429 msg
  || includes (toLowerCase msg) (js "timeout")
  || includes (toLowerCase msg) (js "temporarily")
  || includes (toLowerCase msg) (js "fetch failed")
  || includes (toLowerCase msg) (js "empty content").

(** The [for] loop of [callChatJSON] from attempt number [attempt_no] with
    the current [delay]; [fuel] bounds the iterations left and is started
    at [maxAttempts], so that it runs out exactly when the loop condition
    fails. *)
Fixpoint retry_loop (maxAttempts : Z) (fuel : nat) (attempt_no delay : Z) (w : world)
  : result value * world :=
  match fuel with
  | O => (Throw (plain_error (js "callChatJSON failed unexpectedly.")), w)
  | S fuel' =>
      if attempt_no <=? maxAttempts then
        match attempt w with
        | (Return v, w1) => (Return v, w1)
        | (Throw e, w1) =>
            let msg := err_text e in
            if (attempt_no =? maxAttempts) || negb (isTransient msg)
            then (Throw (plain_error msg), w1)
            else retry_loop maxAttempts fuel' (attempt_no + 1)
                            (Z.min (delay * 2) 5000) (sleep delay w1)
        end
      else (Throw (plain_error (js "callChatJSON failed unexpectedly.")), w)
  end.

Definition callChatJSON (maxAttempts : Z) (w : world) : result value * world :=
  retry_loop maxAttempts (Z.to_nat maxAttempts) 1 450 w.

Definition callChatText (w : world) : result jsstring * world :=
  let '(r, w1) := chat w in
  match r with
  | Failed e => (Throw e, w1)
  | Content text => (Return (trim text), w1)
  end.

(* =================================================================== *)
(** * Interview plan and follow-ups *)
(* =================================================================== *)

Definition buildInterviewPlan (w : world) : result (list value) * world :=
  let '(r, w1) := callChatJSON 3 w in
  (plan ← r;
   questions ← get plan (js "questions");
   match questions with
   | VArr (q :: qs) => mret (q :: qs)
   | _ => Throw (plain_error (js "Interview plan missing questions."))
   end, w1).

(** The decision [{ need_followup, followup_question }]. The skill name and
    the recent Q&A given to it only enter the prompt. *)
Definition decideFollowup (w : world) : result (bool * value) * world :=
  if MAX_FOLLOWUPS_PER_SKILL =? 0 then (Return (false, VNull), w)
  else
    let '(r, w1) := callChatJSON 3 w in
    (decision ← r;
     need ← get decision (js "need_followup");
     fq ← get decision (js "followup_question");
     mret (truthy need, or_else fq VNull), w1).

(* =================================================================== *)
(** * The routes *)
(* =================================================================== *)

Record server := Server {
  sessions : gmap jsstring Session;
  env : world;
}.

Inductive response :=
| R_error (status : Z) (error : jsstring)
| R_started (sessionId : jsstring) (next : value)
| R_next (next : value)
| R_done
| R_answer (answer : jsstring)
| R_finished (results : list (number * AssessmentResult)) (disagreement : Disagreement).

(** [String(req.body?.field || fallback)] *)
Definition body_string (body : value) (field fallback : jsstring) : result jsstring :=
  ToString (or_else (get_opt body field) (VStr fallback)).

(** The [catch] of every route. *)
Definition caught (e : js_error) : response := R_error 500 (err_text e).

Definition api_start (body : value) (st : server) : response * server :=
  match matrix_file with
  | Throw e => (caught e, st)
  | Return m =>
      match body_string body (js "candidateName") (js "Candidate") with
      | Throw e => (caught e, st)
      | Return candidate =>
          let '(plan, w1) := buildInterviewPlan (env st) in
          match plan with
          | Throw e => (caught e, Server (sessions st) w1)
          | Return questions =>
              let '(sessionId, now, w2) := fresh_session w1 in
              let s := {| candidateName := candidate; matrix := m;
                          planQuestions := questions; idx := 0; transcript := [];
                          followupsLeft := MAX_FOLLOWUPS_PER_SKILL; createdAt := now |} in
              (R_started sessionId (default VUndefined (questions !! 0%nat)),
               Server (<[sessionId := s]> (sessions st)) w2)
          end
      end
  end.

Definition with_transcript (s : Session) (t : list QAEntry) : Session :=
  {| candidateName := candidateName s; matrix := matrix s;
     planQuestions := planQuestions s; idx := idx s; transcript := t;
     followupsLeft := followupsLeft s; createdAt := createdAt s |}.

Definition with_followupsLeft (s : Session) (n : Z) : Session :=
  {| candidateName := candidateName s; matrix := matrix s;
     planQuestions := planQuestions s; idx := idx s; transcript := transcript s;
     followupsLeft := n; createdAt := createdAt s |}.

Definition with_idx (s : Session) (i : nat) : Session :=
  {| candidateName := candidateName s; matrix := matrix s;
     planQuestions := planQuestions s; idx := i; transcript := transcript s;
     followupsLeft := followupsLeft s; createdAt := createdAt s |}.

(** The end of the answer route: [s.idx += 1], the budget reset, and the
    next question or [done]. *)
Definition advance (sessionId : jsstring) (s : Session) (st : server) : response * server :=
  let s' := with_followupsLeft (with_idx s (S (idx s))) MAX_FOLLOWUPS_PER_SKILL in
  let st' := Server (<[sessionId := s']> (sessions st)) (env st) in
  if (List.length (planQuestions s') <=? idx s')%nat then (R_done, st')
  else (R_next (default VUndefined (planQuestions s' !! idx s')), st').

(** [String(q.field || "")] for the current question [q]. *)
Definition question_text (q : value) (field : jsstring) : result jsstring :=
  v ← get q field; ToString (or_else v (VStr [])).

Definition api_answer (body : value) (st : server) : response * server :=
  match body_string body (js "sessionId") [] with
  | Throw e => (caught e, st)
  | Return sessionId =>
  match body_string body (js "answer") [] with
  | Throw e => (caught e, st)
  | Return answer =>
  match sessions st !! sessionId with
  | None => (R_error 400 (js "Session not found. Start again."), st)
  | Some s =>
      let q := default VUndefined (planQuestions s !! idx s) in
      match question_text q (js "skill") with
      | Throw e => (caught e, st)
      | Return skillName =>
      match question_text q (js "question") with
      | Throw e => (caught e, st)
      | Return question =>
          (* s.transcript.push(...): the session object of the registry is
             the one mutated; [recent], filtered from the transcript after
             the push, only enters the prompt of the decision *)
          let s1 := with_transcript s (transcript s ++
                      [{| qa_skill := skillName; qa_question := question;
                          qa_answer := answer |}]) in
          let st1 := Server (<[sessionId := s1]> (sessions st)) (env st) in
          if (followupsLeft s1 >? 0)
             && negb (str_eqb (trim answer) [])
             && negb (str_eqb (trim answer) (js "[SKIPPED]"))
          then
            let '(d, w1) := decideFollowup (env st1) in
            let st2 := Server (sessions st1) w1 in
            match d with
            | Throw e => (caught e, st2)
            | Return (need_followup, followup_question) =>
                if need_followup && truthy followup_question then
                  let s2 := with_followupsLeft s1 (followupsLeft s1 - 1) in
                  (R_next (VObj [(js "skill", VStr skillName);
                                 (js "question", followup_question)]),
                   Server (<[sessionId := s2]> (sessions st2)) w1)
                else advance sessionId s1 st2
            end
          else advance sessionId s1 st1
      end
      end
  end
  end
  end.

(** The conversions with which the two routes that generate an answer
    begin: [String(req.body?.sessionId || "")],
    [String(req.body?.which || "A").toUpperCase()] and
    [clampInt(req.body?.level ?? 6, 1, 9)]. The last two only select the
    model asked and enter the prompt, which the world does not distinguish;
    they are made for the errors they can throw. *)
Definition auto_fields (body : value) : result jsstring :=
  sessionId ← body_string body (js "sessionId") [];
  _ ← body_string body (js "which") (js "A");
  _ ← clampInt (nullish_else (get_opt body (js "level")) (VNum (Finite 6))) 1 9;
  mret sessionId.

(** [${q.skill}] and [${q.question}] in the prompt of the generated answer,
    for a current question [q] that is truthy. *)
Definition question_prompt (q : value) : result unit :=
  sk ← get q (js "skill");
  _ ← ToString sk;
  qu ← get q (js "question");
  _ ← ToString qu;
  mret tt.

Definition api_auto_answer (body : value) (st : server) : response * server :=
  match auto_fields body with
  | Throw e => (caught e, st)
  | Return sessionId =>
  match sessions st !! sessionId with
  | None => (R_error 400 (js "Session not found."), st)
  | Some s =>
      let q := default VUndefined (planQuestions s !! idx s) in
      if negb (truthy q) then (R_error 400 (js "No current question."), st)
      else
        match question_prompt q with
        | Throw e => (caught e, st)
        | Return _ =>
            let '(r, w1) := callChatText (env st) in
            let st1 := Server (sessions st) w1 in
            match r with
            | Throw e => (caught e, st1)
            | Return [] => (caught (plain_error (js "Model returned empty answer.")), st1)
            | Return answer => (R_answer answer, st1)
            end
        end
  end
  end.

Definition api_auto_exercise (body : value) (st : server) : response * server :=
  match auto_fields body with
  | Throw e => (caught e, st)
  | Return sessionId =>
  match sessions st !! sessionId with
  | None => (R_error 400 (js "Session not found."), st)
  | Some s =>
      let '(r, w1) := callChatText (env st) in
      let st1 := Server (sessions st) w1 in
      match r with
      | Throw e => (caught e, st1)
      | Return [] => (caught (plain_error (js "Model returned empty answer.")), st1)
      | Return answer => (R_answer answer, st1)
      end
  end
  end.

(** The three assessor calls and their normalization. *)
Definition assess (m : Matrix) (w : world) : result (list (jsstring * AssessmentResult)) * world :=
  let '(raw1, w1) := callChatJSON 3 w in
  match raw1 with
  | Throw e => (Throw e, w1)
  | Return raw1 =>
      let '(raw2, w2) := callChatJSON 3 w1 in
      match raw2 with
      | Throw e => (Throw e, w2)
      | Return raw2 =>
          let '(raw3, w3) := callChatJSON 3 w2 in
          match raw3 with
          | Throw e => (Throw e, w3)
          | Return raw3 =>
              (norm1 ← normalizeAssessorResult m raw1 (js "strict");
               norm2 ← normalizeAssessorResult m raw2 (js "diverse");
               norm3 ← normalizeAssessorResult m raw3 (js "diverse");
               mret [(js "A1", norm1); (js "A2", norm2); (js "A3", norm3)], w3)
          end
      end
  end.

(** One report: [overall(norm)], then the rendering. *)
Definition report (m : Matrix) (norm : AssessmentResult) : result (number * AssessmentResult) :=
  overall0to100 ← overall m norm;
  _ ← renderReportMarkdown norm;
  mret (overall0to100, norm).

(** The finish route. The coverage figures, the text of the reports and the
    content of the file written are not modelled; the response carries the
    overall score and the normalized result behind each report. *)
Definition api_finish (body : value) (st : server) : response * server :=
  match body_string body (js "sessionId") [] with
  | Throw e => (caught e, st)
  | Return sessionId =>
  match body_string body (js "exerciseAnswer") [] with
  | Throw e => (caught e, st)
  | Return exerciseAnswer =>
  match sessions st !! sessionId with
  | None => (R_error 400 (js "Session not found. Start again."), st)
  | Some s =>
      let m := matrix s in
      let '(norms, w1) := assess m (env st) in
      match norms ← norms; reports ← mapM (fun an => report m an.2) norms;
            mret (norms, reports) with
      | Throw e => (caught e, Server (sessions st) w1)
      | Return (norms, reports) =>
          let disagreement :=
            compareMulti (List.map (fun an => {| assessor := an.1; model := [];
                                                 norm := an.2 |}) norms) in
          let '(written, w2) := writeFileSync w1 in
          match written with
          | Throw e => (caught e, Server (sessions st) w2)
          | Return _ =>
              (R_finished reports disagreement,
               Server (delete sessionId (sessions st)) w2)
          end
      end
  end
  end
  end.

(** One request to the server. *)
Inductive request :=
| Start (body : value)
| Answer (body : value)
| AutoAnswer (body : value)
| AutoExercise (body : value)
| Finish (body : value).

Definition handle (rq : request) (st : server) : response * server :=
  match rq with
  | Start body => api_start body st
  | Answer body => api_answer body st
  | AutoAnswer body => api_auto_answer body st
  | AutoExercise body => api_auto_exercise body st
  | Finish body => api_finish body st
  end.

(** The server after a sequence of requests, each awaited before the next. *)
Definition run (rqs : list request) (st : server) : server :=
  fold_left (fun st rq => (handle rq st).2) rqs st.

(* =================================================================== *)
(** * Utils: [safeFilename], [getCoverage] *)
(* =================================================================== *)

(** [\w]: an ASCII letter, a digit or the underscore. *)
Definition is_word (c : N) : bool :=
  ((65 <=? c) && (c <=? 90) || (97 <=? c) && (c <=? 122)
   || (48 <=? c) && (c <=? 57) || (c =? 95))%N.

(** What [[^\w\-]] does not match. *)
Definition is_filename_unit (c : N) : bool := is_word c || (c =? 45)%N.

(** [s.replace(/[^\w\-]+/g, "_")]: every run of other code units becomes one
    underscore; [in_run] tells that the run has begun. *)
Fixpoint replace_unsafe_runs (in_run : bool) (s : jsstring) : jsstring :=
  match s with
  | [] => []
  | c :: s' =>
      if is_filename_unit c then c :: replace_unsafe_runs false s'
      else if in_run then replace_unsafe_runs true s'
           else 95%N :: replace_unsafe_runs true s'
  end.

Fixpoint strip_underscores_start (s : jsstring) : jsstring :=
  match s with
  | c :: s' => if (c =? 95)%N then strip_underscores_start s' else s
  | [] => []
  end.

(** [s.replace(/^_+|_+$/g, "")] *)
Definition strip_underscores (s : jsstring) : jsstring :=
  rev (strip_underscores_start (rev (strip_underscores_start s))).

Definition safeFilename (name : jsstring) : jsstring :=
  let named := match name with [] => js "candidate" | _ => name end in
  strip_underscores (replace_unsafe_runs false (trim named)).

Record Coverage := { count : nat; total : nat; fraction : Q }.

(** [getCoverage(transcript, skillNames)]; [filter(Boolean)] drops the empty
    skill names. *)
Definition getCoverage (transcript : list QAEntry) (skillNames : list jsstring) : Coverage :=
  let answered : gset jsstring :=
    list_to_set (List.filter (fun s => negb (str_eqb s []))
                             (List.map qa_skill transcript)) in
  let total := List.length skillNames in
  let count := List.length (List.filter (fun s => bool_decide (s ∈ answered)) skillNames) in
  {| count := count; total := total;
     fraction := if (total =? 0)%nat then 0%Q
                 else (inject_Z (Z.of_nat count) / inject_Z (Z.of_nat total))%Q |}.

(* =================================================================== *)
(** * Vocabulary of the properties *)
(* =================================================================== *)

(** [a] is a contiguous part of [t]. *)
Definition part_of (a t : jsstring) : Prop := exists p s, t = p ++ a ++ s.

(** The last closing brace of [t] stands before its first opening brace. *)
Definition braces_reversed (t : jsstring) : bool :=
  let a := indexOf t [lbrace] in
  let b := lastIndexOf t [rbrace] in
  negb (a =? -1) && negb (b =? -1) && (b <? a).

(** [t] holds an opening brace followed, somewhere, by a closing brace. *)
Definition has_brace_pair (t : jsstring) : bool :=
  let a := indexOf t [lbrace] in
  let b := lastIndexOf t [rbrace] in
  negb (a =? -1) && negb (b =? -1) && (b >? a).

(** An object text: an opening brace, what stands between, a closing brace. *)
Definition object_text (mid : jsstring) : jsstring := lbrace :: mid ++ [rbrace].

(** [t] is the object text of [mid] between a text without opening brace and
    a text without closing brace. *)
Definition embeds (mid t : jsstring) : Prop :=
  exists p s, t = p ++ object_text mid ++ s /\ ~ In lbrace p /\ ~ In rbrace s.

(** round(((level − 1) / 8) × 100) *)
Definition level_to_0to100 (level : Q) : Z :=
  Math_round (((level - 1) / 8) * 100)%Q.

(** The scores out of 100 that stand for the nine levels. *)
Definition level_scores : list Z := [0; 13; 25; 38; 50; 63; 75; 88; 100].

(** The skill names of the first result, in its order. *)
Definition first_result_skills (results : list Assessed) : list jsstring :=
  match results with
  | r0 :: _ => List.map skill (skill_scores (norm r0))
  | [] => []
  end.

(** The rows of spread [v], in the order they have in [l]. *)
Definition rows_of_spread (v : Z) (l : list DisagreementRow) : list DisagreementRow :=
  List.filter (fun r => spread r =? v) l.

(** [m] is the least element of [l]. *)
Definition least_of (m : Z) (l : list Z) : Prop := In m l /\ Forall (fun s => m <= s) l.

(** [m] is the greatest element of [l]. *)
Definition greatest_of (m : Z) (l : list Z) : Prop := In m l /\ Forall (fun s => s <= m) l.

(** The score that the assessor [r] contributes to the row of a skill: the
    [score_1_to_9] of its first entry for that skill, or 1 when it has no
    entry for it. *)
Definition scored_by (skill_name : jsstring) (r : Assessed) (z : Z) : Prop :=
  (exists before e after,
      skill_scores (norm r) = before ++ e :: after
      /\ skill e = skill_name
      /\ Forall (fun x => skill x <> skill_name) before
      /\ z = score_1_to_9 e)
  \/ (Forall (fun x => skill x <> skill_name) (skill_scores (norm r)) /\ z = 1).

(** A row as the analysis defines it for its skill: one score per assessor,
    their least and their greatest, and the difference of the two. *)
Definition well_formed_row (results : list Assessed) (row : DisagreementRow) : Prop :=
  Forall2 (scored_by (row_skill row)) results (scores row)
  /\ least_of (min row) (scores row)
  /\ greatest_of (max row) (scores row)
  /\ spread row = max row - min row.

Definition nullish (v : value) : bool :=
  match v with
  | VUndefined | VNull => true
  | _ => false
  end.

(** The entries the assessor sent: [raw.skill_scores] when it is an array. *)
Definition incoming_of (raw : value) : list value :=
  let raw_scores := get_opt raw (js "skill_scores") in
  if isArray raw_scores then items_of raw_scores else [].

(** The raw outputs whose properties can be read: neither the output nor
    one of its entries is [null]. *)
Definition readable (raw : value) : bool :=
  negb (nullish raw) && forallb (fun x => negb (nullish x)) (incoming_of raw).

(** The values that [String] converts: every value but an object with an
    own property [toString], and an array holding one (at any depth of
    arrays within arrays). *)
Fixpoint stringifiable (v : value) : bool :=
  match v with
  | VArr items => forallb stringifiable items
  | VObj fields => negb (hasOwn fields (js "toString"))
  | _ => true
  end.

(** No object anywhere in [v] has an own property [toString]. *)
Fixpoint toString_free (v : value) : bool :=
  match v with
  | VArr items => forallb toString_free items
  | VObj fields =>
      negb (hasOwn fields (js "toString"))
      && forallb (fun kv => toString_free kv.2) fields
  | _ => true
  end.

(** The values that [clampInt] takes: a finite number, or else a value that
    can be converted to the string it parses. *)
Definition clampable (v : value) : bool := Number_isFinite v || stringifiable v.

(** A computation that throws nothing but a [TypeError]. *)
Definition throws_only_TypeError {A} (r : result A) : Prop :=
  match r with
  | Throw e => ename e = js "TypeError"
  | Return _ => True
  end.

(** The skill name under which an entry is filed: its [skill], as a string,
    trimmed. *)
Definition entry_key (x : value) : result jsstring :=
  key ← ToString (or_else (get_opt x (js "skill")) (VStr []));
  mret (trim key).

Definition score_in_range (e : SkillScore) : Prop := 1 <= score_1_to_9 e <= 9.

(** The pause taken after the failed attempt number [i + 1]:
    the initial 450 ms doubled [i] times, at most 5000 ms. *)
Definition backoff (i : nat) : Z := Z.min (450 * 2 ^ Z.of_nat i) 5000.

(** The world with further pauses logged. *)
Definition with_pauses (ps : list Z) (w : world) : world :=
  World (reply_at w) (calls w) (slept w ++ ps)
        (session_id_at w) (timestamp_at w) (started w)
        (write_error_at w) (writes w).

(** The world after [n] attempts made in a row. *)
Fixpoint after_attempts (n : nat) (w : world) : world :=
  match n with
  | O => w
  | S n' => after_attempts n' (attempt w).2
  end.

(** What the attempt number [n + 1] gives. *)
Definition outcome_at (w : world) (n : nat) : result value :=
  (attempt (after_attempts n w)).1.

(** The attempt failed with a message classified transient. *)
Definition transient_failure (o : result value) : bool :=
  match o with
  | Throw e => isTransient (err_text e)
  | Return _ => false
  end.

(** The message carries one of the marks of a transient failure: 429
    anywhere in it, or, whatever the case of its letters, "rate limit",
    "timeout", "temporarily", "fetch failed" or "empty content". *)
Definition has_transient_marker (msg : jsstring) : Prop :=
  part_of (js "429") msg
  \/ part_of (js "rate limit") (toLowerCase msg)
  \/ part_of (js "timeout") (toLowerCase msg)
  \/ part_of (js "temporarily") (toLowerCase msg)
  \/ part_of (js "fetch failed") (toLowerCase msg)
  \/ part_of (js "empty content") (toLowerCase msg).

(** The attempt failed, with a message that carries such a mark. *)
Definition fails_with_marker (o : result value) : Prop :=
  match o with
  | Throw e => has_transient_marker (err_text e)
  | Return _ => False
  end.

(** The attempt succeeded, or failed with a message that carries none. *)
Definition ends_without_marker (o : result value) : Prop :=
  match o with
  | Throw e => ~ has_transient_marker (err_text e)
  | Return _ => True
  end.

(** What [callChatJSON] makes of the outcome of its last attempt: the value,
    or a new [Error] carrying the message of the failure. *)
Definition raised (o : result value) : result value :=
  match o with
  | Return v => Return v
  | Throw e => Throw (plain_error (err_text e))
  end.

(** The bounds a session keeps: a budget that is not negative and a cursor
    within the plan (at most at its end). *)
Definition session_within_bounds (s : Session) : Prop :=
  0 <= followupsLeft s /\ (idx s <= List.length (planQuestions s))%nat.

Definition sessions_within_bounds (st : server) : Prop :=
  forall sid s, sessions st !! sid = Some s -> session_within_bounds s.

(** The finish route answered with the reports. *)
Definition finished (r : response) : bool :=
  match r with
  | R_finished _ _ => true
  | _ => false
  end.

(** No session is started under the id [sid] from the world [w] on. *)
Definition never_issued_again (sid : jsstring) (w : world) : Prop :=
  forall n : nat, (started w <= n)%nat -> session_id_at w n <> sid.

(** The calls in between left the source of session ids as it was. *)
Definition ids_kept (w w' : world) : Prop :=
  session_id_at w' = session_id_at w /\ started w' = started w.

(** The entry that the answer route appends: the skill and the question of
    the current question, as strings, and the answer. *)
Definition answered (skillName question answer : jsstring) : QAEntry :=
  {| qa_skill := skillName; qa_question := question; qa_answer := answer |}.

(** The route asks for a follow-up decision on this answer. *)
Definition asks_decision (s : Session) (answer : jsstring) : bool :=
  (followupsLeft s >? 0)
  && negb (str_eqb (trim answer) [])
  && negb (str_eqb (trim answer) (js "[SKIPPED]")).

(** What one request can do to the registry: nothing, change the session
    of a registered id, register the id the world issues next, or remove a
    registered id. *)
Inductive registry_step (st st' : server) : Prop :=
| step_same :
    sessions st' = sessions st -> ids_kept (env st) (env st') ->
    registry_step st st'
| step_update (sid : jsstring) (s s' : Session) :
    sessions st !! sid = Some s ->
    sessions st' = <[sid := s']> (sessions st) ->
    ids_kept (env st) (env st') ->
    planQuestions s' = planQuestions s ->
    (idx s' = idx s /\ (followupsLeft s' = followupsLeft s
                        \/ (0 < followupsLeft s /\ followupsLeft s' = followupsLeft s - 1))
     \/ (idx s' = S (idx s) /\ (idx s < List.length (planQuestions s))%nat
         /\ followupsLeft s' = MAX_FOLLOWUPS_PER_SKILL)) ->
    registry_step st st'
| step_register (s : Session) :
    sessions st' = <[session_id_at (env st) (started (env st)) := s]> (sessions st) ->
    session_id_at (env st') = session_id_at (env st) ->
    started (env st') = S (started (env st)) ->
    idx s = 0%nat -> followupsLeft s = MAX_FOLLOWUPS_PER_SKILL ->
    registry_step st st'
| step_remove (sid : jsstring) :
    sessions st' = delete sid (sessions st) -> ids_kept (env st) (env st') ->
    registry_step st st'.

(** The lists of an entry are within the lengths the normalizer allows. *)
Definition entry_lists_bounded (e : SkillScore) : Prop :=
  (List.length (evidence_bullets e) <= 3)%nat
  /\ (List.length (risks e) <= 2)%nat
  /\ (List.length (followups e) <= 2)%nat.

(** The score the normalizer reads from an assessor's entry:
    [clampInt(x.score_1_to_9 ?? x.score, 1, 9)]. *)
Definition entry_score (x : value) : result Z :=
  clampInt (nullish_else (get_opt x (js "score_1_to_9")) (get_opt x (js "score"))) 1 9.


(** The body of a request. *)
Definition body_of (rq : request) : value :=
  match rq with
  | Start b | Answer b | AutoAnswer b | AutoExercise b | Finish b => b
  end.

(** [req.body?.field || fallback], the value that a route converts to a
    string. *)
Definition text_field (body : value) (field fallback : jsstring) : value :=
  or_else (get_opt body field) (VStr fallback).

(** The fields of its body that a route converts before anything else can
    all be converted: the session id, and with it the answer, or the
    respondent and the level, or the exercise answer. *)
Definition request_converts (rq : request) : bool :=
  match rq with
  | Start b => stringifiable (text_field b (js "candidateName") (js "Candidate"))
  | Answer b =>
      stringifiable (text_field b (js "sessionId") [])
      && stringifiable (text_field b (js "answer") [])
  | AutoAnswer b | AutoExercise b =>
      stringifiable (text_field b (js "sessionId") [])
      && stringifiable (text_field b (js "which") (js "A"))
      && clampable (nullish_else (get_opt b (js "level")) (VNum (Finite 6)))
  | Finish b =>
      stringifiable (text_field b (js "sessionId") [])
      && stringifiable (text_field b (js "exerciseAnswer") [])
  end.

(** The requests that name a session: all but the one that starts one. *)
Definition names_session (rq : request) : bool :=
  match rq with
  | Start _ => false
  | _ => true
  end.

(** The session [s] once its current question is left behind: the cursor on
    the next question, the budget of follow-ups reset, [entry] recorded. *)
Definition moved_on (s : Session) (entry : QAEntry) : Session :=
  {| candidateName := candidateName s; matrix := matrix s;
     planQuestions := planQuestions s; idx := S (idx s);
     transcript := transcript s ++ [entry];
     followupsLeft := MAX_FOLLOWUPS_PER_SKILL; createdAt := createdAt s |}.

(** The session [s] kept on its current question for a follow-up, one unit
    of its budget spent, [entry] recorded. *)
Definition held_back (s : Session) (entry : QAEntry) : Session :=
  {| candidateName := candidateName s; matrix := matrix s;
     planQuestions := planQuestions s; idx := idx s;
     transcript := transcript s ++ [entry];
     followupsLeft := followupsLeft s - 1; createdAt := createdAt s |}.

(** What the answer route replies once the cursor has moved to [i]: the
    question there, or [done] past the end of the plan. *)
Definition next_or_done (s : Session) (i : nat) : response :=
  if (List.length (planQuestions s) <=? i)%nat then R_done
  else R_next (default VUndefined (planQuestions s !! i)).

(** [s'] is a later state of the session [s]: what was fixed at its start is
    kept, the cursor has not moved back, the transcript has only grown, by
    at least one entry per question passed. *)
Definition session_grows (s s' : Session) : Prop :=
  candidateName s' = candidateName s /\ matrix s' = matrix s
  /\ planQuestions s' = planQuestions s /\ createdAt s' = createdAt s
  /\ (idx s <= idx s')%nat
  /\ exists more, transcript s' = transcript s ++ more
                  /\ (idx s' - idx s <= List.length more)%nat.

(** What holds of every session the routes build: a plan with a question in
    it, a budget within the maximum, an answer recorded for every question
    passed. *)
Definition session_sound (s : Session) : Prop :=
  planQuestions s <> [] /\ followupsLeft s <= MAX_FOLLOWUPS_PER_SKILL
  /\ (idx s <= List.length (transcript s))%nat.

(** A row whose figures are those of scores between 1 and 9. *)
Definition row_bounded (row : DisagreementRow) : Prop :=
  1 <= min row <= max row /\ max row <= 9 /\ 0 <= spread row <= 8.

(** Every score of every assessor lies between 1 and 9. *)
Definition scores_in_range (results : list Assessed) : Prop :=
  Forall (fun r => Forall score_in_range (skill_scores (norm r))) results.

(** What a route that generates an answer may do from the server [st]: it
    leaves the registry alone, asks the model at most once, and replies with
    an answer that is not empty and has no white space around it, or with
    an error of status 400 or 500. *)
Definition generated_answer_outcome (st : server) (out : response * server) : Prop :=
  sessions out.2 = sessions st
  /\ (calls (env st) <= calls (env out.2) <= calls (env st) + 1)%nat
  /\ match out.1 with
     | R_answer a => a <> [] /\ trim a = a
     | R_error status _ => status = 400 \/ status = 500
     | _ => False
     end.

(** The most calls of the model endpoint that one request can cause: three
    attempts of two calls for each JSON it asks for, one call for a text. *)
Definition calls_allowed (rq : request) : nat :=
  match rq with
  | Start _ | Answer _ => 6
  | AutoAnswer _ | AutoExercise _ => 1
  | Finish _ => 18
  end.

(** A text that neither begins nor ends with an underscore. *)
Definition no_underscore_at_ends (s : jsstring) : Prop :=
  head s <> Some 95%N /\ head (rev s) <> Some 95%N.

(** The skill name [s] has an answer in the transcript. *)
Definition has_answer (transcript : list QAEntry) (s : jsstring) : bool :=
  negb (str_eqb s []) && existsb (fun t => str_eqb (qa_skill t) s) transcript.

(* =================================================================== *)
(** * Concrete inputs of the examples *)
(* =================================================================== *)

(** A string between double quotes. *)
Definition quoted (s : jsstring) : jsstring := 34%N :: s ++ [34%N].

(** The text [{"a":1}]. *)
Definition example_object : jsstring :=
  js "{" ++ quoted (js "a") ++ js ":1}".

(** A skill score of a given level, otherwise as the normalizer's default. *)
Definition scored (skill_name : jsstring) (level : Z) : SkillScore :=
  {| skill := skill_name;
     score_1_to_9 := level;
     confidence_low_med_high := VStr (js "medium");
     assessor_stance := VStr (js "strict");
     why_this_score := [];
     what_was_missing_for_next_level := [];
     evidence_bullets := [];
     risks := [];
     followups := [] |}.

Definition example_matrix : Matrix :=
  {| role := js "AI Engineer";
     skills := [ {| name := js "A"; weight := 1%float |}; {| name := js "B"; weight := 1%float |} ] |}.

(** For the examples, none of which turns a finite number into text. *)
Definition no_number_text : Q -> jsstring := fun _ => [].

(** [JSON.parse] on the texts listed in a table, a [SyntaxError] on any
    other text. *)
Definition parse_table (table : list (jsstring * value)) (text : jsstring) : result value :=
  match List.find (fun kv => str_eqb kv.1 text) table with
  | Some kv => Return kv.2
  | None => Throw (Error (js "SyntaxError") (js "Unexpected token in JSON"))
  end.

(** The plan [{"questions":[{"skill":"A","question":"Q"}]}], as text and as
    the value parsed from it. *)
Definition example_plan_text : jsstring :=
  js "{" ++ quoted (js "questions") ++ js ":[{" ++ quoted (js "skill") ++ js ":"
     ++ quoted (js "A") ++ js "," ++ quoted (js "question") ++ js ":"
     ++ quoted (js "Q") ++ js "}]}".

Definition example_question : value :=
  VObj [(js "skill", VStr (js "A")); (js "question", VStr (js "Q"))].

Definition example_plan : value := VObj [(js "questions", VArr [example_question])].

Definition example_parse : jsstring -> result value :=
  parse_table [(example_plan_text, example_plan); (js "{}", VObj [])].

Definition example_ids (n : nat) : jsstring := js "s" ++ [(48 + N.of_nat n)%N].

(** A world in which every call of the endpoint gives [reply n]. *)
Definition world_with (replies : nat -> reply) : world :=
  World replies 0 [] example_ids (fun _ => js "2024-01-01T00:00:00.000Z") 0
        (fun _ => None) 0.

(** An endpoint that refuses every call. *)
Definition unauthorized : nat -> reply :=
  fun _ => Failed (Error (js "Error") (js "401 Unauthorized")).

(** An endpoint that is rate-limited once and then refuses. *)
Definition limited_then_unauthorized (n : nat) : reply :=
  match n with
  | O => Failed (Error (js "Error") (js "429 Too Many Requests"))
  | _ => unauthorized n
  end.

(** An endpoint that gives the plan when first asked, and on its fifth
    call, and an empty object otherwise. *)
Definition cooperative (n : nat) : reply :=
  match n with
  | 0%nat | 4%nat => Content example_plan_text
  | _ => Content (js "{}")
  end.

(** A session at its first question, with one follow-up left. *)
Definition example_session : Session :=
  {| candidateName := js "Ada"; matrix := example_matrix;
     planQuestions := [example_question]; idx := 0; transcript := [];
     followupsLeft := 1; createdAt := js "2024-01-01T00:00:00.000Z" |}.

Definition example_answer_body : value :=
  VObj [(js "sessionId", VStr (js "s0")); (js "answer", VStr (js "I built it."))].

Definition example_skip_body : value :=
  VObj [(js "sessionId", VStr (js "s0")); (js "answer", VStr (js "[SKIPPED]"))].

Definition example_finish_body : value :=
  VObj [(js "sessionId", VStr (js "s0")); (js "exerciseAnswer", VStr (js "Summarise."))].

Definition example_start_body : value := VObj [(js "candidateName", VStr (js "Ada"))].

(** A raw assessor output that scores the skill A only. *)
Definition example_raw : value :=
  VObj [(js "skill_scores",
         VArr [VObj [(js "skill", VStr (js "A"));
                     (js "score_1_to_9", VNum (Finite 7))]])].

(** A at level 1 and B at level 2. *)
Definition example_scores : list SkillScore := [scored (js "A") 1; scored (js "B") 2].

(** A registry with the one session [s0]. *)
Definition example_registry : gmap jsstring Session := {[ js "s0" := example_session ]}.

(** The scenario of three assessors who disagree on A and on B alike. *)
Definition example_assessed (a b : Z) : Assessed :=
  {| assessor := js "A"; model := [];
     norm := {| recommendation := js "Lean Hire";
                skill_scores := [scored (js "A") a; scored (js "B") b];
                exercise_score_1_to_9 := 5;
                exercise_why_this_score := [];
                exercise_what_was_missing_for_next_level := [];
                exercise_evidence_bullets := [];
                summary := [] |} |}.

(** An assessor's entry for the skill A. *)
Definition example_entry (level : Q) (evidence : list value) : value :=
  VObj [(js "skill", VStr (js "A"));
        (js "score_1_to_9", VNum (Finite level));
        (js "evidence_bullets", VArr evidence)].

Definition example_evidence : list value :=
  [VStr (js "a"); VStr (js "b"); VStr (js "c"); VStr (js "d")].

(** A raw output that scores A twice, 3 and then 7, with four pieces of
    evidence for the second score and seven lines of summary. *)
Definition example_raw_twice : value :=
  VObj [(js "skill_scores",
         VArr [example_entry 3 []; example_entry 7 example_evidence]);
        (js "summary", VArr (example_evidence ++ example_evidence))].

(** The object [{"a":1}] inside a fence. *)
Definition example_fenced : jsstring :=
  js "```json " ++ example_object ++ js " ```".

(** An endpoint that always answers with blanks. *)
Definition blank : nat -> reply := fun _ => Content (js "  ").

(** The entry recorded for an answer to the question of [example_session]. *)
Definition example_entry_of (answer : jsstring) : QAEntry :=
  {| qa_skill := js "A"; qa_question := js "Q"; qa_answer := answer |}.

(** [example_session] once its only question is skipped. *)
Definition example_session_done : Session :=
  {| candidateName := js "Ada"; matrix := example_matrix;
     planQuestions := [example_question]; idx := 1;
     transcript := [example_entry_of (js "[SKIPPED]")];
     followupsLeft := 1; createdAt := js "2024-01-01T00:00:00.000Z" |}.

(** The decision [{"need_followup":true,"followup_question":"Which tools?"}],
    as text and as the value parsed from it. *)
Definition example_decision_text : jsstring :=
  js "{" ++ quoted (js "need_followup") ++ js ":true,"
     ++ quoted (js "followup_question") ++ js ":" ++ quoted (js "Which tools?") ++ js "}".

Definition example_decision : value :=
  VObj [(js "need_followup", VBool true);
        (js "followup_question", VStr (js "Which tools?"))].

Definition example_parse_decision : jsstring -> result value :=
  parse_table [(example_decision_text, example_decision)].

(** An endpoint that always answers with that decision. *)
Definition deciding : nat -> reply := fun _ => Content example_decision_text.

(** The matrix of the examples with both weights at 0.1. *)
Definition example_matrix_tenths : Matrix :=
  {| role := js "AI Engineer";
     skills := [ {| name := js "A"; weight := 0x1.999999999999ap-4%float |};
                 {| name := js "B"; weight := 0x1.999999999999ap-4%float |} ] |}.

(** A normalized result with A at level [a], B at level [b] and the
    exercise at level [exercise]. *)
Definition example_result (a b exercise : Z) : AssessmentResult :=
  {| recommendation := js "Lean Hire";
     skill_scores := [scored (js "A") a; scored (js "B") b];
     exercise_score_1_to_9 := exercise;
     exercise_why_this_score := [];
     exercise_what_was_missing_for_next_level := [];
     exercise_evidence_bullets := [];
     summary := [] |}.

(** An object with an own property [toString], as [JSON.parse] gives it for
    the text [{"toString":1}]. *)
Definition example_poisoned : value := VObj [(js "toString", VNum (Finite 1))].

(** A body whose session id is such an object. *)
Definition example_poisoned_body : value :=
  VObj [(js "sessionId", example_poisoned); (js "answer", VStr (js "I built it."))].

(* =================================================================== *)
(** * Properties of the string helpers *)
(* =================================================================== *)

Lemma str_eqb_eq (a b : jsstring) : str_eqb a b = true <-> a = b.
Proof.
  revert b; induction a as [|x a IH]; intros [|y b]; simpl; try easy.
  rewrite andb_true_iff, N.eqb_eq, IH. split.
  - intros [-> ->]; reflexivity.
  - intros [= -> ->]; auto.
Qed.

Lemma str_eqb_neq (a b : jsstring) : str_eqb a b = false <-> a <> b.
Proof.
  rewrite <- str_eqb_eq. destruct (str_eqb a b); split; congruence.
Qed.

Lemma starts_with_unit (c : N) (s : jsstring) :
  starts_with [c] s = true <-> exists q, s = c :: q.
Proof.
  destruct s as [|d s]; simpl.
  - split; [discriminate | intros [q Hq]; discriminate].
  - rewrite andb_true_r, N.eqb_eq. split.
    + intros ->; eauto.
    + intros [q [= -> _]]; reflexivity.
Qed.

(** [indexOf] of one code unit: either it is absent, or the string splits
    at its first occurrence. *)
Lemma indexOf_from_unit (c : N) (s : jsstring) (i : Z) :
  (indexOf_from [c] s i = -1 /\ ~ In c s) \/
  (exists p q, s = p ++ c :: q /\ ~ In c p /\
               indexOf_from [c] s i = i + Z.of_nat (List.length p)).
Proof.
  revert i; induction s as [|d s IH]; intros i.
  - left; simpl; auto.
  - cbn [indexOf_from].
    destruct (starts_with [c] (d :: s)) eqn:E.
    + apply starts_with_unit in E as [q [= -> ->]].
      right. exists [], q. simpl. repeat split; auto. lia.
    + assert (d <> c) as Hd.
      { intros ->. rewrite (proj2 (starts_with_unit c (c :: s))) in E by eauto.
        discriminate. }
      destruct (IH (i + 1)) as [(H1 & H2)|(p & q & -> & Hp & Hr)].
      * left. split; auto. simpl; intros [?|?]; auto.
      * right. exists (d :: p), q. simpl. repeat split; auto.
        -- intros [?|?]; auto.
        -- rewrite Hr. lia.
Qed.

Lemma indexOf_unit (c : N) (s : jsstring) :
  (indexOf s [c] = -1 /\ ~ In c s) \/
  (exists p q, s = p ++ c :: q /\ ~ In c p /\ indexOf s [c] = Z.of_nat (List.length p)).
Proof.
  unfold indexOf.
  destruct (indexOf_from_unit c s 0) as [(H1 & H2)|(p & q & H1 & H2 & H3)];
    [left; auto | right].
  exists p, q. rewrite H3. auto.
Qed.

(** [lastIndexOf] of one code unit: the string splits at its last
    occurrence, or the search keeps what it had. *)
Lemma lastIndexOf_from_unit (c : N) (s : jsstring) (i best : Z) :
  (lastIndexOf_from [c] s i best = best /\ ~ In c s) \/
  (exists p q, s = p ++ c :: q /\ ~ In c q /\
               lastIndexOf_from [c] s i best = i + Z.of_nat (List.length p)).
Proof.
  revert i best; induction s as [|d s IH]; intros i best.
  - left; simpl; auto.
  - cbn [lastIndexOf_from].
    destruct (starts_with [c] (d :: s)) eqn:E.
    + apply starts_with_unit in E as [q [= -> ->]].
      destruct (IH (i + 1) i) as [(H1 & H2)|(p & q' & -> & Hq & Hr)].
      * right. exists [], q. simpl. rewrite H1. repeat split; auto. lia.
      * right. exists (c :: p), q'. simpl. rewrite Hr. repeat split; auto. lia.
    + assert (d <> c) as Hd.
      { intros ->. rewrite (proj2 (starts_with_unit c (c :: s))) in E by eauto.
        discriminate. }
      destruct (IH (i + 1) best) as [(H1 & H2)|(p & q' & -> & Hq & Hr)].
      * left. split; auto. simpl; intros [?|?]; auto.
      * right. exists (d :: p), q'. simpl. rewrite Hr. repeat split; auto. lia.
Qed.

Lemma lastIndexOf_unit (c : N) (s : jsstring) :
  (lastIndexOf s [c] = -1 /\ ~ In c s) \/
  (exists p q, s = p ++ c :: q /\ ~ In c q /\ lastIndexOf s [c] = Z.of_nat (List.length p)).
Proof.
  unfold lastIndexOf.
  destruct (lastIndexOf_from_unit c s 0 (-1)) as [H|(p & q & H1 & H2 & H3)];
    [left; auto | right].
  exists p, q. rewrite H3. auto.
Qed.

Lemma slice_empty_span (s : jsstring) (a e : Z) :
  0 <= a -> 0 <= e -> e <= a -> slice s a e = [].
Proof.
  intros Ha He Hea. unfold slice.
  destruct (Z.ltb_spec a 0); [lia|]. destruct (Z.ltb_spec e 0); [lia|].
  replace (Z.max _ 0) with 0 by lia. reflexivity.
Qed.

Lemma slice_middle (p m q : jsstring) :
  slice (p ++ m ++ q) (Z.of_nat (List.length p))
        (Z.of_nat (List.length p) + Z.of_nat (List.length m)) = m.
Proof.
  unfold slice. rewrite !length_app.
  destruct (Z.ltb_spec (Z.of_nat (List.length p)) 0); [lia|].
  destruct (Z.ltb_spec (Z.of_nat (List.length p) + Z.of_nat (List.length m)) 0); [lia|].
  rewrite !Nat2Z.inj_add.
  replace (Z.to_nat (Z.min _ _)) with (List.length p) by lia.
  replace (Z.to_nat (Z.max _ 0)) with (List.length m) by lia.
  rewrite drop_app_length. apply take_app_length.
Qed.

Lemma trimStart_suffix (s : jsstring) :
  exists d, s = d ++ trimStart s /\ Forall (fun c => is_ws c = true) d.
Proof.
  induction s as [|c s (d & Hd & Hws)]; simpl.
  - exists []; auto.
  - destruct (is_ws c) eqn:E.
    + exists (c :: d). simpl. split; [congruence | constructor; auto].
    + exists []; auto.
Qed.

Lemma trimStart_keeps (c : N) (r : jsstring) :
  is_ws c = false -> trimStart (c :: r) = c :: r.
Proof. intros H; simpl; rewrite H; reflexivity. Qed.

Lemma trimEnd_prefix (s : jsstring) :
  exists d, s = trimEnd s ++ d /\ Forall (fun c => is_ws c = true) d.
Proof.
  unfold trimEnd. destruct (trimStart_suffix (rev s)) as (d & Hd & Hws).
  exists (rev d). split.
  - rewrite <- rev_app_distr, <- Hd, rev_involutive. reflexivity.
  - apply List.Forall_rev, Hws.
Qed.

Lemma trimEnd_keeps (s : jsstring) (c : N) :
  is_ws c = false -> trimEnd (s ++ [c]) = s ++ [c].
Proof.
  intros H. unfold trimEnd. rewrite rev_app_distr. simpl. rewrite H.
  simpl. rewrite rev_involutive. reflexivity.
Qed.

(** A code unit that is not white space survives [trim]. *)
Lemma trim_keeps_In (s : jsstring) (c : N) :
  In c s -> is_ws c = false -> In c (trim s).
Proof.
  intros Hin Hc.
  assert (forall t, In c t -> In c (trimStart t)) as Hstart.
  { induction t as [|d t IH]; simpl; [easy|].
    intros [->|Ht].
    - rewrite Hc. left; reflexivity.
    - destruct (is_ws d); [auto | right; exact Ht]. }
  unfold trim, trimEnd. rewrite <- in_rev. apply Hstart.
  rewrite <- in_rev. apply Hstart, Hin.
Qed.

Lemma same_length_prefix {A} (p p' q q' : list A) :
  p ++ q = p' ++ q' -> List.length p = List.length p' -> p = p' /\ q = q'.
Proof.
  revert p'; induction p as [|x p IH]; intros [|y p']; simpl; try easy.
  intros [= -> H] [= Hl]. destruct (IH _ H Hl) as [-> ->]. auto.
Qed.

(** C10 (amended): the assessment module's [cleanJSON] returns what the
    server's [cleanJSON] returns, except on a text whose last closing brace
    stands before its first opening brace once the fences are stripped:
    there the server returns the stripped text, trimmed and not empty, and
    the assessment module returns the empty string. *)
Theorem cleanJSON_modules_agree_unless_reversed (text : jsstring) :
  if braces_reversed (strip_fences text)
  then Assessment.cleanJSON text = []
       /\ cleanJSON text = trim (strip_fences text)
       /\ cleanJSON text <> []
  else Assessment.cleanJSON text = cleanJSON text.
Proof.
  unfold braces_reversed, Assessment.cleanJSON, cleanJSON.
  set (t := strip_fences text).
  destruct (indexOf_unit lbrace t) as [(Ha & _)|(p & q & Ht & Hp & Ha)].
  { rewrite Ha. reflexivity. }
  destruct (lastIndexOf_unit rbrace t) as [(Hb & _)|(p' & q' & Ht' & Hq' & Hb)].
  { rewrite Hb, Ha. simpl.
    destruct (Z.of_nat (List.length p) =? -1); reflexivity. }
  rewrite Ha, Hb.
  assert (List.length p <> List.length p') as Hne.
  { intros Hl. rewrite Ht in Ht'.
    destruct (same_length_prefix _ _ _ _ Ht' Hl) as [_ H]. inversion H. }
  destruct (Z.eqb_spec (Z.of_nat (List.length p)) (-1)); [lia|].
  destruct (Z.eqb_spec (Z.of_nat (List.length p')) (-1)); [lia|].
  cbn [negb andb].
  destruct (Z.ltb_spec (Z.of_nat (List.length p')) (Z.of_nat (List.length p))) as [Hlt|Hge].
  - destruct (Z.gtb_spec (Z.of_nat (List.length p')) (Z.of_nat (List.length p))); [lia|].
    rewrite slice_empty_span by lia.
    repeat split; auto.
    intros Hnil.
    assert (In lbrace (trim t)) as Hin.
    { apply trim_keeps_In; [|reflexivity]. rewrite Ht. apply in_elt. }
    rewrite Hnil in Hin. destruct Hin.
  - destruct (Z.gtb_spec (Z.of_nat (List.length p')) (Z.of_nat (List.length p))); [|lia].
    reflexivity.
Qed.

(* =================================================================== *)
(** * [includes] is occurrence as a contiguous part *)
(* =================================================================== *)

Lemma starts_with_app (needle q : jsstring) : starts_with needle (needle ++ q) = true.
Proof.
  induction needle as [|c needle IH]; cbn; [reflexivity|].
  rewrite N.eqb_refl. exact IH.
Qed.

Lemma starts_with_prefix (needle s : jsstring) :
  starts_with needle s = true -> exists q, s = needle ++ q.
Proof.
  revert s; induction needle as [|c needle IH]; intros s H; [exists s; reflexivity|].
  destruct s as [|d s]; [discriminate|]. cbn in H.
  apply andb_true_iff in H as [Hc Hs]. apply N.eqb_eq in Hc as ->.
  destruct (IH s Hs) as (q & ->). exists q. reflexivity.
Qed.

Lemma indexOf_from_unfold (needle s : jsstring) (i : Z) :
  indexOf_from needle s i
  = if starts_with needle s then i
    else match s with
         | [] => -1
         | _ :: s' => indexOf_from needle s' (i + 1)
         end.
Proof. destruct s; reflexivity. Qed.

Lemma indexOf_from_found (needle p q : jsstring) (i : Z) :
  0 <= i -> 0 <= indexOf_from needle (p ++ needle ++ q) i.
Proof.
  revert i; induction p as [|c p IH]; intros i Hi.
  - cbn [app]. rewrite indexOf_from_unfold, starts_with_app. exact Hi.
  - cbn [app indexOf_from]. destruct (starts_with _ _); [exact Hi|].
    apply IH. lia.
Qed.

Lemma indexOf_from_part (needle s : jsstring) (i : Z) :
  indexOf_from needle s i <> -1 -> part_of needle s.
Proof.
  revert i; induction s as [|c s IH]; intros i H.
  - cbn [indexOf_from] in H. destruct (starts_with needle []) eqn:E; [|congruence].
    destruct (starts_with_prefix _ _ E) as (q & Hq). exists [], q. exact Hq.
  - cbn [indexOf_from] in H. destruct (starts_with needle (c :: s)) eqn:E.
    + destruct (starts_with_prefix _ _ E) as (q & Hq). exists [], q. exact Hq.
    + destruct (IH _ H) as (p & q & ->). exists (c :: p), q. reflexivity.
Qed.

Lemma includes_part (s needle : jsstring) :
  includes s needle = true <-> part_of needle s.
Proof.
  unfold includes, indexOf. rewrite negb_true_iff, Z.eqb_neq. split.
  - apply indexOf_from_part.
  - intros (p & q & ->). pose proof (indexOf_from_found needle p q 0 ltac:(lia)). lia.
Qed.

Lemma includes_embedded (p m s needle : jsstring) :
  includes m needle = true -> includes (p ++ m ++ s) needle = true.
Proof.
  rewrite !includes_part. intros (a & b & ->). exists (p ++ a), (b ++ s).
  rewrite <- !app_assoc. reflexivity.
Qed.

(* =================================================================== *)
(** * Properties of [cleanJSON] *)
(* =================================================================== *)

Lemma ws_not_brace (d : jsstring) (c : N) :
  Forall (fun x => is_ws x = true) d -> is_ws c = false -> ~ In c d.
Proof.
  induction 1 as [|x d Hx _ IH]; simpl; [tauto|].
  intros Hc [->|Hin]; [congruence | exact (IH Hc Hin)].
Qed.

Lemma strip_ticks_suffix (n : nat) (s : jsstring) :
  exists d, s = d ++ strip_ticks n s /\ Forall (fun x => x = backtick) d.
Proof.
  revert s; induction n as [|n IH]; intros s.
  - exists []; destruct s; auto.
  - destruct s as [|c s]; [exists []; auto|]. simpl.
    destruct (N.eqb_spec c backtick) as [->|Hc].
    + destruct (IH s) as (d & Hd & Hall). exists (backtick :: d).
      simpl. split; [congruence | constructor; auto].
    + exists []; auto.
Qed.

Lemma ticks_not_brace (d : jsstring) (c : N) :
  Forall (fun x => x = backtick) d -> c <> backtick -> ~ In c d.
Proof.
  induction 1 as [|x d Hx _ IH]; simpl; [tauto|].
  intros Hc [->|Hin]; [congruence | exact (IH Hc Hin)].
Qed.

Lemma strip_json_word_split (s rest : jsstring) :
  strip_json_word s = Some rest ->
  exists a b c d, s = [a; b; c; d] ++ rest /\ ~ In lbrace [a; b; c; d].
Proof.
  destruct s as [|a [|b [|c [|d r]]]]; try discriminate. unfold strip_json_word.
  destruct (str_eqb _ _) eqn:E; [|discriminate]. intros [= <-].
  apply str_eqb_eq in E. injection E as Ha Hb Hc Hd.
  exists a, b, c, d. split; [reflexivity|].
  simpl. intros [H|[H|[H|[H|[]]]]]; subst; discriminate.
Qed.

(** Each opening replacement removes a prefix that holds no brace. *)
Lemma replace_fence_json_drops (t : jsstring) :
  exists d, t = d ++ replace_fence_json t /\ ~ In lbrace d.
Proof.
  unfold replace_fence_json.
  destruct (trimStart_suffix t) as (d0 & Ht & Hd0).
  destruct (trimStart t) as [|c r1] eqn:E; [exists []; auto|].
  destruct (N.eqb_spec c backtick) as [->|_]; [|exists []; auto].
  destruct (strip_ticks_suffix 2 r1) as (d1 & Hr1 & Hd1).
  destruct (trimStart_suffix (strip_ticks 2 r1)) as (d2 & Hr2 & Hd2).
  destruct (strip_json_word _) as [rest|] eqn:Ew; [|exists []; auto].
  apply strip_json_word_split in Ew as (a & b & c & d & Hw & Hnb).
  destruct (trimStart_suffix rest) as (d3 & Hr3 & Hd3).
  exists (d0 ++ [backtick] ++ d1 ++ d2 ++ [a; b; c; d] ++ d3). split.
  - rewrite Ht at 1. rewrite Hr1 at 1. rewrite Hr2 at 1. rewrite Hw at 1.
    rewrite Hr3 at 1. rewrite <- !app_assoc. reflexivity.
  - rewrite !in_app_iff. intros [H|[H|[H|[H|[H|H]]]]].
    + revert H. apply ws_not_brace; auto.
    + destruct H as [H|[]]; discriminate.
    + revert H. apply ticks_not_brace; [auto | discriminate].
    + revert H. apply ws_not_brace; auto.
    + auto.
    + revert H. apply ws_not_brace; auto.
Qed.

Lemma replace_fence_open_drops (t : jsstring) :
  exists d, t = d ++ replace_fence_open t /\ ~ In lbrace d.
Proof.
  unfold replace_fence_open.
  destruct (trimStart_suffix t) as (d0 & Ht & Hd0).
  destruct (trimStart t) as [|c r1] eqn:E; [exists []; auto|].
  destruct (N.eqb_spec c backtick) as [->|_]; [|exists []; auto].
  destruct (strip_ticks_suffix 2 r1) as (d1 & Hr1 & Hd1).
  destruct (trimStart_suffix (strip_ticks 2 r1)) as (d2 & Hr2 & Hd2).
  exists (d0 ++ [backtick] ++ d1 ++ d2). split.
  - rewrite Ht at 1. rewrite Hr1 at 1. rewrite Hr2 at 1.
    rewrite <- !app_assoc. reflexivity.
  - rewrite !in_app_iff. intros [H|[H|[H|H]]].
    + revert H. apply ws_not_brace; auto.
    + destruct H as [H|[]]; discriminate.
    + revert H. apply ticks_not_brace; [auto | discriminate].
    + revert H. apply ws_not_brace; auto.
Qed.

Lemma matches_fence_close_no_brace (s : jsstring) :
  matches_fence_close s = true -> ~ In rbrace s.
Proof.
  unfold matches_fence_close.
  destruct (trimStart_suffix s) as (d0 & Hs & Hd0).
  destruct (trimStart s) as [|c r1] eqn:E; [discriminate|].
  destruct (N.eqb_spec c backtick) as [->|_]; [|discriminate].
  rewrite andb_true_l.
  destruct (strip_ticks_suffix 2 r1) as (d1 & Hr1 & Hd1).
  destruct (trimStart_suffix (strip_ticks 2 r1)) as (d2 & Hr2 & Hd2).
  destruct (trimStart (strip_ticks 2 r1)); [|discriminate]. intros _.
  rewrite app_nil_r in Hr2. subst d2.
  rewrite Hs, Hr1. rewrite !in_app_iff.
  change (In rbrace (backtick :: d1 ++ strip_ticks 2 r1))
    with (backtick = rbrace \/ In rbrace (d1 ++ strip_ticks 2 r1)).
  rewrite in_app_iff. intros [H|[H|[H|H]]].
  - revert H. apply ws_not_brace; auto.
  - discriminate.
  - revert H. apply ticks_not_brace; [auto | discriminate].
  - revert H. apply ws_not_brace; auto.
Qed.

(** The closing replacement removes a suffix that holds no brace. *)
Lemma replace_fence_close_drops (t : jsstring) :
  exists d, t = replace_fence_close t ++ d /\ ~ In rbrace d.
Proof.
  induction t as [|c t (d & Ht & Hd)].
  - exists []. simpl. auto.
  - cbn [replace_fence_close].
    destruct (matches_fence_close (c :: t)) eqn:E.
    + exists (c :: t). split; [reflexivity|].
      apply matches_fence_close_no_brace, E.
    + exists d. simpl. split; [congruence | auto].
Qed.

Lemma trimStart_drops (t : jsstring) (c : N) :
  is_ws c = false -> exists d, t = d ++ trimStart t /\ ~ In c d.
Proof.
  intros Hc. destruct (trimStart_suffix t) as (d & Ht & Hd).
  exists d. split; [auto|]. apply ws_not_brace; auto.
Qed.

Lemma trimEnd_drops (t : jsstring) (c : N) :
  is_ws c = false -> exists d, t = trimEnd t ++ d /\ ~ In c d.
Proof.
  intros Hc. destruct (trimEnd_prefix t) as (d & Ht & Hd).
  exists d. split; [auto|]. apply ws_not_brace; auto.
Qed.

(** What is left of a text split at its first [c] after a prefix without
    [c] is dropped. *)
Lemma drop_before_first (c : N) (p rest d r : jsstring) :
  p ++ c :: rest = d ++ r -> ~ In c p -> ~ In c d ->
  exists p', r = p' ++ c :: rest /\ p = d ++ p'.
Proof.
  revert p; induction d as [|y d IH]; intros p Heq Hp Hd.
  - exists p. simpl in Heq. auto.
  - destruct p as [|x p]; simpl in Heq.
    + injection Heq as -> _. exfalso. apply Hd. left; reflexivity.
    + injection Heq as -> Heq.
      destruct (IH p Heq) as (p' & Hr & Hp').
      * intros H; apply Hp; right; exact H.
      * intros H; apply Hd; right; exact H.
      * exists p'. split; [auto | simpl; congruence].
Qed.

Lemma drop_after_last (c : N) (front s r d : jsstring) :
  front ++ c :: s = r ++ d -> ~ In c s -> ~ In c d ->
  exists s', r = front ++ c :: s' /\ s = s' ++ d.
Proof.
  intros Heq Hs Hd.
  assert (rev s ++ c :: rev front = rev d ++ rev r) as Hrev.
  { rewrite <- rev_app_distr, <- Heq, rev_app_distr. simpl.
    rewrite <- app_assoc. reflexivity. }
  apply drop_before_first in Hrev as (p' & Hr & Hp');
    [| rewrite <- in_rev; exact Hs | rewrite <- in_rev; exact Hd].
  exists (rev p'). split.
  - rewrite <- (rev_involutive r), Hr, rev_app_distr. simpl.
    rewrite rev_involutive, <- app_assoc. reflexivity.
  - rewrite <- (rev_involutive s), Hp', rev_app_distr, rev_involutive. reflexivity.
Qed.

Lemma first_occurrence_unique (c : N) (p q p' q' : jsstring) :
  p ++ c :: q = p' ++ c :: q' -> ~ In c p -> ~ In c p' -> p = p' /\ q = q'.
Proof.
  intros Heq Hp Hp'.
  destruct (drop_before_first c p q p' (c :: q') Heq Hp Hp') as (r & Hr & Hpr).
  destruct r as [|x r].
  - simpl in Hr. injection Hr as ->. rewrite app_nil_r in Hpr. auto.
  - simpl in Hr. injection Hr as <- _. exfalso. apply Hp. rewrite Hpr.
    apply in_elt.
Qed.

Lemma last_occurrence_unique (c : N) (p q p' q' : jsstring) :
  p ++ c :: q = p' ++ c :: q' -> ~ In c q -> ~ In c q' -> p = p' /\ q = q'.
Proof.
  intros Heq Hq Hq'.
  destruct (first_occurrence_unique c (rev q) (rev p) (rev q') (rev p')) as [H1 H2].
  - rewrite <- !rev_unit. rewrite <- !rev_app_distr.
    rewrite <- !app_assoc. simpl. congruence.
  - rewrite <- in_rev; exact Hq.
  - rewrite <- in_rev; exact Hq'.
  - split; [rewrite <- (rev_involutive p), H2 | rewrite <- (rev_involutive q), H1];
      apply rev_involutive.
Qed.

Section Embedded.

Variable mid : jsstring.

Lemma embeds_drop_prefix (t d r : jsstring) :
  embeds mid t -> t = d ++ r -> ~ In lbrace d -> embeds mid r.
Proof.
  intros (p & s & Ht & Hp & Hs) Hd Hnd. subst t. unfold object_text in Hd.
  simpl in Hd.
  destruct (drop_before_first _ _ _ _ _ Hd Hp Hnd) as (p' & Hr & Hpp).
  exists p', s. repeat split; auto.
  intros H; apply Hp; rewrite Hpp; apply in_or_app; right; exact H.
Qed.

Lemma embeds_drop_suffix (t d r : jsstring) :
  embeds mid t -> t = r ++ d -> ~ In rbrace d -> embeds mid r.
Proof.
  intros (p & s & Ht & Hp & Hs) Hd Hnd. subst t.
  assert ((p ++ lbrace :: mid) ++ rbrace :: s = r ++ d) as Heq.
  { rewrite <- Hd. unfold object_text. simpl. rewrite <- !app_assoc. reflexivity. }
  destruct (drop_after_last _ _ _ _ _ Heq Hs Hnd) as (s' & Hr & Hss).
  exists p, s'. repeat split; auto.
  - rewrite Hr. unfold object_text. simpl. rewrite <- !app_assoc. reflexivity.
  - intros H; apply Hs; rewrite Hss; apply in_or_app; left; exact H.
Qed.

Lemma embeds_strip_fences (text : jsstring) :
  embeds mid text -> embeds mid (strip_fences text).
Proof.
  intros H. unfold strip_fences, trim.
  destruct (trimStart_drops text lbrace eq_refl) as (d1 & E1 & N1).
  pose proof (embeds_drop_prefix _ _ _ H E1 N1) as H1.
  destruct (trimEnd_drops (trimStart text) rbrace eq_refl) as (d2 & E2 & N2).
  pose proof (embeds_drop_suffix _ _ _ H1 E2 N2) as H2.
  destruct (replace_fence_json_drops (trimEnd (trimStart text))) as (d3 & E3 & N3).
  pose proof (embeds_drop_prefix _ _ _ H2 E3 N3) as H3.
  destruct (replace_fence_open_drops
              (replace_fence_json (trimEnd (trimStart text)))) as (d4 & E4 & N4).
  pose proof (embeds_drop_prefix _ _ _ H3 E4 N4) as H4.
  destruct (replace_fence_close_drops
              (replace_fence_open
                 (replace_fence_json (trimEnd (trimStart text))))) as (d5 & E5 & N5).
  exact (embeds_drop_suffix _ _ _ H4 E5 N5).
Qed.

Lemma trim_object_text : trim (object_text mid) = object_text mid.
Proof.
  unfold trim, object_text. rewrite trimStart_keeps by reflexivity.
  change (lbrace :: mid ++ [rbrace]) with ((lbrace :: mid) ++ [rbrace]).
  apply trimEnd_keeps. reflexivity.
Qed.

Lemma embeds_sliced (t : jsstring) :
  embeds mid t ->
  has_brace_pair t = true /\
  slice t (indexOf t [lbrace]) (lastIndexOf t [rbrace] + 1) = object_text mid.
Proof.
  intros (p & s & Ht & Hp & Hs).
  assert (indexOf t [lbrace] = Z.of_nat (List.length p)) as Ha.
  { destruct (indexOf_unit lbrace t) as [(_ & Habs)|(p' & q' & Ht' & Hp' & Ha)].
    - exfalso. apply Habs. rewrite Ht. apply in_or_app. right. left. reflexivity.
    - rewrite Ha. rewrite Ht in Ht'. unfold object_text in Ht'. simpl in Ht'.
      destruct (first_occurrence_unique _ _ _ _ _ Ht' Hp Hp') as [-> _].
      reflexivity. }
  assert (lastIndexOf t [rbrace] = Z.of_nat (List.length p + List.length mid + 1)) as Hb.
  { assert (t = (p ++ lbrace :: mid) ++ rbrace :: s) as Ht2.
    { rewrite Ht. unfold object_text. simpl. rewrite <- !app_assoc. reflexivity. }
    destruct (lastIndexOf_unit rbrace t) as [(_ & Habs)|(p' & q' & Ht' & Hq' & Hb)].
    - exfalso. apply Habs. rewrite Ht2. apply in_elt.
    - rewrite Hb. rewrite Ht2 in Ht'.
      destruct (last_occurrence_unique _ _ _ _ _ Ht' Hs Hq') as [<- _].
      rewrite length_app. simpl. f_equal. lia. }
  split.
  - unfold has_brace_pair. rewrite Ha, Hb.
    destruct (Z.eqb_spec (Z.of_nat (List.length p)) (-1)); [lia|].
    destruct (Z.eqb_spec (Z.of_nat (List.length p + List.length mid + 1)) (-1)); [lia|].
    destruct (Z.gtb_spec (Z.of_nat (List.length p + List.length mid + 1))
                         (Z.of_nat (List.length p))); [reflexivity | lia].
  - rewrite Ha, Hb, Ht.
    replace (Z.of_nat (List.length p + List.length mid + 1) + 1)
      with (Z.of_nat (List.length p) + Z.of_nat (List.length (object_text mid))).
    + apply slice_middle.
    + unfold object_text. simpl. rewrite length_app. simpl. lia.
Qed.

Lemma cleanJSON_embedded (text : jsstring) : embeds mid text -> cleanJSON text = object_text mid.
Proof.
  intros H. apply embeds_strip_fences, embeds_sliced in H as [Hpair Hslice].
  unfold cleanJSON. unfold has_brace_pair in Hpair. rewrite Hpair, Hslice.
  apply trim_object_text.
Qed.

End Embedded.

(** C4 (amended): an object text, from its opening brace to its closing
    brace, embedded after a text that holds no opening brace and before a
    text that holds no closing brace (code fences and white space included)
    is recovered exactly. When the text, once its fences are stripped, has
    no opening brace followed by a closing brace, nothing fails: the
    stripped text is returned, trimmed. *)
Theorem cleanJSON_extraction :
  (forall pre mid suf : jsstring,
      ~ In lbrace pre -> ~ In rbrace suf ->
      cleanJSON (pre ++ object_text mid ++ suf) = object_text mid)
  /\ (forall text : jsstring,
         has_brace_pair (strip_fences text) = false ->
         cleanJSON text = trim (strip_fences text)).
Proof.
  split.
  - intros pre mid suf Hpre Hsuf. apply cleanJSON_embedded.
    exists pre, suf. auto.
  - intros text H. unfold cleanJSON. unfold has_brace_pair in H.
    rewrite H. reflexivity.
Qed.

(* =================================================================== *)
(** * Conversion to a string *)
(* =================================================================== *)

(** Induction on a value, with the property at hand for the items of an
    array and for the values of the fields of an object. *)
Lemma value_nested_ind (P : value -> Prop) :
  P VUndefined -> P VNull -> (forall b, P (VBool b)) -> (forall n, P (VNum n)) ->
  (forall s, P (VStr s)) ->
  (forall items, Forall P items -> P (VArr items)) ->
  (forall fields, Forall (fun kv => P kv.2) fields -> P (VObj fields)) ->
  forall v, P v.
Proof.
  intros Hu Hn Hb Hnum Hs Harr Hobj.
  fix IH 1. intros [| |b|n|s|items|fields].
  - exact Hu.
  - exact Hn.
  - apply Hb.
  - apply Hnum.
  - apply Hs.
  - apply Harr. induction items as [|x items IHitems]; constructor;
      [apply IH | exact IHitems].
  - apply Hobj. induction fields as [|[k x] fields IHfields]; constructor;
      [apply IH | exact IHfields].
Qed.

Lemma bind_Return {A B} (a : A) (k : A -> result B) : (Return a ≫= k) = k a.
Proof. reflexivity. Qed.

Lemma bind_Throw {A B} (e : js_error) (k : A -> result B) : (Throw e ≫= k) = Throw e.
Proof. reflexivity. Qed.

(** [String(v)] returns exactly on the values that can be converted, and
    throws the one [TypeError] on the others. *)
Lemma ToString_outcome (v : value) :
  match ToString v with
  | Return _ => stringifiable v = true
  | Throw e => e = TypeError_primitive /\ stringifiable v = false
  end.
Proof.
  induction v as [| |b|n|s|items IH|fields _] using value_nested_ind;
    try reflexivity.
  - destruct b; reflexivity.
  - cbn [ToString stringifiable].
    induction IH as [|x items Hx _ IHitems]; [reflexivity|].
    cbn [mapM forallb].
    assert (match (match x with
                   | VUndefined | VNull => Return []
                   | _ => ToString x
                   end) with
            | Return _ => stringifiable x = true
            | Throw e => e = TypeError_primitive /\ stringifiable x = false
            end) as Hx'.
    { destruct x; try exact Hx; reflexivity. }
    destruct (match x with VUndefined | VNull => Return [] | _ => ToString x end)
      as [sx|e].
    + rewrite Hx'. cbn [andb]. rewrite bind_Return.
      destruct (mapM _ items) as [parts|e]; [exact IHitems|].
      rewrite bind_Throw, bind_Throw. rewrite bind_Throw in IHitems. exact IHitems.
    + destruct Hx' as [-> ->]. split; reflexivity.
  - cbn [ToString stringifiable]. destruct (hasOwn fields _); [split|]; reflexivity.
Qed.

Lemma ToString_returns (v : value) :
  stringifiable v = true -> exists s, ToString v = Return s.
Proof.
  intros H. pose proof (ToString_outcome v) as Ho.
  destruct (ToString v) as [s|e]; [eauto|].
  destruct Ho as [_ Ho]. congruence.
Qed.

Lemma ToString_throws (v : value) :
  stringifiable v = false -> ToString v = Throw TypeError_primitive.
Proof.
  intros H. pose proof (ToString_outcome v) as Ho.
  destruct (ToString v) as [s|e]; [congruence|].
  destruct Ho as [-> _]. reflexivity.
Qed.

Lemma ToString_stringifiable (v : value) (s : jsstring) :
  ToString v = Return s -> stringifiable v = true.
Proof. intros H. pose proof (ToString_outcome v) as Ho. rewrite H in Ho. exact Ho. Qed.

Lemma toString_free_stringifiable (v : value) :
  toString_free v = true -> stringifiable v = true.
Proof.
  induction v as [| |b|n|s|items IH|fields _] using value_nested_ind;
    try reflexivity.
  - cbn [toString_free stringifiable].
    induction IH as [|x items Hx _ IHitems]; [reflexivity|].
    cbn [forallb]. rewrite !andb_true_iff. intros [H1 H2]. auto.
  - cbn [toString_free stringifiable]. rewrite andb_true_iff. intros [H _]. exact H.
Qed.

Lemma toString_free_assoc (fields : list (jsstring * value)) (k : jsstring) :
  forallb (fun kv => toString_free kv.2) fields = true ->
  toString_free (assoc k fields) = true.
Proof.
  induction fields as [|[k' x] fields IH]; cbn [forallb assoc]; [reflexivity|].
  rewrite andb_true_iff. intros [Hx Hrest].
  destruct (str_eqb k k'); [exact Hx | exact (IH Hrest)].
Qed.

Lemma toString_free_get_opt (v : value) (prop : jsstring) :
  toString_free v = true -> toString_free (get_opt v prop) = true.
Proof.
  destruct v; try reflexivity. cbn [toString_free get_opt].
  rewrite andb_true_iff. intros [_ H]. apply toString_free_assoc, H.
Qed.

Lemma toString_free_or_else (a b : value) :
  toString_free a = true -> toString_free b = true -> toString_free (or_else a b) = true.
Proof. intros Ha Hb. unfold or_else. destruct (truthy a); assumption. Qed.

Lemma toString_free_nullish_else (a b : value) :
  toString_free a = true -> toString_free b = true ->
  toString_free (nullish_else a b) = true.
Proof. intros Ha Hb. destruct a; assumption. Qed.

Lemma toString_free_items (v x : value) :
  toString_free v = true -> In x (items_of v) -> toString_free x = true.
Proof.
  destruct v; cbn [items_of]; try (intros _ []).
  cbn [toString_free]. rewrite forallb_forall. intros H Hx. exact (H x Hx).
Qed.

(** The conversion of a field of a body or of an entry, on a value free of
    [toString] properties. *)
Lemma ToString_field (v : value) (prop fallback : jsstring) :
  toString_free v = true ->
  exists s, ToString (or_else (get_opt v prop) (VStr fallback)) = Return s.
Proof.
  intros H. apply ToString_returns, toString_free_stringifiable.
  apply toString_free_or_else; [apply toString_free_get_opt, H | reflexivity].
Qed.

(* =================================================================== *)
(** * Properties of [clampInt] and of the scoring *)
(* =================================================================== *)

Lemma Math_round_integer (z : Z) : Math_round (inject_Z z) = z.
Proof.
  unfold Math_round, Qfloor, Qplus, inject_Z. simpl.
  rewrite Z.mul_1_r. symmetry. apply (Z.div_unique _ 2 z 1); lia.
Qed.

Lemma clampInt_finite (q : Q) (lo hi : Z) :
  clampInt (VNum (Finite q)) lo hi = Return (Z.max lo (Z.min hi (Math_round q))).
Proof. reflexivity. Qed.

(** [clampInt] returns exactly on the values it can take, with a result
    within the bounds, and throws the [TypeError] of the conversion on the
    others. *)
Lemma clampInt_outcome (n : value) (lo hi : Z) :
  match clampInt n lo hi with
  | Return z => clampable n = true /\ (lo <= hi -> lo <= z <= hi)
  | Throw e => e = TypeError_primitive /\ clampable n = false
  end.
Proof.
  assert (forall v, Number_isFinite v = false ->
            match (parseInt v ≫= fun x => mret (match x with
                                               | Finite q => Z.max lo (Z.min hi (Math_round q))
                                               | _ => lo
                                               end)) with
            | Return z => clampable v = true /\ (lo <= hi -> lo <= z <= hi)
            | Throw e => e = TypeError_primitive /\ clampable v = false
            end) as Hparse.
  { intros v Hv. unfold parseInt, clampable. rewrite Hv. cbn [orb].
    pose proof (ToString_outcome v) as Ho.
    destruct (ToString v) as [s|e].
    - rewrite !bind_Return. split; [exact Ho|].
      intros Hle. destruct (parseInt_string s); cbn; lia.
    - rewrite !bind_Throw. exact Ho. }
  unfold clampInt.
  destruct n as [| |b|[q| |neg]|s|items|fields];
    try (apply Hparse; reflexivity).
  rewrite bind_Return. split; [reflexivity|]. cbn. lia.
Qed.

Lemma clampInt_bounds (n : value) (lo hi z : Z) :
  lo <= hi -> clampInt n lo hi = Return z -> lo <= z <= hi.
Proof.
  intros Hle H. pose proof (clampInt_outcome n lo hi) as Ho. rewrite H in Ho.
  apply Ho, Hle.
Qed.

Lemma clampInt_returns (n : value) (lo hi : Z) :
  clampable n = true -> exists z, clampInt n lo hi = Return z.
Proof.
  intros H. pose proof (clampInt_outcome n lo hi) as Ho.
  destruct (clampInt n lo hi) as [z|e]; [eauto|].
  destruct Ho as [_ Ho]. congruence.
Qed.

Lemma clampInt_throws (n : value) (lo hi : Z) :
  clampable n = false -> clampInt n lo hi = Throw TypeError_primitive.
Proof.
  intros H. pose proof (clampInt_outcome n lo hi) as Ho.
  destruct (clampInt n lo hi) as [z|e]; [destruct Ho; congruence|].
  destruct Ho as [-> _]. reflexivity.
Qed.

(** C9 (as the code behaves): on every input that is a finite number or can
    be converted to a string, [clampInt] returns an integer of [1,9], and
    clamping that result again gives it back; on any other input, that is,
    on an object with an own [toString] property, as
    [{"toString": 1}], or on an array that holds one, it returns nothing and
    throws a [TypeError]. *)
Theorem clampInt_range_unless_unconvertible (n : value) :
  (if clampable n
   then exists z, clampInt n 1 9 = Return z
                  /\ 1 <= z <= 9
                  /\ clampInt (VNum (Finite (inject_Z z))) 1 9 = Return z
   else clampInt n 1 9 = Throw TypeError_primitive)
  /\ clampInt (VObj [(js "toString", VNum (Finite 1))]) 1 9 = Throw TypeError_primitive
  /\ clampInt (VArr [VObj [(js "toString", VNull)]]) 1 9 = Throw TypeError_primitive.
Proof.
  split; [|split; reflexivity].
  destruct (clampable n) eqn:E; [|apply clampInt_throws, E].
  destruct (clampInt_returns n 1 9 E) as (z & Hz).
  pose proof (clampInt_bounds n 1 9 z ltac:(lia) Hz) as Hrange.
  exists z. split; [exact Hz|]. split; [exact Hrange|].
  rewrite clampInt_finite, Math_round_integer. f_equal. lia.
Qed.

Lemma Map_of_foldr {V} (entries : list (jsstring * V)) :
  Map_of entries = fold_right (fun kv m => <[kv.1 := kv.2]> m) ∅ (rev entries).
Proof. unfold Map_of. rewrite <- fold_left_rev_right. reflexivity. Qed.

(** A [Map] built from entries answers with the last entry of the key. *)
Lemma Map_of_lookup {V} (entries : list (jsstring * V)) (k : jsstring) :
  Map_of entries !! k = snd <$> List.find (fun kv => str_eqb kv.1 k) (rev entries).
Proof.
  rewrite Map_of_foldr. induction (rev entries) as [|[k' v] l IH]; simpl.
  - apply lookup_empty.
  - destruct (str_eqb k' k) eqn:E.
    + apply str_eqb_eq in E as ->. apply lookup_insert_eq.
    + apply str_eqb_neq in E. rewrite lookup_insert_ne by exact E. exact IH.
Qed.

Lemma level_to_0to100_level (z : Z) :
  1 <= z <= 9 -> In (level_to_0to100 (inject_Z z)) level_scores.
Proof.
  intros Hz.
  assert (z = 1 \/ z = 2 \/ z = 3 \/ z = 4 \/ z = 5 \/ z = 6 \/ z = 7 \/ z = 8 \/ z = 9)
    as Hcases by lia.
  destruct Hcases as [->|[->|[->|[->|[->|[->|[->|[->| ->]]]]]]]]; vm_compute; tauto.
Qed.

(** Whatever it is given, [score1to9_to_0to100] returns one of the nine
    scores of the levels when it returns. *)
Lemma score1to9_to_0to100_level (v : value) (z : Z) :
  score1to9_to_0to100 v = Return z -> In z level_scores.
Proof.
  unfold score1to9_to_0to100. destruct (clampInt v 1 9) as [s|e] eqn:E; [|discriminate].
  rewrite bind_Return. intros [= <-].
  apply (level_to_0to100_level s), (clampInt_bounds v 1 9 s ltac:(lia) E).
Qed.

Lemma score1to9_to_0to100_number (n : number) :
  exists z, score1to9_to_0to100 (VNum n) = Return z /\ In z level_scores.
Proof.
  unfold score1to9_to_0to100.
  destruct (clampInt_returns (VNum n) 1 9) as (s & Hs).
  { destruct n; reflexivity. }
  rewrite Hs, bind_Return. eexists. split; [reflexivity|].
  apply (level_to_0to100_level s), (clampInt_bounds (VNum n) 1 9 s ltac:(lia) Hs).
Qed.

(** [weightedSkillsScore0to100] always returns, and what it returns is one
    of the nine scores of the levels. *)
Lemma weightedSkillsScore0to100_level
    (skillScores : list SkillScore) (skills : list SkillDefinition) :
  exists z, weightedSkillsScore0to100 skillScores skills = Return z
            /\ In z level_scores.
Proof.
  unfold weightedSkillsScore0to100.
  destruct (fold_left _ skillScores (0%float, 0%float)) as [totalW weighted].
  destruct (totalW <=? 0)%float.
  - exists 0. split; [reflexivity | left; reflexivity].
  - apply score1to9_to_0to100_number.
Qed.

(** C1 (as the code behaves): the weighted average is not mapped as it is.
    [score1to9_to_0to100] first rounds it to a whole level of [1,9], so that
    the result is always one of 0, 13, 25, 38, 50, 63, 75, 88 and 100. With
    the weights 1 and 1 and the scores 1 and 2 the average is 1.5 and the
    result is 13, where round(((1.5 − 1) / 8) × 100) is 6, which is also
    what [scoreTo100] of the assessment module gives for that average. *)
Theorem weightedSkillsScore0to100_maps_rounded_level :
  (forall skillScores skills,
      exists z, weightedSkillsScore0to100 skillScores skills = Return z
                /\ In z level_scores)
  /\ (exists avg,
        number_of_double ((1 * double_of_Z 1 + 1 * double_of_Z 2) / (1 + 1))%float
        = Finite avg /\ (avg == 3 # 2)%Q)
  /\ weightedSkillsScore0to100 example_scores (skills example_matrix) = Return 13
  /\ level_to_0to100 (3 # 2) = 6
  /\ Assessment.scoreTo100 (Finite (3 # 2)) = Finite 6.
Proof.
  split; [exact weightedSkillsScore0to100_level|].
  split; [eexists; split; [vm_compute; reflexivity | reflexivity]|].
  repeat split; vm_compute; reflexivity.
Qed.

(* =================================================================== *)
(** * Properties of [compareMulti] *)
(* =================================================================== *)

Section StableSort.

Context {A : Type} (key : A -> Z).

(** The comparator [(a, b) => key(b) − key(a)]. *)
#[local] Abbreviation by_key_desc := (fun a b : A => key b - key a).

Lemma sort_insert_perm (x : A) (l : list A) :
  Permutation (sort_insert by_key_desc x l) (x :: l).
Proof.
  induction l as [|y l IH]; simpl; [reflexivity|].
  destruct (by_key_desc x y <=? 0); [reflexivity|].
  rewrite IH. apply perm_swap.
Qed.

Lemma Array_sort_perm (l : list A) : Permutation (Array_sort by_key_desc l) l.
Proof.
  induction l as [|x l IH]; simpl; [reflexivity|].
  rewrite sort_insert_perm, IH. reflexivity.
Qed.

Lemma sort_insert_sorted (x : A) (l : list A) :
  StronglySorted (fun a b => key a >= key b) l ->
  StronglySorted (fun a b => key a >= key b) (sort_insert by_key_desc x l).
Proof.
  induction 1 as [|y l Hs IH Hy]; simpl.
  - constructor; constructor.
  - cbv beta. destruct (Z.leb_spec (key y - key x) 0) as [Hle|Hgt].
    + constructor; [constructor; assumption|].
      constructor; [lia|].
      eapply List.Forall_impl; [|exact Hy]. simpl. intros z Hz. lia.
    + constructor; [exact IH|].
      eapply Permutation_Forall; [symmetry; apply sort_insert_perm|].
      constructor; [lia | exact Hy].
Qed.

Lemma Array_sort_sorted (l : list A) :
  StronglySorted (fun a b => key a >= key b) (Array_sort by_key_desc l).
Proof.
  induction l as [|x l IH]; simpl; [constructor|].
  apply sort_insert_sorted, IH.
Qed.

(** Stability: among the elements of one key, insertion puts the new
    element first. *)
Lemma sort_insert_stable (v : Z) (x : A) (l : list A) :
  List.filter (fun a => key a =? v) (sort_insert by_key_desc x l)
  = List.filter (fun a => key a =? v) (x :: l).
Proof.
  induction l as [|y l IH]; [reflexivity|].
  cbn [sort_insert]. cbv beta.
  destruct (Z.leb_spec (key y - key x) 0) as [Hle|Hgt]; [reflexivity|].
  cbn [List.filter] in *. rewrite IH.
  destruct (Z.eqb_spec (key x) v) as [Hx|Hx]; [|reflexivity].
  destruct (Z.eqb_spec (key y) v) as [Hy|Hy]; [lia | reflexivity].
Qed.

Lemma Array_sort_stable (v : Z) (l : list A) :
  List.filter (fun a => key a =? v) (Array_sort by_key_desc l)
  = List.filter (fun a => key a =? v) l.
Proof.
  induction l as [|x l IH]; [reflexivity|].
  cbn [Array_sort]. rewrite sort_insert_stable.
  cbn [List.filter]. rewrite IH. reflexivity.
Qed.

End StableSort.

Lemma Math_min_least (x : Z) (l : list Z) : least_of (Math_min (x :: l)) (x :: l).
Proof.
  unfold Math_min. revert x; induction l as [|y l IH]; intros x; simpl.
  - split; [left; reflexivity | constructor; [lia | constructor]].
  - destruct (IH (Z.min x y)) as [Hin Hall]. split.
    + destruct Hin as [Hm|Hin]; [|right; right; exact Hin].
      rewrite <- Hm. destruct (Z.min_spec x y) as [[_ ->]|[_ ->]];
        [left | right; left]; reflexivity.
    + inversion Hall as [|? ? Hm Hl]; subst.
      constructor; [lia|]. constructor; [lia | exact Hl].
Qed.

Lemma Math_max_greatest (x : Z) (l : list Z) : greatest_of (Math_max (x :: l)) (x :: l).
Proof.
  unfold Math_max. revert x; induction l as [|y l IH]; intros x; simpl.
  - split; [left; reflexivity | constructor; [lia | constructor]].
  - destruct (IH (Z.max x y)) as [Hin Hall]. split.
    + destruct Hin as [Hm|Hin]; [|right; right; exact Hin].
      rewrite <- Hm. destruct (Z.max_spec x y) as [[_ ->]|[_ ->]];
        [right; left | left]; reflexivity.
    + inversion Hall as [|? ? Hm Hl]; subst.
      constructor; [lia|]. constructor; [lia | exact Hl].
Qed.

Lemma score_of_scored_by (skill_name : jsstring) (r : Assessed) :
  scored_by skill_name r (score_of skill_name r).
Proof.
  unfold scored_by, score_of.
  induction (skill_scores (norm r)) as [|x l IH]; cbn [List.find].
  - right. split; [constructor | reflexivity].
  - destruct (str_eqb (skill x) skill_name) eqn:E.
    + left. exists [], x, l. split; [reflexivity|]. split; [apply str_eqb_eq, E|].
      split; [constructor | reflexivity].
    + apply str_eqb_neq in E.
      destruct IH as [(before & e & after & Hl & He & Hb & Hz)|[Hall Hz]].
      * left. exists (x :: before), e, after.
        split; [cbn [app]; congruence|]. split; [exact He|].
        split; [constructor; [exact E | exact Hb] | exact Hz].
      * right. split; [constructor; [exact E | exact Hall] | exact Hz].
Qed.

Lemma row_of_well_formed (r0 : Assessed) (results : list Assessed) (skill_name : jsstring) :
  well_formed_row (r0 :: results) (row_of (r0 :: results) skill_name).
Proof.
  unfold well_formed_row, row_of. cbn [scores min max spread row_skill].
  split; [|split; [|split]].
  - generalize (r0 :: results) as l. induction l as [|r l IH]; constructor;
      [apply score_of_scored_by | exact IH].
  - apply Math_min_least.
  - apply Math_max_greatest.
  - reflexivity.
Qed.

Lemma unsorted_rows_well_formed (results : list Assessed) :
  Forall (well_formed_row results) (unsorted_rows results).
Proof.
  unfold unsorted_rows. destruct results as [|r0 results]; [constructor|].
  apply Forall_forall. intros row Hin. apply list_elem_of_In in Hin.
  apply in_map_iff in Hin as (nm & <- & _). apply row_of_well_formed.
Qed.

(** C7: the rows are those of the skills of the first result, one per skill;
    each holds, for every assessor in order, the [score_1_to_9] of the
    assessor's first entry for the skill, or 1 for an assessor without one,
    with the least and the greatest of these scores and
    [spread = max − min]; the rows are sorted by descending spread; the rows
    of one spread keep the order of the skills; and [biggest_disagreements]
    is the first five rows. *)
Theorem compareMulti_sorted_stable (results : list Assessed) :
  let out := compareMulti results in
  List.map row_skill (unsorted_rows results) = first_result_skills results
  /\ Permutation (rows out) (unsorted_rows results)
  /\ Forall (well_formed_row results) (rows out)
  /\ StronglySorted (fun a b => spread a >= spread b) (rows out)
  /\ (forall v, rows_of_spread v (rows out) = rows_of_spread v (unsorted_rows results))
  /\ biggest_disagreements out = firstn 5 (rows out).
Proof.
  cbn zeta. unfold compareMulti. cbn [rows biggest_disagreements].
  split; [|split; [|split; [|split; [|split]]]].
  - unfold unsorted_rows, first_result_skills. rewrite List.map_map.
    destruct results; [reflexivity|]. apply List.map_id.
  - apply (Array_sort_perm spread).
  - eapply Permutation_Forall; [symmetry; apply (Array_sort_perm spread)|].
    apply unsorted_rows_well_formed.
  - apply (Array_sort_sorted spread).
  - intros v. apply (Array_sort_stable spread).
  - reflexivity.
Qed.

(* =================================================================== *)
(** * Properties of [normalizeAssessorResult] *)
(* =================================================================== *)

Lemma get_readable (v : value) (prop : jsstring) :
  nullish v = false -> get v prop = Return (get_opt v prop).
Proof. destruct v; simpl; try discriminate; reflexivity. Qed.

Lemma get_nullish (v : value) (prop : jsstring) :
  nullish v = true -> exists e, get v prop = Throw e.
Proof. destruct v; simpl; try discriminate; eauto. Qed.

Lemma get_Return (v x : value) (prop : jsstring) :
  get v prop = Return x -> nullish v = false /\ x = get_opt v prop.
Proof. destruct v; simpl; intros [= <-]; split; reflexivity. Qed.

Lemma truthy_not_nullish (v : value) : truthy v = true -> nullish v = false.
Proof. destruct v; simpl; try discriminate; reflexivity. Qed.

Lemma mapM_Return {A B} (f : A -> result B) (g : A -> B) (l : list A) :
  Forall (fun x => f x = Return (g x)) l -> mapM f l = Return (List.map g l).
Proof.
  induction 1 as [|x l Hx _ IH]; [reflexivity|].
  cbn [mapM List.map]. rewrite Hx, bind_Return, IH. reflexivity.
Qed.

Lemma mapM_Throw {A B} (f : A -> result B) (l : list A) :
  Exists (fun x => exists e, f x = Throw e) l -> exists e, mapM f l = Throw e.
Proof.
  induction 1 as [x l [e Hx]|x l _ [e IH]]; cbn [mapM].
  - rewrite Hx. eauto.
  - destruct (f x); [rewrite bind_Return, IH|]; eauto.
Qed.

Lemma mapM_inv {A B} (f : A -> result B) (l : list A) (ys : list B) :
  mapM f l = Return ys -> Forall2 (fun x y => f x = Return y) l ys.
Proof.
  revert ys; induction l as [|x l IH]; intros ys; cbn [mapM].
  - intros [= <-]. constructor.
  - destruct (f x) as [y|e] eqn:Hx; [|discriminate]. rewrite bind_Return.
    destruct (mapM f l) as [ys'|e]; [|discriminate]. rewrite bind_Return.
    intros [= <-]. constructor; [exact Hx | apply IH; reflexivity].
Qed.

Lemma mapM_returns {A B} (f : A -> result B) (l : list A) :
  Forall (fun x => exists y, f x = Return y) l -> exists ys, mapM f l = Return ys.
Proof.
  induction 1 as [|x l [y Hx] _ [ys IH]]; [exists []; reflexivity|].
  cbn [mapM]. rewrite Hx, bind_Return, IH, bind_Return. eauto.
Qed.

Lemma array_prefix_length (n : nat) (v : value) : (List.length (array_prefix n v) <= n)%nat.
Proof.
  unfold array_prefix. destruct (isArray v); simpl; [|lia].
  rewrite length_take. lia.
Qed.

(** What an entry built from the assessor's own entry holds. *)
Lemma entry_from_inv (skill_name stanceLabel : jsstring) (x : value) (e : SkillScore) :
  entry_from skill_name stanceLabel x = Return e ->
  nullish x = false
  /\ skill e = skill_name
  /\ entry_score x = Return (score_1_to_9 e)
  /\ entry_lists_bounded e.
Proof.
  unfold entry_from, entry_score. destruct (nullish x) eqn:Hx.
  { destruct (get_nullish x (js "score_1_to_9") Hx) as [e' ->]. discriminate. }
  rewrite !(get_readable x) by exact Hx. rewrite !bind_Return.
  destruct (clampInt _ 1 9) as [score|e'] eqn:Hscore; [|discriminate].
  rewrite !bind_Return.
  destruct (ToString _) as [why|e']; [|discriminate]. rewrite !bind_Return.
  destruct (ToString _) as [missing|e']; [|discriminate]. rewrite !bind_Return.
  intros [= <-]. cbn [skill score_1_to_9].
  split; [reflexivity|]. split; [reflexivity|]. split; [reflexivity|].
  unfold entry_lists_bounded. cbn [evidence_bullets risks followups].
  repeat split; apply array_prefix_length.
Qed.

Lemma entry_from_returns (skill_name stanceLabel : jsstring) (x : value) :
  nullish x = false -> toString_free x = true ->
  exists e, entry_from skill_name stanceLabel x = Return e.
Proof.
  intros Hx Hfree. unfold entry_from.
  rewrite !(get_readable x) by exact Hx. rewrite !bind_Return.
  destruct (clampInt_returns
              (nullish_else (get_opt x (js "score_1_to_9")) (get_opt x (js "score"))) 1 9)
    as (score & ->).
  { unfold clampable. apply orb_true_iff. right. apply toString_free_stringifiable.
    apply toString_free_nullish_else; apply toString_free_get_opt, Hfree. }
  rewrite !bind_Return.
  destruct (ToString_field x (js "why_this_score") [] Hfree) as (why & ->).
  rewrite !bind_Return.
  destruct (ToString_field x (js "what_was_missing_for_next_level") [] Hfree)
    as (missing & ->).
  rewrite !bind_Return. eauto.
Qed.

Lemma normalize_skill_inv
    (map : gmap jsstring value) (stanceLabel skill_name : jsstring) (e : SkillScore) :
  normalize_skill map stanceLabel skill_name = Return e ->
  skill e = skill_name /\ score_in_range e /\ entry_lists_bounded e.
Proof.
  unfold normalize_skill.
  assert (skill (default_entry skill_name stanceLabel) = skill_name
          /\ score_in_range (default_entry skill_name stanceLabel)
          /\ entry_lists_bounded (default_entry skill_name stanceLabel)) as Hdef.
  { unfold score_in_range, entry_lists_bounded. simpl. repeat split; lia. }
  destruct (map !! skill_name) as [x|]; [|intros [= <-]; exact Hdef].
  destruct (truthy x); [|intros [= <-]; exact Hdef].
  intros He. destruct (entry_from_inv _ _ _ _ He) as (_ & Hsk & Hscore & Hlists).
  split; [exact Hsk|]. split; [|exact Hlists].
  apply (clampInt_bounds _ 1 9 _ ltac:(lia) Hscore).
Qed.

Lemma keyed_inv (x : value) (kv : jsstring * value) :
  keyed x = Return kv -> nullish x = false /\ kv.2 = x /\ entry_key x = Return kv.1.
Proof.
  unfold keyed, entry_key. destruct (nullish x) eqn:Hx.
  { destruct (get_nullish x (js "skill") Hx) as [e ->]. discriminate. }
  rewrite (get_readable x) by exact Hx. rewrite bind_Return.
  destruct (ToString _) as [key|e]; [|discriminate]. rewrite !bind_Return.
  intros [= <-]. repeat split.
Qed.

Lemma keyed_returns (x : value) :
  nullish x = false -> toString_free x = true -> exists kv, keyed x = Return kv.
Proof.
  intros Hx Hfree. unfold keyed. rewrite (get_readable x) by exact Hx.
  rewrite bind_Return. destruct (ToString_field x (js "skill") [] Hfree) as (key & ->).
  rewrite bind_Return. eauto.
Qed.

(** What the normalizer has computed when it returns. *)
Lemma normalizeAssessorResult_inv
    (m : Matrix) (raw : value) (stanceLabel : jsstring) (r : AssessmentResult) :
  normalizeAssessorResult m raw stanceLabel = Return r ->
  nullish raw = false
  /\ (exists entries,
         mapM keyed (incoming_of raw) = Return entries
         /\ mapM (normalize_skill (Map_of entries) stanceLabel) (List.map name (skills m))
            = Return (skill_scores r))
  /\ 1 <= exercise_score_1_to_9 r <= 9
  /\ (List.length (exercise_evidence_bullets r) <= 3)%nat
  /\ (List.length (summary r) <= 6)%nat.
Proof.
  unfold normalizeAssessorResult. destruct (nullish raw) eqn:Hraw.
  { destruct (get_nullish raw (js "skill_scores") Hraw) as [e ->]. discriminate. }
  rewrite !(get_readable raw) by exact Hraw. rewrite !bind_Return.
  fold (incoming_of raw).
  destruct (mapM keyed (incoming_of raw)) as [entries|e]; [|discriminate].
  rewrite !bind_Return.
  destruct (mapM (normalize_skill _ _) _) as [es|e] eqn:Hes; [|discriminate].
  rewrite !bind_Return.
  destruct (ToString _) as [rec|e]; [|discriminate]. rewrite !bind_Return.
  destruct (clampInt _ 1 9) as [ex|e] eqn:Hex; [|discriminate]. rewrite !bind_Return.
  destruct (ToString _) as [ex_why|e]; [|discriminate]. rewrite !bind_Return.
  destruct (ToString _) as [ex_missing|e]; [|discriminate]. rewrite !bind_Return.
  intros [= <-]. cbn [skill_scores exercise_score_1_to_9 exercise_evidence_bullets summary].
  split; [reflexivity|]. split; [exists entries; split; [reflexivity | exact Hes]|].
  split; [apply (clampInt_bounds _ 1 9 _ ltac:(lia) Hex)|].
  split; apply array_prefix_length.
Qed.

(** Whenever the normalizer returns, its result has one entry per skill of
    the matrix, in the order of the matrix, and every score in [1,9]. *)
Lemma normalizeAssessorResult_complete
    (m : Matrix) (raw : value) (stanceLabel : jsstring) (r : AssessmentResult) :
  normalizeAssessorResult m raw stanceLabel = Return r ->
  List.map skill (skill_scores r) = List.map name (skills m)
  /\ Forall score_in_range (skill_scores r)
  /\ 1 <= exercise_score_1_to_9 r <= 9.
Proof.
  intros Hr.
  destruct (normalizeAssessorResult_inv _ _ _ _ Hr) as (_ & (entries & _ & Hes) & Hex & _).
  apply mapM_inv in Hes. split; [|split; [|exact Hex]].
  - induction Hes as [|nm e names es He _ IH]; [reflexivity|].
    cbn [List.map]. rewrite IH. f_equal. apply (normalize_skill_inv _ _ _ _ He).
  - induction Hes as [|nm e names es He _ IH]; constructor; [|exact IH].
    apply (normalize_skill_inv _ _ _ _ He).
Qed.

Lemma toString_free_incoming (raw x : value) :
  toString_free raw = true -> In x (incoming_of raw) -> toString_free x = true.
Proof.
  intros Hfree. unfold incoming_of.
  destruct (isArray _); [|intros []].
  apply toString_free_items, toString_free_get_opt, Hfree.
Qed.

Lemma Map_of_In {V} (entries : list (jsstring * V)) (k : jsstring) (x : V) :
  Map_of entries !! k = Some x -> In (k, x) entries.
Proof.
  rewrite Map_of_lookup.
  destruct (List.find _ (rev entries)) as [[k' x']|] eqn:E; [|discriminate].
  apply find_some in E as [Hin Hk]. apply str_eqb_eq in Hk. cbn in Hk. subst k'.
  intros [= <-]. rewrite in_rev. exact Hin.
Qed.

(** The normalizer returns on every raw output that can be read and holds
    no object with an own [toString]. *)
Lemma normalizeAssessorResult_returns (m : Matrix) (raw : value) (stanceLabel : jsstring) :
  readable raw = true -> toString_free raw = true ->
  exists r, normalizeAssessorResult m raw stanceLabel = Return r.
Proof.
  unfold readable. rewrite andb_true_iff, negb_true_iff, forallb_forall.
  intros [Hraw Hall] Hfree. unfold normalizeAssessorResult.
  rewrite !(get_readable raw) by exact Hraw. rewrite !bind_Return.
  fold (incoming_of raw).
  destruct (mapM_returns keyed (incoming_of raw)) as (entries & Hentries).
  { apply List.Forall_forall. intros x Hx. apply keyed_returns.
    - apply negb_true_iff, Hall, Hx.
    - apply (toString_free_incoming raw x Hfree Hx). }
  rewrite Hentries, !bind_Return.
  destruct (mapM_returns (normalize_skill (Map_of entries) stanceLabel)
              (List.map name (skills m))) as (es & ->).
  { apply List.Forall_forall. intros nm _. unfold normalize_skill.
    destruct (Map_of entries !! nm) as [x|] eqn:Hx; [|eauto].
    destruct (truthy x) eqn:Htruthy; [|eauto].
    apply entry_from_returns; [apply truthy_not_nullish, Htruthy|].
    apply Map_of_In in Hx. apply mapM_inv in Hentries.
    assert (forall l kvs, Forall2 (fun x kv => keyed x = Return kv) l kvs ->
                          In (nm, x) kvs -> In x l) as Hback.
    { induction 1 as [|x0 kv l kvs Hkv _ IH]; [intros []|].
      intros [->|Hin]; [|right; exact (IH Hin)].
      left. destruct (keyed_inv _ _ Hkv) as (_ & Hx0 & _). exact (eq_sym Hx0). }
    apply (toString_free_incoming raw x Hfree), (Hback _ _ Hentries Hx). }
  rewrite !bind_Return.
  destruct (ToString_field raw (js "recommendation") (js "Lean Hire") Hfree) as (rec & ->).
  rewrite !bind_Return.
  destruct (clampInt_returns (get_opt raw (js "exercise_score_1_to_9")) 1 9) as (ex & ->).
  { unfold clampable. apply orb_true_iff. right.
    apply toString_free_stringifiable, toString_free_get_opt, Hfree. }
  rewrite !bind_Return.
  destruct (ToString_field raw (js "exercise_why_this_score") [] Hfree) as (ex_why & ->).
  rewrite !bind_Return.
  destruct (ToString_field raw (js "exercise_what_was_missing_for_next_level") [] Hfree)
    as (ex_missing & ->).
  rewrite !bind_Return. eauto.
Qed.

Lemma forallb_false_witness {A} (f : A -> bool) (l : list A) :
  forallb f l = false -> exists x, In x l /\ f x = false.
Proof.
  induction l as [|x l IH]; simpl; [discriminate|].
  destruct (f x) eqn:E; simpl.
  - intros H. destruct (IH H) as (y & Hy & Hf). exists y. split; [right|]; assumption.
  - intros _. exists x. split; [left; reflexivity | exact E].
Qed.

(** It throws on every raw output that cannot be read. *)
Lemma normalizeAssessorResult_throws (m : Matrix) (raw : value) (stanceLabel : jsstring) :
  readable raw = false -> exists e, normalizeAssessorResult m raw stanceLabel = Throw e.
Proof.
  unfold readable, normalizeAssessorResult. intros H.
  destruct (nullish raw) eqn:Hraw.
  - destruct (get_nullish raw (js "skill_scores") Hraw) as [e ->]. eauto.
  - rewrite (get_readable raw (js "skill_scores")) by exact Hraw. rewrite bind_Return.
    fold (incoming_of raw). simpl in H.
    destruct (mapM_Throw keyed (incoming_of raw)) as [e ->]; [|eauto].
    apply Exists_exists.
    apply forallb_false_witness in H as (x & Hx & Hnull).
    exists x. split; [apply list_elem_of_In, Hx|].
    apply negb_false_iff in Hnull. unfold keyed.
    destruct (get_nullish x (js "skill") Hnull) as [e ->]. eauto.
Qed.

(** C2 (the failing inputs): on a raw output whose [skill_scores] holds a
    [null] entry, and on the raw output [null], the normalizer throws a
    [TypeError] and returns no result at all. *)
Theorem normalizeAssessorResult_null_entry_throws (m : Matrix) (stanceLabel : jsstring) :
  normalizeAssessorResult m (VObj [(js "skill_scores", VArr [VNull])]) stanceLabel
  = Throw (TypeError_read (js "null") (js "skill"))
  /\ normalizeAssessorResult m VNull stanceLabel
     = Throw (TypeError_read (js "null") (js "skill_scores")).
Proof. split; reflexivity. Qed.

Lemma Map_of_absent (entries : list (jsstring * value)) (k : jsstring) :
  (forall kv, In kv entries -> kv.1 <> k) -> Map_of entries !! k = None.
Proof.
  intros H. rewrite Map_of_lookup.
  destruct (List.find _ (rev entries)) as [kv|] eqn:E; [|reflexivity].
  apply find_some in E as [Hin Hk]. apply str_eqb_eq in Hk.
  rewrite <- in_rev in Hin. destruct (H kv Hin Hk).
Qed.

(** The entries filed, against the entries sent. *)
Lemma keyed_entries (l : list value) (entries : list (jsstring * value)) :
  Forall2 (fun x kv => keyed x = Return kv) l entries ->
  forall kv, In kv entries -> In kv.2 l /\ entry_key kv.2 = Return kv.1.
Proof.
  induction 1 as [|x kv0 l kvs Hkv _ IH]; [intros kv []|].
  destruct (keyed_inv _ _ Hkv) as (_ & Hx & Hkey).
  intros kv [<-|Hin].
  - rewrite Hx. split; [left; reflexivity | exact Hkey].
  - destruct (IH kv Hin) as [H1 H2]. split; [right; exact H1 | exact H2].
Qed.

(** C8: when none of the entries of a raw output is filed under a skill
    name of the matrix, the entry of the normalized result at each place of
    that name is the synthesized one: score 1, confidence "low", the single
    no-evidence bullet, two generic risks and two generic follow-ups. The
    normalizer returns such a result on every raw output that can be read
    (neither it nor one of its entries is [null] or [undefined]) and holds
    no object with an own [toString] property. *)
Theorem normalizeAssessorResult_synthesizes_missing
    (m : Matrix) (raw : value) (stanceLabel skill_name : jsstring) :
  In skill_name (List.map name (skills m)) ->
  (forall x, In x (incoming_of raw) -> entry_key x <> Return skill_name) ->
  (readable raw = true -> toString_free raw = true ->
   exists r, normalizeAssessorResult m raw stanceLabel = Return r)
  /\ (forall r, normalizeAssessorResult m raw stanceLabel = Return r ->
      forall i : nat,
        List.map name (skills m) !! i = Some skill_name ->
        exists e, skill_scores r !! i = Some e
          /\ e = default_entry skill_name stanceLabel
          /\ skill e = skill_name
          /\ score_1_to_9 e = 1
          /\ confidence_low_med_high e = VStr (js "low")
          /\ evidence_bullets e = [VStr (js "No evidence captured for this skill.")]
          /\ List.length (risks e) = 2%nat
          /\ List.length (followups e) = 2%nat).
Proof.
  intros _ Habsent. split; [apply normalizeAssessorResult_returns|].
  intros r Hr i Hi.
  destruct (normalizeAssessorResult_inv _ _ _ _ Hr)
    as (_ & (entries & Hentries & Hes) & _).
  apply mapM_inv in Hes.
  destruct (Forall2_lookup_l _ _ _ _ _ Hes Hi) as (e & He & Hnorm).
  exists e. split; [exact He|].
  unfold normalize_skill in Hnorm. rewrite Map_of_absent in Hnorm.
  - injection Hnorm as <-. repeat split.
  - intros kv Hin Hk. apply mapM_inv in Hentries.
    destruct (keyed_entries _ _ Hentries kv Hin) as [Hx Hkey].
    apply (Habsent kv.2 Hx). rewrite Hkey, Hk. reflexivity.
Qed.

(* =================================================================== *)
(** * Properties of [callChatJSON] *)
(* =================================================================== *)

Lemma with_pauses_nil (w : world) : with_pauses [] w = w.
Proof. destruct w. unfold with_pauses. simpl. rewrite app_nil_r. reflexivity. Qed.

Lemma with_pauses_app (ps qs : list Z) (w : world) :
  with_pauses qs (with_pauses ps w) = with_pauses (ps ++ qs) w.
Proof. unfold with_pauses. simpl. rewrite app_assoc. reflexivity. Qed.

Lemma sleep_with_pauses (d : Z) (w : world) : sleep d w = with_pauses [d] w.
Proof. reflexivity. Qed.

(** An attempt neither reads nor writes the log of pauses. *)
Lemma attempt_with_pauses (ps : list Z) (w : world) :
  attempt (with_pauses ps w) = ((attempt w).1, with_pauses ps (attempt w).2).
Proof.
  unfold attempt, chat. simpl.
  destruct (reply_at w (calls w)) as [last|e]; [|reflexivity].
  destruct (cleanJSON last); [reflexivity|].
  destruct (JSON_parse _); [reflexivity|]. simpl.
  destruct (reply_at w (S (calls w))) as [fixedText|e']; [|reflexivity].
  destruct (cleanJSON fixedText); reflexivity.
Qed.

Lemma after_attempts_with_pauses (ps : list Z) (n : nat) (w : world) :
  after_attempts n (with_pauses ps w) = with_pauses ps (after_attempts n w).
Proof.
  revert w; induction n as [|n IH]; intros w; [reflexivity|].
  cbn [after_attempts]. rewrite attempt_with_pauses. cbn [snd]. apply IH.
Qed.

Lemma outcome_at_with_pauses (ps : list Z) (n : nat) (w : world) :
  outcome_at (with_pauses ps w) n = outcome_at w n.
Proof.
  unfold outcome_at. rewrite after_attempts_with_pauses, attempt_with_pauses.
  reflexivity.
Qed.

Lemma backoff_next (k : nat) : Z.min (backoff k * 2) 5000 = backoff (S k).
Proof.
  unfold backoff. rewrite Nat2Z.inj_succ, Z.pow_succ_r by lia.
  pose proof (Z.pow_pos_nonneg 2 (Z.of_nat k)). lia.
Qed.

(** The loop from the attempt number [k + 1], when the next [n] attempts
    fail transiently and the one after them ends the call. *)
Lemma retry_loop_runs (maxAttempts : Z) (n : nat) :
  forall (k fuel : nat) (w : world),
    Z.of_nat (k + n) < maxAttempts ->
    (n < fuel)%nat ->
    (forall i, (i < n)%nat -> transient_failure (outcome_at w i) = true) ->
    transient_failure (outcome_at w n) = false \/ Z.of_nat (k + n) + 1 = maxAttempts ->
    retry_loop maxAttempts fuel (Z.of_nat k + 1) (backoff k) w
    = (raised (outcome_at w n),
       with_pauses (List.map backoff (seq k n)) (after_attempts (S n) w)).
Proof.
  induction n as [|n IH]; intros k fuel w Hlt Hfuel Hbefore Hlast.
  - destruct fuel as [|fuel]; [lia|]. cbn [retry_loop].
    destruct (Z.leb_spec (Z.of_nat k + 1) maxAttempts) as [_|?]; [|lia].
    unfold outcome_at in *. cbn [after_attempts List.map seq] in *.
    rewrite with_pauses_nil.
    destruct (attempt w) as [[v|e] w1]; cbn [fst snd raised] in *; [reflexivity|].
    replace (_ || _) with true; [reflexivity|].
    symmetry. apply orb_true_iff. destruct Hlast as [Hfatal|Hend].
    + right. cbn [transient_failure] in Hfatal. rewrite Hfatal. reflexivity.
    + left. apply Z.eqb_eq. lia.
  - destruct fuel as [|fuel]; [lia|]. cbn [retry_loop].
    destruct (Z.leb_spec (Z.of_nat k + 1) maxAttempts) as [_|?]; [|lia].
    pose proof (Hbefore 0%nat ltac:(lia)) as H0.
    unfold outcome_at in H0. cbn [after_attempts] in H0.
    destruct (attempt w) as [[v|e] w1] eqn:Hatt; cbn [fst transient_failure] in H0;
      [discriminate|].
    rewrite H0. destruct (Z.eqb_spec (Z.of_nat k + 1) maxAttempts) as [?|_]; [lia|].
    cbn [orb negb]. rewrite backoff_next, sleep_with_pauses.
    replace (Z.of_nat k + 1 + 1) with (Z.of_nat (S k) + 1) by lia.
    rewrite (IH (S k) fuel).
    + rewrite outcome_at_with_pauses, after_attempts_with_pauses, with_pauses_app.
      unfold outcome_at. cbn [after_attempts seq List.map]. rewrite Hatt.
      reflexivity.
    + lia.
    + lia.
    + intros i Hi. rewrite outcome_at_with_pauses.
      specialize (Hbefore (S i) ltac:(lia)). unfold outcome_at in *.
      cbn [after_attempts] in Hbefore. rewrite Hatt in Hbefore. exact Hbefore.
    + rewrite outcome_at_with_pauses. replace (S k + n)%nat with (k + S n)%nat by lia.
      destruct Hlast as [Hfatal|Hend]; [left|right; exact Hend].
      unfold outcome_at in *. cbn [after_attempts] in Hfatal.
      rewrite Hatt in Hfatal. exact Hfatal.
Qed.

(** Every call with at least one attempt allowed ends in one of the ways
    the policy describes: some attempt within the allowance is the first
    that does not fail transiently, or the last one allowed. *)
Lemma callChatJSON_ends (maxAttempts : Z) (w : world) :
  1 <= maxAttempts ->
  exists n : nat,
    Z.of_nat n < maxAttempts
    /\ (forall i, (i < n)%nat -> transient_failure (outcome_at w i) = true)
    /\ (transient_failure (outcome_at w n) = false \/ Z.of_nat n + 1 = maxAttempts).
Proof.
  intros Hmax.
  assert (forall m : nat,
             (exists n, (n <= m)%nat
                        /\ (forall i, (i < n)%nat -> transient_failure (outcome_at w i) = true)
                        /\ transient_failure (outcome_at w n) = false)
             \/ (forall i, (i <= m)%nat -> transient_failure (outcome_at w i) = true)) as Hsearch.
  { induction m as [|m [(n & Hn & Hb & Hl)|Hall]].
    - destruct (transient_failure (outcome_at w 0)) eqn:E.
      + right. intros i Hi. replace i with 0%nat by lia. exact E.
      + left. exists 0%nat. repeat split; [lia | intros; lia | exact E].
    - left. exists n. repeat split; [lia | exact Hb | exact Hl].
    - destruct (transient_failure (outcome_at w (S m))) eqn:E.
      + right. intros i Hi. destruct (Nat.eq_dec i (S m)) as [->|?]; [exact E|].
        apply Hall. lia.
      + left. exists (S m). repeat split; [lia | | exact E].
        intros i Hi. apply Hall. lia. }
  destruct (Hsearch (Z.to_nat (maxAttempts - 1))) as [(n & Hn & Hb & Hl)|Hall].
  - exists n. repeat split; [lia | exact Hb | left; exact Hl].
  - exists (Z.to_nat (maxAttempts - 1)). repeat split; [lia | | right; lia].
    intros i Hi. apply Hall. lia.
Qed.

(** The classifier of [callChatJSON] marks exactly the messages that
    carry one of the marks of a transient failure. *)
Lemma isTransient_marker (msg : jsstring) :
  isTransient msg = true <-> has_transient_marker msg.
Proof.
  clear. unfold isTransient, is429, has_transient_marker.
  rewrite !orb_true_iff, !includes_part. tauto.
Qed.

Lemma fails_with_marker_transient (o : result value) :
  fails_with_marker o -> transient_failure o = true.
Proof. destruct o as [v|e]; cbn; [intros []|]. apply isTransient_marker. Qed.

Lemma ends_without_marker_transient (o : result value) :
  ends_without_marker o -> transient_failure o = false.
Proof.
  destruct o as [v|e]; cbn; [reflexivity|]. intros H.
  apply not_true_is_false. rewrite isTransient_marker. exact H.
Qed.

(** C5: when the first [n] attempts of a call fail with a message that
    carries one of the marks of a transient failure (429 anywhere in it,
    or, in any case of letters, "rate limit", "timeout", "temporarily",
    "fetch failed" or "empty content") and [n] is below [maxAttempts],
    each is followed by a pause, the pauses being 450 ms doubled each time
    and capped at 5000 ms, and then by one more attempt. The attempt after
    them ends the call when it succeeds, when its failure carries none of
    the marks, or when it is the last one allowed: a success returns its
    value, a failure raises an error carrying its message, and nothing is
    called or paused for afterwards. *)
Theorem callChatJSON_retry_policy (maxAttempts : Z) (w : world) (n : nat) :
  Z.of_nat n < maxAttempts ->
  (forall i, (i < n)%nat -> fails_with_marker (outcome_at w i)) ->
  ends_without_marker (outcome_at w n) \/ Z.of_nat n + 1 = maxAttempts ->
  callChatJSON maxAttempts w
  = (raised (outcome_at w n),
     with_pauses (List.map backoff (seq 0 n)) (after_attempts (S n) w)).
Proof.
  intros Hlt Hbefore Hlast. unfold callChatJSON.
  change 1 with (Z.of_nat 0 + 1). change 450 with (backoff 0).
  apply retry_loop_runs; [lia | lia | |].
  - intros i Hi. apply fails_with_marker_transient, Hbefore, Hi.
  - destruct Hlast as [Hend|Hlast]; [left|right; exact Hlast].
    apply ends_without_marker_transient, Hend.
Qed.

(* =================================================================== *)
(** * Properties of the routes *)
(* =================================================================== *)

Lemma ids_kept_refl (w : world) : ids_kept w w.
Proof. split; reflexivity. Qed.

Lemma ids_kept_trans (w1 w2 w3 : world) : ids_kept w1 w2 -> ids_kept w2 w3 -> ids_kept w1 w3.
Proof. intros [H1 H2] [H3 H4]. split; congruence. Qed.

Lemma chat_ids (w : world) : ids_kept w (chat w).2.
Proof. split; reflexivity. Qed.

Lemma attempt_ids (w : world) : ids_kept w (attempt w).2.
Proof.
  unfold attempt. pose proof (chat_ids w) as H1.
  destruct (chat w) as [[last|e] w1]; cbn [snd] in *; [|exact H1].
  destruct (cleanJSON last); [exact H1|].
  destruct (JSON_parse _); [exact H1|].
  pose proof (chat_ids w1) as H2.
  destruct (chat w1) as [[fixedText|e'] w2]; cbn [snd] in *;
    [destruct (cleanJSON fixedText)|]; exact (ids_kept_trans _ _ _ H1 H2).
Qed.

Lemma retry_loop_ids (maxAttempts : Z) (fuel : nat) :
  forall (a d : Z) (w : world), ids_kept w (retry_loop maxAttempts fuel a d w).2.
Proof.
  induction fuel as [|fuel IH]; intros a d w; cbn [retry_loop]; [apply ids_kept_refl|].
  destruct (a <=? maxAttempts); [|apply ids_kept_refl].
  pose proof (attempt_ids w) as H1.
  destruct (attempt w) as [[v|e] w1]; cbn [snd] in *; [exact H1|].
  destruct (_ || _); [exact H1|].
  eapply ids_kept_trans; [exact H1|].
  eapply ids_kept_trans; [|apply IH]. split; reflexivity.
Qed.

Lemma callChatJSON_ids (maxAttempts : Z) (w : world) :
  ids_kept w (callChatJSON maxAttempts w).2.
Proof. apply retry_loop_ids. Qed.

Lemma callChatText_ids (w : world) : ids_kept w (callChatText w).2.
Proof.
  unfold callChatText. pose proof (chat_ids w) as H.
  destruct (chat w) as [[text|e] w1]; exact H.
Qed.

Lemma buildInterviewPlan_ids (w : world) : ids_kept w (buildInterviewPlan w).2.
Proof.
  unfold buildInterviewPlan. pose proof (callChatJSON_ids 3 w) as H.
  destruct (callChatJSON 3 w) as [r w1]. exact H.
Qed.

Lemma decideFollowup_ids (w : world) : ids_kept w (decideFollowup w).2.
Proof.
  unfold decideFollowup. destruct (_ =? 0); [apply ids_kept_refl|].
  pose proof (callChatJSON_ids 3 w) as H.
  destruct (callChatJSON 3 w) as [r w1]. exact H.
Qed.

Lemma assess_ids (m : Matrix) (w : world) : ids_kept w (assess m w).2.
Proof.
  unfold assess.
  pose proof (callChatJSON_ids 3 w) as H1.
  destruct (callChatJSON 3 w) as [[raw1|e] w1]; cbn [snd] in *; [|exact H1].
  pose proof (callChatJSON_ids 3 w1) as H2.
  destruct (callChatJSON 3 w1) as [[raw2|e] w2]; cbn [snd] in *;
    [|exact (ids_kept_trans _ _ _ H1 H2)].
  pose proof (callChatJSON_ids 3 w2) as H3.
  destruct (callChatJSON 3 w2) as [[raw3|e] w3]; cbn [snd] in *;
    exact (ids_kept_trans _ _ _ H1 (ids_kept_trans _ _ _ H2 H3)).
Qed.

Lemma writeFileSync_ids (w : world) : ids_kept w (writeFileSync w).2.
Proof. split; reflexivity. Qed.

Lemma step_kept (st : server) : registry_step st st.
Proof. apply step_same; [reflexivity | apply ids_kept_refl]. Qed.

Lemma api_start_step (body : value) (st : server) :
  registry_step st (api_start body st).2.
Proof.
  unfold api_start. destruct matrix_file as [m|e]; [|apply step_kept].
  destruct (body_string body _ _) as [candidate|e]; [|apply step_kept].
  pose proof (buildInterviewPlan_ids (env st)) as H.
  destruct (buildInterviewPlan (env st)) as [[questions|e] w1]; cbn [snd] in *.
  - destruct H as [H1 H2]. unfold fresh_session. cbn [snd].
    eapply step_register; cbn [sessions env session_id_at started];
      [rewrite H1, H2; reflexivity | exact H1 | rewrite H2; reflexivity | reflexivity..].
  - apply step_same; [reflexivity | exact H].
Qed.

Lemma question_text_readable (q : value) (field text : jsstring) :
  question_text q field = Return text -> nullish q = false.
Proof.
  unfold question_text. destruct (get q field) as [v|e] eqn:E; [|discriminate].
  intros _. apply (get_Return _ _ _ E).
Qed.

Lemma current_question_readable (s : Session) (field text : jsstring) :
  question_text (default VUndefined (planQuestions s !! idx s)) field = Return text ->
  (idx s < List.length (planQuestions s))%nat.
Proof.
  intros H. destruct (planQuestions s !! idx s) as [q|] eqn:E.
  - apply lookup_lt_Some in E. exact E.
  - simpl in H. discriminate.
Qed.

Lemma advance_step (sid : jsstring) (s0 s : Session) (st0 st : server) :
  sessions st0 !! sid = Some s0 ->
  sessions st = <[sid := s]> (sessions st0) ->
  ids_kept (env st0) (env st) ->
  planQuestions s = planQuestions s0 -> idx s = idx s0 ->
  (idx s0 < List.length (planQuestions s0))%nat ->
  registry_step st0 (advance sid s st).2.
Proof.
  intros Hs0 Hst Hids Hplan Hidx Hlt. unfold advance.
  set (s' := with_followupsLeft _ _).
  assert (registry_step st0 (Server (<[sid := s']> (sessions st)) (env st))) as Hstep.
  { eapply (step_update _ _ sid s0 s'); cbn [sessions env].
    - exact Hs0.
    - rewrite Hst. apply insert_insert_eq.
    - exact Hids.
    - exact Hplan.
    - right. subst s'. cbn [idx followupsLeft with_followupsLeft with_idx].
      rewrite Hidx. auto. }
  destruct (_ <=? _)%nat; exact Hstep.
Qed.

Lemma api_answer_step (body : value) (st : server) :
  registry_step st (api_answer body st).2.
Proof.
  unfold api_answer.
  destruct (body_string body (js "sessionId") []) as [sid|e]; [|apply step_kept].
  destruct (body_string body (js "answer") []) as [answer|e]; [|apply step_kept].
  destruct (sessions st !! sid) as [s|] eqn:Hs; [|apply step_kept].
  destruct (question_text _ (js "skill")) as [sk|e] eqn:Hsk; [|apply step_kept].
  pose proof (current_question_readable _ _ _ Hsk) as Hlt.
  destruct (question_text _ (js "question")) as [qu|e] eqn:Hqu; [|apply step_kept].
  set (s1 := with_transcript s _).
  destruct (_ && _ && _) eqn:Hask.
  - cbn [env sessions].
    pose proof (decideFollowup_ids (env st)) as Hids.
    destruct (decideFollowup (env st)) as [[[need fq]|e] w1]; cbn [snd] in *.
    + destruct (need && truthy fq).
      * eapply (step_update _ _ sid s); cbn [sessions env];
          [exact Hs | apply insert_insert_eq | exact Hids | reflexivity |].
        left. split; [reflexivity|]. right.
        cbn [followupsLeft with_followupsLeft].
        apply andb_true_iff in Hask as [Hask _]. apply andb_true_iff in Hask as [Hask _].
        split; [|reflexivity]. apply Z.gtb_lt in Hask. exact Hask.
      * eapply advance_step; cbn [sessions env];
          [exact Hs | reflexivity | exact Hids | reflexivity | reflexivity | exact Hlt].
    + eapply (step_update _ _ sid s s1); cbn [sessions env];
        [exact Hs | reflexivity | exact Hids | reflexivity |].
      left. split; [reflexivity | left; reflexivity].
  - eapply advance_step; cbn [sessions env];
      [exact Hs | reflexivity | apply ids_kept_refl | reflexivity | reflexivity | exact Hlt].
Qed.

Lemma api_auto_answer_step (body : value) (st : server) :
  registry_step st (api_auto_answer body st).2.
Proof.
  unfold api_auto_answer.
  destruct (auto_fields body) as [sid|e]; [|apply step_kept].
  destruct (sessions st !! _) as [s|]; [|apply step_kept].
  destruct (negb _); [apply step_kept|].
  destruct (question_prompt _) as [[]|e]; [|apply step_kept].
  pose proof (callChatText_ids (env st)) as Hids.
  destruct (callChatText (env st)) as [[[|c answer]|e] w1]; cbn [snd] in *;
    apply step_same; (reflexivity || exact Hids).
Qed.

Lemma api_auto_exercise_step (body : value) (st : server) :
  registry_step st (api_auto_exercise body st).2.
Proof.
  unfold api_auto_exercise.
  destruct (auto_fields body) as [sid|e]; [|apply step_kept].
  destruct (sessions st !! _) as [s|]; [|apply step_kept].
  pose proof (callChatText_ids (env st)) as Hids.
  destruct (callChatText (env st)) as [[[|c answer]|e] w1]; cbn [snd] in *;
    apply step_same; (reflexivity || exact Hids).
Qed.

Lemma api_finish_step (body : value) (st : server) :
  registry_step st (api_finish body st).2.
Proof.
  unfold api_finish.
  destruct (body_string body (js "sessionId") []) as [sid|e]; [|apply step_kept].
  destruct (body_string body (js "exerciseAnswer") []) as [ex|e]; [|apply step_kept].
  destruct (sessions st !! _) as [s|]; [|apply step_kept].
  pose proof (assess_ids (matrix s) (env st)) as H1.
  destruct (assess (matrix s) (env st)) as [norms w1]; cbn [snd] in *.
  destruct (_ ≫= _) as [[norms' reports]|e]; [|apply step_same; [reflexivity | exact H1]].
  pose proof (writeFileSync_ids w1) as H2.
  destruct (writeFileSync w1) as [[[]|e] w2]; cbn [snd] in *.
  - eapply step_remove; [reflexivity | exact (ids_kept_trans _ _ _ H1 H2)].
  - apply step_same; [reflexivity | exact (ids_kept_trans _ _ _ H1 H2)].
Qed.

Lemma handle_step (rq : request) (st : server) : registry_step st (handle rq st).2.
Proof.
  destruct rq; [apply api_start_step | apply api_answer_step | apply api_auto_answer_step
                | apply api_auto_exercise_step | apply api_finish_step].
Qed.

Lemma step_within_bounds (st st' : server) :
  0 <= MAX_FOLLOWUPS_PER_SKILL ->
  registry_step st st' -> sessions_within_bounds st -> sessions_within_bounds st'.
Proof.
  intros Hmax Hstep Hok sid s Hs.
  destruct Hstep as [Hsame _|sid0 s0 s0' Hs0 Hupd _ Hplan Hcase|s0 Hreg _ _ Hidx Hleft|sid0 Hdel _].
  - rewrite Hsame in Hs. exact (Hok _ _ Hs).
  - rewrite Hupd in Hs. destruct (decide (sid0 = sid)) as [->|Hne].
    + rewrite lookup_insert_eq in Hs. injection Hs as <-.
      destruct (Hok _ _ Hs0) as [Hb Hi]. unfold session_within_bounds.
      rewrite Hplan. destruct Hcase as [[-> [-> | [? ->]]]|(-> & ? & ->)]; lia.
    + rewrite lookup_insert_ne in Hs by exact Hne. exact (Hok _ _ Hs).
  - rewrite Hreg in Hs.
    destruct (decide (session_id_at (env st) (started (env st)) = sid)) as [Heq|Hne].
    + rewrite Heq, lookup_insert_eq in Hs. injection Hs as <-.
      unfold session_within_bounds. rewrite Hidx, Hleft. lia.
    + rewrite lookup_insert_ne in Hs by exact Hne. exact (Hok _ _ Hs).
  - rewrite Hdel in Hs. destruct (decide (sid0 = sid)) as [->|Hne].
    + rewrite lookup_delete_eq in Hs. discriminate.
    + rewrite lookup_delete_ne in Hs by exact Hne. exact (Hok _ _ Hs).
Qed.

Lemma never_issued_again_kept (sid : jsstring) (w w' : world) :
  ids_kept w w' -> never_issued_again sid w -> never_issued_again sid w'.
Proof. intros [H1 H2] H n Hn. rewrite H1. apply H. lia. Qed.

Lemma step_keeps_absent (sid : jsstring) (st st' : server) :
  registry_step st st' ->
  sessions st !! sid = None -> never_issued_again sid (env st) ->
  sessions st' !! sid = None /\ never_issued_again sid (env st').
Proof.
  intros Hstep Hnone Hfresh.
  destruct Hstep as [Hsame Hids|sid0 s0 s0' Hs0 Hupd Hids _ _|s0 Hreg Hid Hst _ _|sid0 Hdel Hids].
  - split; [rewrite Hsame; exact Hnone | exact (never_issued_again_kept _ _ _ Hids Hfresh)].
  - split; [|exact (never_issued_again_kept _ _ _ Hids Hfresh)].
    rewrite Hupd. destruct (decide (sid0 = sid)) as [->|Hne]; [congruence|].
    rewrite lookup_insert_ne by exact Hne. exact Hnone.
  - split.
    + rewrite Hreg, lookup_insert_ne; [exact Hnone|]. apply Hfresh. lia.
    + intros n Hn. rewrite Hid. apply Hfresh. lia.
  - split; [|exact (never_issued_again_kept _ _ _ Hids Hfresh)].
    rewrite Hdel. destruct (decide (sid0 = sid)) as [->|Hne].
    + apply lookup_delete_eq.
    + rewrite lookup_delete_ne by exact Hne. exact Hnone.
Qed.

Lemma run_cons (rq : request) (rqs : list request) (st : server) :
  run (rq :: rqs) st = run rqs (handle rq st).2.
Proof. reflexivity. Qed.

Lemma run_within_bounds (rqs : list request) (st : server) :
  0 <= MAX_FOLLOWUPS_PER_SKILL ->
  sessions_within_bounds st -> sessions_within_bounds (run rqs st).
Proof.
  intros Hmax. revert st; induction rqs as [|rq rqs IH]; intros st Hok; [exact Hok|].
  rewrite run_cons. apply IH. eapply step_within_bounds; [exact Hmax | apply handle_step | exact Hok].
Qed.

Lemma run_keeps_absent (sid : jsstring) (rqs : list request) (st : server) :
  sessions st !! sid = None -> never_issued_again sid (env st) ->
  sessions (run rqs st) !! sid = None.
Proof.
  revert st; induction rqs as [|rq rqs IH]; intros st Hnone Hfresh; [exact Hnone|].
  rewrite run_cons.
  destruct (step_keeps_absent sid _ _ (handle_step rq st) Hnone Hfresh) as [H1 H2].
  apply IH; assumption.
Qed.

Lemma api_finish_deletes (body : value) (st : server) :
  finished (api_finish body st).1 = true ->
  exists sid,
    body_string body (js "sessionId") [] = Return sid
    /\ sessions (api_finish body st).2 = delete sid (sessions st).
Proof.
  unfold api_finish.
  destruct (body_string body (js "sessionId") []) as [sid|e]; [|discriminate].
  destruct (body_string body (js "exerciseAnswer") []) as [ex|e]; [|discriminate].
  destruct (sessions st !! _) as [s|]; [|discriminate].
  destruct (assess (matrix s) (env st)) as [norms w1].
  destruct (_ ≫= _) as [[norms' reports]|e]; [|discriminate].
  destruct (writeFileSync w1) as [[[]|e] w2]; [|discriminate].
  intros _. exists sid. split; reflexivity.
Qed.

(** C6 (amended): with a configured maximum that is not negative, after
    every sequence of requests every registered session has a follow-up
    budget that is not negative and a cursor that does not exceed the
    length of its plan; and when a finish request succeeds, the session id
    it names is no longer registered, and stays so after any later
    requests, as long as the id is not issued again to a new session. *)
Theorem sessions_within_bounds_and_finish_deletes
    (w : world) (before : list request) (body : value) (later : list request) :
  0 <= MAX_FOLLOWUPS_PER_SKILL ->
  let st := run before (Server ∅ w) in
  let st' := (api_finish body st).2 in
  (forall id s, sessions st !! id = Some s ->
                0 <= followupsLeft s /\ (idx s <= List.length (planQuestions s))%nat)
  /\ (finished (api_finish body st).1 = true ->
      exists sid,
        body_string body (js "sessionId") [] = Return sid
        /\ sessions st' !! sid = None
        /\ (never_issued_again sid (env st') -> sessions (run later st') !! sid = None)).
Proof.
  intros Hmax st st'. split.
  - apply (run_within_bounds before (Server ∅ w) Hmax).
    intros id s Hs. cbn [sessions] in Hs. rewrite lookup_empty in Hs. discriminate.
  - intros Hfin. apply api_finish_deletes in Hfin as (sid & Hsid & Hfin).
    exists sid. split; [exact Hsid|].
    assert (sessions st' !! sid = None) as Hnone.
    { subst st'. rewrite Hfin. apply lookup_delete_eq. }
    split; [exact Hnone|]. intros Hfresh. apply run_keeps_absent; assumption.
Qed.

(** C3 (amended): when the follow-up decision fails while an answer is
    handled, the route answers with the error and leaves the cursor, the
    follow-up budget and the plan of the session as they were; the
    transcript, however, has already received the submitted answer as its
    new last entry. The decision is reached only when the session id and
    the answer of the body, and the skill and the question of the current
    question, have been converted to strings. *)
Theorem api_answer_decision_failure
    (body : value) (st : server) (s : Session) (q : value)
    (sid answer skillName question : jsstring) (e : js_error) (w1 : world) :
  body_string body (js "sessionId") [] = Return sid ->
  body_string body (js "answer") [] = Return answer ->
  sessions st !! sid = Some s ->
  planQuestions s !! idx s = Some q ->
  question_text q (js "skill") = Return skillName ->
  question_text q (js "question") = Return question ->
  asks_decision s answer = true ->
  decideFollowup (env st) = (Throw e, w1) ->
  exists s',
    (api_answer body st).1 = R_error 500 (err_text e)
    /\ sessions (api_answer body st).2 !! sid = Some s'
    /\ idx s' = idx s
    /\ followupsLeft s' = followupsLeft s
    /\ planQuestions s' = planQuestions s
    /\ transcript s' = transcript s ++ [answered skillName question answer].
Proof.
  intros Hsid Hanswer Hs Hq Hskill Hquestion Hask Hdec.
  unfold api_answer. rewrite Hsid, Hanswer, Hs, Hq. cbn [default id].
  rewrite Hskill, Hquestion.
  unfold asks_decision in Hask. cbn [followupsLeft with_transcript env sessions].
  rewrite Hask, Hdec. cbn [fst snd sessions].
  eexists. split; [reflexivity|]. split; [apply lookup_insert_eq|].
  repeat split.
Qed.

(* =================================================================== *)
(** * Further properties of [normalizeAssessorResult] *)
(* =================================================================== *)

Lemma only_TypeError_bind {A B} (m : result A) (k : A -> result B) :
  throws_only_TypeError m -> (forall a, throws_only_TypeError (k a)) ->
  throws_only_TypeError (m ≫= k).
Proof. destruct m as [a|e]; [intros _ H; apply H | intros H _; exact H]. Qed.

Lemma only_TypeError_get (v : value) (prop : jsstring) :
  throws_only_TypeError (get v prop).
Proof. destruct v; simpl; auto. Qed.

Lemma only_TypeError_ToString (v : value) : throws_only_TypeError (ToString v).
Proof.
  pose proof (ToString_outcome v) as H. destruct (ToString v) as [s|e]; [exact I|].
  destruct H as [-> _]. reflexivity.
Qed.

Lemma only_TypeError_clampInt (n : value) (lo hi : Z) :
  throws_only_TypeError (clampInt n lo hi).
Proof.
  pose proof (clampInt_outcome n lo hi) as H.
  destruct (clampInt n lo hi) as [z|e]; [exact I|].
  destruct H as [-> _]. reflexivity.
Qed.

Lemma only_TypeError_mapM {A B} (f : A -> result B) (l : list A) :
  (forall x, throws_only_TypeError (f x)) -> throws_only_TypeError (mapM f l).
Proof.
  intros Hf. induction l as [|x l IH]; cbn [mapM]; [exact I|].
  apply only_TypeError_bind; [apply Hf|]. intros y.
  apply only_TypeError_bind; [exact IH|]. intros ys. exact I.
Qed.

Ltac only_TypeError :=
  repeat (first
    [ exact I
    | apply only_TypeError_get
    | apply only_TypeError_ToString
    | apply only_TypeError_clampInt
    | apply only_TypeError_bind; [|intro] ]).

Lemma only_TypeError_keyed (x : value) : throws_only_TypeError (keyed x).
Proof. unfold keyed. only_TypeError. Qed.

Lemma only_TypeError_entry_from (skill_name stanceLabel : jsstring) (x : value) :
  throws_only_TypeError (entry_from skill_name stanceLabel x).
Proof. unfold entry_from. only_TypeError. Qed.

Lemma only_TypeError_normalize_skill
    (map : gmap jsstring value) (stanceLabel skill_name : jsstring) :
  throws_only_TypeError (normalize_skill map stanceLabel skill_name).
Proof.
  unfold normalize_skill. destruct (map !! skill_name) as [x|]; [|exact I].
  destruct (truthy x); [apply only_TypeError_entry_from | exact I].
Qed.

Lemma only_TypeError_normalizeAssessorResult
    (m : Matrix) (raw : value) (stanceLabel : jsstring) :
  throws_only_TypeError (normalizeAssessorResult m raw stanceLabel).
Proof.
  unfold normalizeAssessorResult.
  apply only_TypeError_bind; [apply only_TypeError_get|]. intro.
  apply only_TypeError_bind;
    [apply only_TypeError_mapM, only_TypeError_keyed|]. intro.
  apply only_TypeError_bind;
    [apply only_TypeError_mapM, only_TypeError_normalize_skill|]. intro.
  only_TypeError.
Qed.

(** The normalizer returns only on the raw outputs that can be read
    (neither the output nor one of its entries is [null] or [undefined]);
    when it does not return it throws a [TypeError], and then the output
    cannot be read or holds an object with an own [toString] property. *)
Theorem normalizeAssessorResult_returns_or_TypeError
    (m : Matrix) (raw : value) (stanceLabel : jsstring) :
  match normalizeAssessorResult m raw stanceLabel with
  | Return _ => readable raw = true
  | Throw e =>
      ename e = js "TypeError" /\ (readable raw = false \/ toString_free raw = false)
  end.
Proof.
  pose proof (only_TypeError_normalizeAssessorResult m raw stanceLabel) as Hkind.
  destruct (normalizeAssessorResult m raw stanceLabel) as [r|e] eqn:Hr.
  - destruct (readable raw) eqn:Hread; [reflexivity|].
    destruct (normalizeAssessorResult_throws m raw stanceLabel Hread) as [e He].
    congruence.
  - split; [exact Hkind|].
    destruct (readable raw) eqn:Hread; [|left; reflexivity].
    destruct (toString_free raw) eqn:Hfree; [|right; reflexivity].
    destruct (normalizeAssessorResult_returns m raw stanceLabel Hread Hfree) as [r Hret].
    congruence.
Qed.

(** Whatever the assessor sent, a normalized result holds at most 3 evidence
    bullets, 2 risks and 2 follow-ups per skill, at most 3 evidence bullets
    for the exercise and at most 6 summary lines. *)
Theorem normalizeAssessorResult_lists_bounded
    (m : Matrix) (raw : value) (stanceLabel : jsstring) (r : AssessmentResult) :
  normalizeAssessorResult m raw stanceLabel = Return r ->
  Forall entry_lists_bounded (skill_scores r)
  /\ (List.length (exercise_evidence_bullets r) <= 3)%nat
  /\ (List.length (summary r) <= 6)%nat.
Proof.
  intros Hr.
  destruct (normalizeAssessorResult_inv _ _ _ _ Hr)
    as (_ & (entries & _ & Hes) & _ & Hex & Hsumm).
  split; [|split; assumption].
  apply mapM_inv in Hes.
  induction Hes as [|nm e names es He _ IH]; constructor; [|exact IH].
  apply (normalize_skill_inv _ _ _ _ He).
Qed.

Lemma Map_of_last (l1 l2 : list (jsstring * value)) (k : jsstring) (x : value) :
  (forall kv, In kv l2 -> kv.1 <> k) ->
  Map_of (l1 ++ (k, x) :: l2) !! k = Some x.
Proof.
  intros Hl2. rewrite Map_of_lookup, rev_app_distr. cbn [rev].
  rewrite <- app_assoc. cbn [app].
  assert (forall l : list (jsstring * value), (forall kv, In kv l -> kv.1 <> k) ->
          forall rest, List.find (fun kv => str_eqb kv.1 k) (l ++ rest)
                       = List.find (fun kv => str_eqb kv.1 k) rest) as Hskip.
  { induction l as [|kv l IH]; intros Hl rest; [reflexivity|]. cbn [app List.find].
    destruct (str_eqb kv.1 k) eqn:E.
    - apply str_eqb_eq in E. destruct (Hl kv (or_introl eq_refl) E).
    - apply IH. intros kv' Hin. apply Hl. right. exact Hin. }
  rewrite Hskip.
  - cbn [List.find fst]. rewrite (proj2 (str_eqb_eq k k) eq_refl). reflexivity.
  - intros kv Hin. apply Hl2. rewrite in_rev. exact Hin.
Qed.

(** When the assessor sent several entries for one skill, the last of them
    is the one normalized: its score, clamped, is the score of the skill.
    The normalizer returns such a result on every raw output that can be
    read and holds no object with an own [toString] property. *)
Theorem normalizeAssessorResult_last_entry_wins
    (m : Matrix) (raw : value) (stanceLabel skill_name : jsstring)
    (before after : list value) (x : value) (i : nat) :
  incoming_of raw = before ++ x :: after ->
  entry_key x = Return skill_name ->
  truthy x = true ->
  (forall y, In y after -> entry_key y <> Return skill_name) ->
  List.map name (skills m) !! i = Some skill_name ->
  (readable raw = true -> toString_free raw = true ->
   exists r, normalizeAssessorResult m raw stanceLabel = Return r)
  /\ (forall r, normalizeAssessorResult m raw stanceLabel = Return r ->
      exists e, skill_scores r !! i = Some e
        /\ skill e = skill_name
        /\ entry_score x = Return (score_1_to_9 e)).
Proof.
  intros Hinc Hkey Htruthy Hafter Hi. split; [apply normalizeAssessorResult_returns|].
  intros r Hr.
  destruct (normalizeAssessorResult_inv _ _ _ _ Hr)
    as (_ & (entries & Hentries & Hes) & _).
  apply mapM_inv in Hentries, Hes. rewrite Hinc in Hentries.
  apply Forall2_app_inv_l in Hentries as (eb & rest & _ & Hrest & ->).
  apply Forall2_cons_inv_l in Hrest as (kv & ea & Hkv & Hea & ->).
  destruct (keyed_inv _ _ Hkv) as (_ & Hx & Hk).
  assert (kv = (skill_name, x)) as ->.
  { destruct kv as [k x']. cbn in Hx, Hk. subst x'. f_equal. congruence. }
  destruct (Forall2_lookup_l _ _ _ _ _ Hes Hi) as (e & He & Hnorm).
  exists e. split; [exact He|].
  unfold normalize_skill in Hnorm. rewrite Map_of_last in Hnorm.
  - rewrite Htruthy in Hnorm.
    destruct (entry_from_inv _ _ _ _ Hnorm) as (_ & Hsk & Hscore & _).
    split; assumption.
  - intros kv Hin Heq. destruct (keyed_entries _ _ Hea kv Hin) as [Hy Hkey'].
    apply (Hafter kv.2 Hy). rewrite Hkey', Heq. reflexivity.
Qed.

(* =================================================================== *)
(** * Further properties of the scoring *)
(* =================================================================== *)

(** The sum [0.7 * skills + 0.3 * exercise] of [overall], in doubles and
    rounded, for each pair of scores of levels. *)
Lemma overall_of_levels (a b : Z) :
  In a level_scores -> In b level_scores ->
  exists z,
    Math_round_double (0x1.6666666666666p-1 * double_of_Z a
                       + 0x1.3333333333333p-2 * double_of_Z b)%float
    = Finite (inject_Z z)
    /\ 0 <= z <= 100.
Proof.
  unfold level_scores. cbn [In]. intros Ha Hb.
  repeat (destruct Ha as [<-|Ha]; [|]); try destruct Ha;
    repeat (destruct Hb as [<-|Hb]; [|]); try destruct Hb;
    eexists; (split; [vm_compute; reflexivity | lia]).
Qed.

Lemma overall_percentage (m : Matrix) (r : AssessmentResult) :
  exists z, overall m r = Return (Finite (inject_Z z)) /\ 0 <= z <= 100.
Proof.
  unfold overall.
  destruct (weightedSkillsScore0to100_level (skill_scores r) (skills m)) as (a & -> & Ha).
  destruct (score1to9_to_0to100_number (Finite (inject_Z (exercise_score_1_to_9 r))))
    as (b & -> & Hb).
  rewrite !bind_Return.
  destruct (overall_of_levels a b Ha Hb) as (z & Hz & Hrange).
  exists z. split; [|exact Hrange]. cbn [mret result_ret]. rewrite Hz. reflexivity.
Qed.

(** The overall score of a report is a whole percentage: whatever the
    result and the matrix, [overall] returns an integer between 0 and 100. *)
Theorem overall_within_0_100 (m : Matrix) (r : AssessmentResult) :
  exists z, overall m r = Return (Finite (inject_Z z)) /\ 0 <= z <= 100.
Proof. apply overall_percentage. Qed.

(* =================================================================== *)
(** * Further properties of [cleanJSON] *)
(* =================================================================== *)

Lemma part_of_refl (t : jsstring) : part_of t t.
Proof. exists [], []. rewrite app_nil_r. reflexivity. Qed.

Lemma part_of_trans (a b c : jsstring) : part_of a b -> part_of b c -> part_of a c.
Proof.
  intros (p & s & ->) (p' & s' & ->). exists (p' ++ p), (s ++ s').
  rewrite <- !app_assoc. reflexivity.
Qed.

Lemma part_of_suffix (d r t : jsstring) : t = d ++ r -> part_of r t.
Proof. intros ->. exists d, []. rewrite app_nil_r. reflexivity. Qed.

Lemma part_of_prefix (r d t : jsstring) : t = r ++ d -> part_of r t.
Proof. intros ->. exists [], d. reflexivity. Qed.

Lemma trim_part (t : jsstring) : part_of (trim t) t.
Proof.
  unfold trim. destruct (trimStart_suffix t) as (d & Hd & _).
  destruct (trimEnd_prefix (trimStart t)) as (d' & Hd' & _).
  eapply part_of_trans; [exact (part_of_prefix _ _ _ Hd') | exact (part_of_suffix _ _ _ Hd)].
Qed.

Lemma slice_part (t : jsstring) (a e : Z) : part_of (slice t a e) t.
Proof.
  unfold slice.
  set (k := Z.to_nat _). set (n := Z.to_nat _).
  exists (firstn n t), (skipn k (skipn n t)).
  rewrite (firstn_skipn k (skipn n t)). symmetry. apply firstn_skipn.
Qed.

Lemma strip_fences_part (text : jsstring) : part_of (strip_fences text) text.
Proof.
  unfold strip_fences.
  destruct (replace_fence_close_drops
              (replace_fence_open (replace_fence_json (trim text)))) as (d3 & E3 & _).
  destruct (replace_fence_open_drops (replace_fence_json (trim text))) as (d2 & E2 & _).
  destruct (replace_fence_json_drops (trim text)) as (d1 & E1 & _).
  eapply part_of_trans; [|apply trim_part].
  eapply part_of_trans; [|exact (part_of_suffix _ _ _ E1)].
  eapply part_of_trans; [|exact (part_of_suffix _ _ _ E2)].
  exact (part_of_prefix _ _ _ E3).
Qed.

Lemma trimStart_head (s : jsstring) :
  trimStart s = [] \/ exists c r, trimStart s = c :: r /\ is_ws c = false.
Proof.
  induction s as [|c s IH]; simpl; [left; reflexivity|].
  destruct (is_ws c) eqn:E; [exact IH | right; eauto].
Qed.

Lemma trimStart_idempotent (s : jsstring) : trimStart (trimStart s) = trimStart s.
Proof.
  destruct (trimStart_head s) as [->|(c & r & -> & Hc)]; [reflexivity|].
  apply trimStart_keeps, Hc.
Qed.

Lemma trimStart_keeps_last (l : jsstring) (c : N) :
  is_ws c = false -> exists u, trimStart (l ++ [c]) = u ++ [c].
Proof.
  intros Hc. induction l as [|d l (u & Hu)]; simpl.
  - rewrite Hc. exists []. reflexivity.
  - destruct (is_ws d); [eauto | exists (d :: l); reflexivity].
Qed.

Lemma trimEnd_keeps_head (c : N) (r : jsstring) :
  is_ws c = false -> exists r', trimEnd (c :: r) = c :: r'.
Proof.
  intros Hc. unfold trimEnd. cbn [rev].
  destruct (trimStart_keeps_last (rev r) c Hc) as (u & ->).
  exists (rev u). rewrite rev_app_distr. reflexivity.
Qed.

Lemma trim_idempotent (s : jsstring) : trim (trim s) = trim s.
Proof.
  unfold trim.
  destruct (trimStart_head s) as [->|(c & r & -> & Hc)]; [reflexivity|].
  destruct (trimEnd_keeps_head c r Hc) as (r' & Hr).
  rewrite Hr, (trimStart_keeps c r' Hc), <- Hr.
  unfold trimEnd. rewrite rev_involutive, trimStart_idempotent. reflexivity.
Qed.

(** What [cleanJSON] returns is a contiguous part of the text it was given,
    never text of its own, and has no white space left at either end. *)
Theorem cleanJSON_part_of_text (text : jsstring) :
  part_of (cleanJSON text) text /\ trim (cleanJSON text) = cleanJSON text.
Proof.
  unfold cleanJSON. split; [|apply trim_idempotent].
  eapply part_of_trans; [apply trim_part|].
  eapply part_of_trans; [|apply strip_fences_part].
  destruct (_ && _ && _); [apply slice_part | apply part_of_refl].
Qed.

Lemma app_eq_split {A} (p x p' y : list A) :
  p ++ x = p' ++ y -> (List.length p <= List.length p')%nat ->
  exists k, p' = p ++ k /\ x = k ++ y.
Proof.
  revert p'; induction p as [|a p IH]; intros p' Heq Hlen.
  - exists p'. auto.
  - destruct p' as [|b p']; [simpl in Hlen; lia|].
    simpl in Heq. injection Heq as -> Heq.
    destruct (IH p' Heq) as (k & -> & ->); [simpl in Hlen; lia|].
    exists k. auto.
Qed.

(** Whenever the text, once its fences are stripped, holds an opening brace
    with a closing brace after it, what [cleanJSON] returns begins with that
    opening brace and ends with that closing brace. *)
Theorem cleanJSON_braced (text : jsstring) :
  has_brace_pair (strip_fences text) = true ->
  exists mid, cleanJSON text = object_text mid.
Proof.
  unfold has_brace_pair, cleanJSON. set (t := strip_fences text). intros Hpair.
  rewrite Hpair.
  destruct (indexOf_unit lbrace t) as [(Ha & _)|(p & q & Ht & _ & Ha)].
  { rewrite Ha in Hpair. discriminate. }
  destruct (lastIndexOf_unit rbrace t) as [(Hb & _)|(p' & q' & Ht' & _ & Hb)].
  { rewrite Hb in Hpair. rewrite andb_false_r in Hpair. discriminate. }
  rewrite Ha, Hb in *.
  apply andb_true_iff in Hpair as [_ Hgt]. apply Z.gtb_lt in Hgt.
  rewrite Ht in Ht'.
  destruct (app_eq_split _ _ _ _ Ht' ltac:(lia)) as (k & Hp' & Hq).
  destruct k as [|c mid].
  { rewrite app_nil_r in Hp'. subst p'. lia. }
  simpl in Hq. injection Hq as <- Hq.
  exists mid. rewrite Ht, Hq.
  replace (Z.of_nat (List.length p') + 1)
    with (Z.of_nat (List.length p) + Z.of_nat (List.length (object_text mid))).
  - replace (p ++ lbrace :: mid ++ rbrace :: q')
      with (p ++ object_text mid ++ q').
    + rewrite slice_middle. apply trim_object_text.
    + unfold object_text. simpl. rewrite <- app_assoc. reflexivity.
  - rewrite Hp'. unfold object_text. cbn [List.length].
    rewrite !length_app. cbn [List.length]. lia.
Qed.

(* =================================================================== *)
(** * Further properties of [callChatJSON] *)
(* =================================================================== *)

(** An attempt calls the endpoint once or twice and takes no pause. *)
Lemma attempt_calls (w : world) :
  (calls w < calls (attempt w).2 <= calls w + 2)%nat
  /\ slept (attempt w).2 = slept w.
Proof.
  unfold attempt, chat.
  destruct (reply_at w (calls w)) as [last|e];
    [|cbn [snd calls slept]; split; [lia | reflexivity]].
  destruct (cleanJSON last); [cbn [snd calls slept]; split; [lia | reflexivity]|].
  destruct (JSON_parse _); [cbn [snd calls slept]; split; [lia | reflexivity]|].
  cbn [reply_at calls].
  destruct (reply_at w (S (calls w))) as [fixedText|e'];
    [|cbn [snd calls slept]; split; [lia | reflexivity]].
  destruct (cleanJSON fixedText); cbn [snd calls slept]; split; solve [lia | reflexivity].
Qed.

Lemma retry_loop_effort (maxAttempts : Z) (fuel : nat) :
  forall (k : nat) (w : world),
    (fuel = 0)%nat \/ Z.of_nat k + Z.of_nat fuel = maxAttempts ->
    (calls w <= calls (retry_loop maxAttempts fuel (Z.of_nat k + 1) (backoff k) w).2
     <= calls w + 2 * fuel)%nat
    /\ exists n : nat,
        (n <= fuel - 1)%nat
        /\ slept (retry_loop maxAttempts fuel (Z.of_nat k + 1) (backoff k) w).2
           = slept w ++ List.map backoff (seq k n).
Proof.
  induction fuel as [|fuel IH]; intros k w Hinv.
  - cbn [retry_loop snd]. split; [lia|]. exists 0%nat. cbn. rewrite app_nil_r. auto.
  - cbn [retry_loop].
    destruct (Z.leb_spec (Z.of_nat k + 1) maxAttempts) as [Hle|Hgt].
    2:{ cbn [snd]. split; [lia|]. exists 0%nat. cbn. rewrite app_nil_r. split; [lia|auto]. }
    pose proof (attempt_calls w) as (Hcalls & Hslept).
    destruct (attempt w) as [[v|e] w1]; cbn [snd] in *.
    { split; [lia|]. exists 0%nat. cbn. rewrite app_nil_r. split; [lia|auto]. }
    destruct (Z.eqb_spec (Z.of_nat k + 1) maxAttempts) as [Heq|Hne]; cbn [orb].
    { cbn [snd]. split; [lia|]. exists 0%nat. cbn. rewrite app_nil_r. split; [lia|auto]. }
    destruct (negb (isTransient (err_text e))).
    { cbn [snd]. split; [lia|]. exists 0%nat. cbn. rewrite app_nil_r. split; [lia|auto]. }
    rewrite backoff_next.
    replace (Z.of_nat k + 1 + 1) with (Z.of_nat (S k) + 1) by lia.
    destruct (IH (S k) (sleep (backoff k) w1)) as (Hc & n & Hn & Hs); [right; lia|].
    cbn [sleep calls slept] in Hc, Hs. split; [lia|].
    exists (S n). split; [lia|].
    rewrite Hs, Hslept, <- app_assoc. reflexivity.
Qed.

(** Whatever the endpoint answers, a call of [callChatJSON] asks it at most
    twice per attempt allowed, and the pauses it takes are the first ones of
    the back-off sequence (450 ms doubled each time, at most 5000 ms), fewer
    of them than attempts allowed. *)
Theorem callChatJSON_effort_bounded (maxAttempts : Z) (w : world) :
  (calls w <= calls (callChatJSON maxAttempts w).2
   <= calls w + 2 * Z.to_nat maxAttempts)%nat
  /\ exists n : nat,
      Z.of_nat n < Z.max maxAttempts 1
      /\ slept (callChatJSON maxAttempts w).2 = slept w ++ List.map backoff (seq 0 n).
Proof.
  unfold callChatJSON.
  change 1 with (Z.of_nat 0 + 1) at 1 3. change 450 with (backoff 0).
  destruct (retry_loop_effort maxAttempts (Z.to_nat maxAttempts) 0 w)
    as (Hc & n & Hn & Hs).
  { destruct (Z.le_gt_cases maxAttempts 0); [left|right]; lia. }
  split; [exact Hc|]. exists n. split; [lia | exact Hs].
Qed.

Lemma retry_loop_plain_errors (maxAttempts : Z) (fuel : nat) :
  forall (attempt_no delay : Z) (w : world),
    match (retry_loop maxAttempts fuel attempt_no delay w).1 with
    | Throw e => ename e = js "Error"
    | Return _ => True
    end.
Proof.
  induction fuel as [|fuel IH]; intros attempt_no delay w; [reflexivity|].
  cbn [retry_loop].
  destruct (attempt_no <=? maxAttempts); [|reflexivity].
  destruct (attempt w) as [[v|e] w1]; [exact I|].
  destruct (_ || _); [reflexivity | apply IH].
Qed.

(** Every failure of [callChatJSON] is raised as a plain [Error]: the kind
    of the error the endpoint or the parser threw is not passed on, only its
    message. *)
Theorem callChatJSON_throws_plain_errors (maxAttempts : Z) (w : world) :
  match (callChatJSON maxAttempts w).1 with
  | Throw e => ename e = js "Error"
  | Return _ => True
  end.
Proof. apply retry_loop_plain_errors. Qed.

Lemma attempt_empty (w : world) (t : jsstring) :
  reply_at w (calls w) = Content t -> cleanJSON t = [] ->
  attempt w = (Throw (plain_error (js "Model returned empty content.")), (chat w).2).
Proof. intros Hr Hc. unfold attempt, chat. rewrite Hr, Hc. reflexivity. Qed.

Lemma after_attempts_empty (n : nat) :
  forall w : world,
    (forall i, exists t, reply_at w i = Content t /\ cleanJSON t = []) ->
    after_attempts n w
    = World (reply_at w) (calls w + n) (slept w)
            (session_id_at w) (timestamp_at w) (started w)
            (write_error_at w) (writes w).
Proof.
  induction n as [|n IH]; intros w Hall.
  - cbn [after_attempts]. rewrite Nat.add_0_r. destruct w; reflexivity.
  - cbn [after_attempts]. destruct (Hall (calls w)) as (t & Hr & Hc).
    rewrite (attempt_empty w t Hr Hc). cbn [snd chat].
    rewrite IH; [|exact Hall]. cbn. f_equal. lia.
Qed.

Lemma outcome_at_empty (w : world) (n : nat) :
  (forall i, exists t, reply_at w i = Content t /\ cleanJSON t = []) ->
  outcome_at w n = Throw (plain_error (js "Model returned empty content.")).
Proof.
  intros Hall. unfold outcome_at. rewrite after_attempts_empty by exact Hall.
  destruct (Hall (calls w + n)%nat) as (t & Hr & Hc).
  erewrite attempt_empty; [reflexivity | exact Hr | exact Hc].
Qed.

(** An endpoint that only ever answers with empty text (or white space, or
    bare fences) is asked once per attempt allowed, with a pause between two
    attempts, and the call then fails with the empty-content message: empty
    content counts as a transient failure. *)
Theorem callChatJSON_empty_content_exhausts (maxAttempts : Z) (w : world) :
  1 <= maxAttempts ->
  (forall i, exists t, reply_at w i = Content t /\ cleanJSON t = []) ->
  (callChatJSON maxAttempts w).1
  = Throw (plain_error (js "Model returned empty content."))
  /\ calls (callChatJSON maxAttempts w).2 = (calls w + Z.to_nat maxAttempts)%nat
  /\ slept (callChatJSON maxAttempts w).2
     = slept w ++ List.map backoff (seq 0 (Z.to_nat maxAttempts - 1)).
Proof.
  intros Hmax Hall. unfold callChatJSON.
  change 1 with (Z.of_nat 0 + 1) at 1 2 3. change 450 with (backoff 0).
  rewrite (retry_loop_runs maxAttempts (Z.to_nat maxAttempts - 1) 0).
  - rewrite outcome_at_empty by exact Hall.
    rewrite after_attempts_empty by exact Hall. cbn.
    repeat split. f_equal. lia.
  - lia.
  - lia.
  - intros i _. rewrite outcome_at_empty by exact Hall. vm_compute. reflexivity.
  - right. lia.
Qed.

(* =================================================================== *)
(** * Further properties of the routes *)
(* =================================================================== *)

Lemma body_string_cases (body : value) (field fallback : jsstring) :
  (exists s, body_string body field fallback = Return s
             /\ stringifiable (text_field body field fallback) = true)
  \/ (body_string body field fallback = Throw TypeError_primitive
      /\ stringifiable (text_field body field fallback) = false).
Proof.
  unfold body_string, text_field.
  pose proof (ToString_outcome (or_else (get_opt body field) (VStr fallback))) as H.
  destruct (ToString _) as [s|e]; [left; eauto|].
  destruct H as [-> H]. right. split; [reflexivity | exact H].
Qed.

Lemma body_string_converts (body : value) (field fallback s : jsstring) :
  body_string body field fallback = Return s ->
  stringifiable (text_field body field fallback) = true.
Proof.
  intros H. destruct (body_string_cases body field fallback) as [(s' & _ & Hs)|[Ht _]];
    [exact Hs | congruence].
Qed.

(** The conversions of the two routes that generate an answer succeed,
    with the session id of the body, exactly when its fields convert. *)
Lemma auto_fields_cases (body : value) :
  (exists sid, auto_fields body = Return sid
               /\ body_string body (js "sessionId") [] = Return sid
               /\ request_converts (AutoAnswer body) = true)
  \/ (auto_fields body = Throw TypeError_primitive
      /\ request_converts (AutoAnswer body) = false).
Proof.
  unfold auto_fields. cbn [request_converts].
  destruct (body_string_cases body (js "sessionId") []) as [(sid & -> & ->)|[-> ->]];
    [|right; split; reflexivity].
  rewrite bind_Return.
  destruct (body_string_cases body (js "which") (js "A")) as [(which & -> & ->)|[-> ->]];
    [|right; split; reflexivity].
  rewrite bind_Return.
  pose proof (clampInt_outcome
                (nullish_else (get_opt body (js "level")) (VNum (Finite 6))) 1 9) as H.
  destruct (clampInt _ 1 9) as [level|e].
  - destruct H as [-> _]. left. exists sid. repeat split.
  - destruct H as [-> ->]. right. split; reflexivity.
Qed.

(** Every route that names a session leaves the server as it was when no
    session is registered under the id of the body: no session is touched
    and the model is not asked. It answers 400 when the fields of the body
    that it converts first can be converted, and otherwise 500 with the
    message of the [TypeError] of the conversion. *)
Theorem unknown_session_rejected (rq : request) (st : server) :
  names_session rq = true ->
  (forall sid, body_string (body_of rq) (js "sessionId") [] = Return sid ->
               sessions st !! sid = None) ->
  exists msg,
    handle rq st = (R_error (if request_converts rq then 400 else 500) msg, st)
    /\ (request_converts rq = false ->
        msg = js "Cannot convert object to primitive value").
Proof.
  intros Hn Hs. destruct rq; [discriminate|..]; cbn [handle body_of] in *.
  - unfold api_answer. cbn [request_converts].
    destruct (body_string_cases body (js "sessionId") []) as [(sid & Hsid & ->)|[-> ->]];
      [|eexists; split; reflexivity].
    rewrite Hsid.
    destruct (body_string_cases body (js "answer") []) as [(answer & -> & ->)|[-> ->]];
      [|eexists; split; reflexivity].
    rewrite (Hs sid Hsid). eexists. split; [reflexivity | discriminate].
  - unfold api_auto_answer.
    destruct (auto_fields_cases body) as [(sid & -> & Hsid & ->)|[-> ->]];
      [|eexists; split; reflexivity].
    rewrite (Hs sid Hsid). eexists. split; [reflexivity | discriminate].
  - unfold api_auto_exercise.
    change (request_converts (AutoExercise body)) with (request_converts (AutoAnswer body)).
    destruct (auto_fields_cases body) as [(sid & -> & Hsid & ->)|[-> ->]];
      [|eexists; split; reflexivity].
    rewrite (Hs sid Hsid). eexists. split; [reflexivity | discriminate].
  - unfold api_finish. cbn [request_converts].
    destruct (body_string_cases body (js "sessionId") []) as [(sid & Hsid & ->)|[-> ->]];
      [|eexists; split; reflexivity].
    rewrite Hsid.
    destruct (body_string_cases body (js "exerciseAnswer") []) as [(ex & -> & ->)|[-> ->]];
      [|eexists; split; reflexivity].
    rewrite (Hs sid Hsid). eexists. split; [reflexivity | discriminate].
Qed.

(** Once the cursor of a session is past its last question, a further answer
    whose fields convert is refused with status 500 and the message of the
    [TypeError] raised on reading the missing question, and a generated
    answer with status 400; neither changes the server, so the refused
    answer is not recorded. *)
Theorem answer_past_plan_end (body : value) (st : server) (s : Session) (sid : jsstring) :
  body_string body (js "sessionId") [] = Return sid ->
  sessions st !! sid = Some s ->
  (List.length (planQuestions s) <= idx s)%nat ->
  (request_converts (Answer body) = true ->
   api_answer body st
   = (R_error 500 (js "Cannot read properties of undefined (reading 'skill')"), st))
  /\ (request_converts (AutoAnswer body) = true ->
      api_auto_answer body st = (R_error 400 (js "No current question."), st)).
Proof.
  intros Hsid Hs Hend. apply lookup_ge_None_2 in Hend. split; intros Hconv.
  - unfold api_answer. rewrite Hsid. cbn [request_converts] in Hconv.
    apply andb_true_iff in Hconv as [_ Hanswer].
    destruct (body_string_cases body (js "answer") []) as [(answer & -> & _)|[_ Hno]];
      [|congruence].
    rewrite Hs, Hend. reflexivity.
  - unfold api_auto_answer.
    destruct (auto_fields_cases body) as [(sid' & -> & Hsid' & _)|[_ Hno]]; [|congruence].
    assert (sid' = sid) as -> by congruence.
    rewrite Hs, Hend. reflexivity.
Qed.


(** When a decision is asked for and comes back, the answer is recorded
    either way. If the decision wants a follow-up and gives its question,
    the session stays on its question with one follow-up less and the reply
    is the follow-up question under the skill of the current question;
    otherwise the session moves on as after a skipped answer. The decision
    is reached once the fields of the body and the skill and the question
    of the current question have been converted to strings. *)
Theorem api_answer_decision_taken
    (body : value) (st : server) (s : Session) (q : value)
    (sid answer skillName question : jsstring)
    (need : bool) (fq : value) (w1 : world) :
  body_string body (js "sessionId") [] = Return sid ->
  body_string body (js "answer") [] = Return answer ->
  sessions st !! sid = Some s ->
  planQuestions s !! idx s = Some q ->
  question_text q (js "skill") = Return skillName ->
  question_text q (js "question") = Return question ->
  asks_decision s answer = true ->
  decideFollowup (env st) = (Return (need, fq), w1) ->
  api_answer body st
  = if need && truthy fq
    then (R_next (VObj [(js "skill", VStr skillName); (js "question", fq)]),
          Server (<[sid := held_back s (answered skillName question answer)]> (sessions st))
                 w1)
    else (next_or_done s (S (idx s)),
          Server (<[sid := moved_on s (answered skillName question answer)]> (sessions st))
                 w1).
Proof.
  intros Hsid Hanswer Hs Hq Hskill Hquestion Hask Hdec.
  unfold api_answer. rewrite Hsid, Hanswer, Hs, Hq. cbn [default id].
  rewrite Hskill, Hquestion.
  unfold asks_decision in Hask. cbn [followupsLeft with_transcript env sessions].
  rewrite Hask, Hdec. destruct (need && truthy fq).
  - cbn [sessions]. rewrite insert_insert_eq. reflexivity.
  - unfold advance, next_or_done.
    cbn [planQuestions idx with_followupsLeft with_idx sessions env with_transcript].
    rewrite insert_insert_eq. destruct (_ <=? _)%nat; reflexivity.
Qed.

(* =================================================================== *)
(** * Sessions over any sequence of requests *)
(* =================================================================== *)

Lemma session_grows_refl (s : Session) : session_grows s s.
Proof.
  repeat split; try reflexivity. exists []. rewrite app_nil_r. split; [reflexivity|].
  simpl. lia.
Qed.

Lemma session_grows_trans (s1 s2 s3 : Session) :
  session_grows s1 s2 -> session_grows s2 s3 -> session_grows s1 s3.
Proof.
  intros (Hc & Hm & Hp & Ht & Hi & more & Hmore & Hlen)
         (Hc' & Hm' & Hp' & Ht' & Hi' & more' & Hmore' & Hlen').
  repeat split; try congruence; try lia.
  exists (more ++ more'). split.
  - rewrite Hmore', Hmore, app_assoc. reflexivity.
  - rewrite length_app. lia.
Qed.

Lemma buildInterviewPlan_nonempty (w w1 : world) (questions : list value) :
  buildInterviewPlan w = (Return questions, w1) -> questions <> [].
Proof.
  unfold buildInterviewPlan. destruct (callChatJSON 3 w) as [[plan|e] w'];
    intros H; injection H as H _; [|discriminate H].
  destruct (get plan (js "questions")) as [[| | | | |[|q qs]|]|e];
    try discriminate H.
  rewrite bind_Return in H. injection H as <-. discriminate.
Qed.

(** What one request does to the registry, with what it does to the session
    it changes: nothing; a registered session replaced by a later state of
    itself; a new session registered under the id the world issues next; or
    an id removed. *)
Lemma handle_sessions (rq : request) (st : server) :
  sessions (handle rq st).2 = sessions st
  \/ (exists sid s0 s1,
        sessions st !! sid = Some s0
        /\ sessions (handle rq st).2 = <[sid := s1]> (sessions st)
        /\ session_grows s0 s1
        /\ (followupsLeft s0 <= MAX_FOLLOWUPS_PER_SKILL ->
            followupsLeft s1 <= MAX_FOLLOWUPS_PER_SKILL))
  \/ (exists s,
        sessions (handle rq st).2
        = <[session_id_at (env st) (started (env st)) := s]> (sessions st)
        /\ idx s = 0%nat /\ transcript s = [] /\ planQuestions s <> []
        /\ followupsLeft s = MAX_FOLLOWUPS_PER_SKILL)
  \/ (exists sid, sessions (handle rq st).2 = delete sid (sessions st)).
Proof.
  destruct rq as [body|body|body|body|body]; cbn [handle].
  - unfold api_start. destruct matrix_file as [m|e]; [|left; reflexivity].
    destruct (body_string body _ _) as [candidate|e]; [|left; reflexivity].
    pose proof (buildInterviewPlan_ids (env st)) as [Hid Hst].
    destruct (buildInterviewPlan (env st)) as [[questions|e] w1] eqn:Hplan;
      cbn [snd] in *; [|left; reflexivity].
    right; right; left. unfold fresh_session. cbn [snd sessions].
    eexists. rewrite Hid, Hst. split; [reflexivity|].
    cbn. repeat split. exact (buildInterviewPlan_nonempty _ _ _ Hplan).
  - unfold api_answer.
    destruct (body_string body (js "sessionId") []) as [sid|e]; [|left; reflexivity].
    destruct (body_string body (js "answer") []) as [answer|e]; [|left; reflexivity].
    destruct (sessions st !! sid) as [s|] eqn:Hs; [|left; reflexivity].
    destruct (question_text _ (js "skill")) as [sk|e]; [|left; reflexivity].
    destruct (question_text _ (js "question")) as [qu|e]; [|left; reflexivity].
    set (entry := Build_QAEntry _ _ _).
    assert (forall s1 : Session,
               candidateName s1 = candidateName s -> matrix s1 = matrix s ->
               planQuestions s1 = planQuestions s -> createdAt s1 = createdAt s ->
               (idx s <= idx s1 <= S (idx s))%nat ->
               transcript s1 = transcript s ++ [entry] ->
               session_grows s s1) as Hgrows.
    { intros s1 H1 H2 H3 H4 H5 H6. repeat split; try assumption; try lia.
      exists [entry]. split; [exact H6 | simpl; lia]. }
    right; left. exists sid, s.
    destruct (_ && _ && _).
    + destruct (decideFollowup _) as [[[need fq]|e] w1].
      * destruct (need && truthy fq).
        -- eexists. split; [exact Hs|]. cbn [snd sessions].
           rewrite insert_insert_eq. split; [reflexivity|].
           split; [apply Hgrows; cbn; (reflexivity || lia) | cbn; lia].
        -- unfold advance. destruct (_ <=? _)%nat; eexists; (split; [exact Hs|]);
             cbn [snd sessions]; rewrite insert_insert_eq; (split; [reflexivity|]);
             (split; [apply Hgrows; cbn; (reflexivity || lia) | cbn; lia]).
      * eexists. split; [exact Hs|]. cbn [snd sessions]. split; [reflexivity|].
        split; [apply Hgrows; cbn; (reflexivity || lia) | cbn; lia].
    + unfold advance. destruct (_ <=? _)%nat; eexists; (split; [exact Hs|]);
        cbn [snd sessions]; rewrite insert_insert_eq; (split; [reflexivity|]);
        (split; [apply Hgrows; cbn; (reflexivity || lia) | cbn; lia]).
  - left. unfold api_auto_answer.
    destruct (auto_fields body) as [sid|e]; [|reflexivity].
    destruct (sessions st !! _) as [s|]; [|reflexivity].
    destruct (negb _); [reflexivity|].
    destruct (question_prompt _) as [[]|e]; [|reflexivity].
    destruct (callChatText (env st)) as [[[|c answer]|e] w1]; reflexivity.
  - left. unfold api_auto_exercise.
    destruct (auto_fields body) as [sid|e]; [|reflexivity].
    destruct (sessions st !! _) as [s|]; [|reflexivity].
    destruct (callChatText (env st)) as [[[|c answer]|e] w1]; reflexivity.
  - unfold api_finish.
    destruct (body_string body (js "sessionId") []) as [sid|e]; [|left; reflexivity].
    destruct (body_string body (js "exerciseAnswer") []) as [ex|e]; [|left; reflexivity].
    destruct (sessions st !! _) as [s|]; [|left; reflexivity].
    destruct (assess (matrix s) (env st)) as [norms w1].
    destruct (_ ≫= _) as [[norms' reports]|e]; [|left; reflexivity].
    destruct (writeFileSync w1) as [[u|e] w2]; [|left; reflexivity].
    right; right; right. eexists. reflexivity.
Qed.

Lemma handle_keeps_never_issued (sid : jsstring) (rq : request) (st : server) :
  never_issued_again sid (env st) -> never_issued_again sid (env (handle rq st).2).
Proof.
  intros Hfresh.
  destruct (handle_step rq st) as [_ Hids|? ? ? _ _ Hids _ _|? _ Hid Hst _ _|? _ Hids];
    try exact (never_issued_again_kept _ _ _ Hids Hfresh).
  intros n Hn. rewrite Hid. apply Hfresh. lia.
Qed.

(** Over any sequence of requests, a session that is still registered is a
    later state of what it was: its candidate, matrix, plan and creation time
    are unchanged, its cursor has not moved back, and its transcript has only
    been appended to, by at least one entry per question passed. (The id is
    taken not to be issued a second time by the generator of session ids.) *)
Theorem run_session_grows
    (rqs : list request) (st : server) (sid : jsstring) (s s' : Session) :
  never_issued_again sid (env st) ->
  sessions st !! sid = Some s ->
  sessions (run rqs st) !! sid = Some s' ->
  session_grows s s'.
Proof.
  revert st s; induction rqs as [|rq rqs IH]; intros st s Hfresh Hs Hs'.
  - cbn in Hs'. rewrite Hs in Hs'. injection Hs' as <-. apply session_grows_refl.
  - rewrite run_cons in Hs'.
    pose proof (handle_keeps_never_issued sid rq st Hfresh) as Hfresh'.
    destruct (handle_sessions rq st)
      as [Hsame|[(sid1 & s0 & s1 & Hs0 & Hupd & Hgrow & _)
                |[(s1 & Hreg & _)|(sid1 & Hdel)]]].
    + apply (IH _ s Hfresh'); [rewrite Hsame; exact Hs | exact Hs'].
    + destruct (decide (sid1 = sid)) as [->|Hne].
      * rewrite Hs in Hs0. injection Hs0 as <-.
        apply (session_grows_trans _ s1); [exact Hgrow|].
        apply (IH _ s1 Hfresh'); [rewrite Hupd; apply lookup_insert_eq | exact Hs'].
      * apply (IH _ s Hfresh'); [|exact Hs'].
        rewrite Hupd, lookup_insert_ne by exact Hne. exact Hs.
    + apply (IH _ s Hfresh'); [|exact Hs'].
      rewrite Hreg, lookup_insert_ne; [exact Hs|].
      apply Hfresh. lia.
    + destruct (decide (sid1 = sid)) as [->|Hne].
      * assert (sessions (handle rq st).2 !! sid = None) as Hnone
          by (rewrite Hdel; apply lookup_delete_eq).
        rewrite (run_keeps_absent sid rqs _ Hnone Hfresh') in Hs'. discriminate.
      * apply (IH _ s Hfresh'); [|exact Hs'].
        rewrite Hdel, lookup_delete_ne by exact Hne. exact Hs.
Qed.

Lemma session_grows_sound (s0 s1 : Session) :
  session_grows s0 s1 ->
  (followupsLeft s0 <= MAX_FOLLOWUPS_PER_SKILL ->
   followupsLeft s1 <= MAX_FOLLOWUPS_PER_SKILL) ->
  session_sound s0 -> session_sound s1.
Proof.
  intros (_ & _ & Hp & _ & Hi & more & Hmore & Hlen) Hleft (Hplan & Hf & Hidx).
  repeat split.
  - rewrite Hp. exact Hplan.
  - exact (Hleft Hf).
  - rewrite Hmore, length_app. lia.
Qed.

Lemma run_keeps_sound (rqs : list request) (st : server) :
  (forall id x, sessions st !! id = Some x -> session_sound x) ->
  forall id x, sessions (run rqs st) !! id = Some x -> session_sound x.
Proof.
  revert st; induction rqs as [|rq rqs IH]; intros st Hok; [exact Hok|].
  rewrite run_cons. apply IH. intros id x Hx.
  destruct (handle_sessions rq st)
    as [Hsame|[(sid1 & s0 & s1 & Hs0 & Hupd & Hgrow & Hleft)
              |[(s1 & Hreg & Hidx & Htr & Hplan & Hf)|(sid1 & Hdel)]]].
  - rewrite Hsame in Hx. exact (Hok _ _ Hx).
  - rewrite Hupd in Hx. destruct (decide (sid1 = id)) as [->|Hne].
    + rewrite lookup_insert_eq in Hx. injection Hx as <-.
      exact (session_grows_sound _ _ Hgrow Hleft (Hok _ _ Hs0)).
    + rewrite lookup_insert_ne in Hx by exact Hne. exact (Hok _ _ Hx).
  - rewrite Hreg in Hx.
    destruct (decide (session_id_at (env st) (started (env st)) = id)) as [<-|Hne].
    + rewrite lookup_insert_eq in Hx. injection Hx as <-.
      repeat split; [exact Hplan | lia | rewrite Hidx; lia].
    + rewrite lookup_insert_ne in Hx by exact Hne. exact (Hok _ _ Hx).
  - rewrite Hdel in Hx. destruct (decide (sid1 = id)) as [->|Hne].
    + rewrite lookup_delete_eq in Hx. discriminate.
    + rewrite lookup_delete_ne in Hx by exact Hne. exact (Hok _ _ Hx).
Qed.

Lemma run_from_empty_sound (rqs : list request) (w : world) (sid : jsstring) (s : Session) :
  sessions (run rqs (Server ∅ w)) !! sid = Some s -> session_sound s.
Proof.
  apply run_keeps_sound. intros id x Hx. cbn in Hx.
  rewrite lookup_empty in Hx. discriminate.
Qed.

(** From the start of the server, whatever the requests and the replies of
    the model: every registered session has a plan with at least one
    question, a follow-up budget that does not exceed the maximum, and at
    least one recorded answer for each question its cursor has passed. *)
Theorem run_sessions_sound
    (rqs : list request) (w : world) (sid : jsstring) (s : Session) :
  sessions (run rqs (Server ∅ w)) !! sid = Some s ->
  session_sound s.
Proof.
  apply run_keeps_sound. intros id x Hx. cbn in Hx.
  rewrite lookup_empty in Hx. discriminate.
Qed.

(** With follow-ups disabled (a maximum of 0), handling an answer never asks
    the model and never pauses, in any state the server can reach. *)
Theorem followups_disabled_no_model_call
    (rqs : list request) (w : world) (body : value) :
  MAX_FOLLOWUPS_PER_SKILL <= 0 ->
  let st := run rqs (Server ∅ w) in
  env (api_answer body st).2 = env st.
Proof.
  intros Hmax st. unfold api_answer.
  destruct (body_string body (js "sessionId") []) as [sid|e]; [|reflexivity].
  destruct (body_string body (js "answer") []) as [answer|e]; [|reflexivity].
  destruct (sessions st !! _) as [s|] eqn:Hs; [|reflexivity].
  destruct (run_from_empty_sound _ _ _ _ Hs) as (_ & Hleft & _).
  destruct (question_text _ (js "skill")) as [sk|e]; [|reflexivity].
  destruct (question_text _ (js "question")) as [qu|e]; [|reflexivity].
  cbn [followupsLeft with_transcript].
  destruct (Z.gtb_spec (followupsLeft s) 0) as [Hgt|_]; [lia|].
  cbn [andb]. unfold advance. destruct (_ <=? _)%nat; reflexivity.
Qed.

(* =================================================================== *)
(** * Further properties of [compareMulti] *)
(* =================================================================== *)

Lemma scored_by_range (skill_name : jsstring) (r : Assessed) (z : Z) :
  Forall score_in_range (skill_scores (norm r)) -> scored_by skill_name r z -> 1 <= z <= 9.
Proof.
  intros H [(before & e & after & Hl & _ & _ & ->)|[_ ->]]; [|lia].
  rewrite List.Forall_forall in H. apply H. rewrite Hl.
  apply in_or_app. right. left. reflexivity.
Qed.

Lemma well_formed_row_bounded (results : list Assessed) (row : DisagreementRow) :
  scores_in_range results -> well_formed_row results row -> row_bounded row.
Proof.
  intros Hrange (Hsc & [Hmin_in Hmin_all] & [Hmax_in Hmax_all] & Hsp).
  assert (forall v, In v (scores row) -> 1 <= v <= 9) as Hin.
  { unfold scores_in_range in Hrange. clear Hmin_in Hmin_all Hmax_in Hmax_all.
    induction Hsc as [|r z rs zs Hz _ IH]; [intros v []|].
    apply List.Forall_cons_iff in Hrange as [Hr Hrs].
    intros v [<-|Hv]; [exact (scored_by_range _ _ _ Hr Hz) | exact (IH Hrs v Hv)]. }
  pose proof (Hin _ Hmin_in). pose proof (Hin _ Hmax_in).
  rewrite List.Forall_forall in Hmin_all. pose proof (Hmin_all _ Hmax_in).
  unfold row_bounded. lia.
Qed.

(** When every assessor's scores lie between 1 and 9, every row of the
    disagreement analysis has its least and greatest score between 1 and 9,
    the least not above the greatest, and a spread between 0 and 8. *)
Theorem compareMulti_spread_range (results : list Assessed) :
  scores_in_range results -> Forall row_bounded (rows (compareMulti results)).
Proof.
  intros Hrange. unfold compareMulti. cbn [rows].
  eapply Permutation_Forall; [symmetry; apply (Array_sort_perm spread)|].
  eapply List.Forall_impl; [|apply unsorted_rows_well_formed].
  intros row. apply well_formed_row_bounded, Hrange.
Qed.

Lemma StronglySorted_app_dominates {A} (R : A -> A -> Prop) (l1 l2 : list A) :
  StronglySorted R (l1 ++ l2) -> Forall (fun a => Forall (R a) l2) l1.
Proof.
  induction l1 as [|a l1 IH]; intros H; [constructor|].
  cbn [app] in H. apply StronglySorted_inv in H as [Hs Ha].
  constructor; [|exact (IH Hs)].
  apply List.Forall_app in Ha. apply Ha.
Qed.

(** [biggest_disagreements] holds at most five rows, and no row left out of
    it has a larger spread than a row in it. *)
Theorem compareMulti_biggest_dominate (results : list Assessed) :
  let out := compareMulti results in
  (List.length (biggest_disagreements out) <= 5)%nat
  /\ Forall (fun a => Forall (fun b => spread b <= spread a) (skipn 5 (rows out)))
            (biggest_disagreements out).
Proof.
  cbn zeta. unfold compareMulti. cbn [rows biggest_disagreements].
  set (sorted := Array_sort _ _). split; [rewrite length_firstn; lia|].
  pose proof (Array_sort_sorted spread (unsorted_rows results)) as Hs.
  fold sorted in Hs. rewrite <- (firstn_skipn 5 sorted) in Hs.
  apply StronglySorted_app_dominates in Hs.
  eapply List.Forall_impl; [|exact Hs].
  intros a Ha. eapply List.Forall_impl; [|exact Ha]. cbv beta. intros b. lia.
Qed.

(* =================================================================== *)
(** * What each route can answer *)
(* =================================================================== *)

(** The start route answers with a new session or with status 500. A new
    session is registered under the id the generator issues next, for the
    candidate named in the body ("Candidate" when none is), at the first
    question of its plan, which is the question returned, with an empty
    transcript and the full follow-up budget. When the route fails, no
    session is registered. *)
Theorem api_start_outcome (body : value) (st : server) :
  match (api_start body st).1 with
  | R_started sid next =>
      sid = session_id_at (env st) (started (env st))
      /\ exists s,
          sessions (api_start body st).2 = <[sid := s]> (sessions st)
          /\ body_string body (js "candidateName") (js "Candidate")
             = Return (candidateName s)
          /\ planQuestions s !! 0%nat = Some next
          /\ idx s = 0%nat /\ transcript s = []
          /\ followupsLeft s = MAX_FOLLOWUPS_PER_SKILL
  | R_error status _ =>
      status = 500 /\ sessions (api_start body st).2 = sessions st
  | _ => False
  end.
Proof.
  unfold api_start. destruct matrix_file as [m|e]; [|split; reflexivity].
  destruct (body_string body _ _) as [candidate|e]; [|split; reflexivity].
  pose proof (buildInterviewPlan_ids (env st)) as [Hid Hst].
  destruct (buildInterviewPlan (env st)) as [[questions|e] w1] eqn:Hplan;
    cbn [snd] in *; [|split; reflexivity].
  pose proof (buildInterviewPlan_nonempty _ _ _ Hplan) as Hne.
  destruct questions as [|q qs]; [congruence|].
  unfold fresh_session. cbn [fst snd sessions]. rewrite Hid, Hst.
  split; [reflexivity|]. eexists. split; [reflexivity|]. repeat split.
Qed.

Lemma assess_returns (m : Matrix) (w w1 : world)
    (norms : list (jsstring * AssessmentResult)) :
  assess m w = (Return norms, w1) ->
  exists n1 n2 n3 raw1 raw2 raw3,
    norms = [(js "A1", n1); (js "A2", n2); (js "A3", n3)]
    /\ normalizeAssessorResult m raw1 (js "strict") = Return n1
    /\ normalizeAssessorResult m raw2 (js "diverse") = Return n2
    /\ normalizeAssessorResult m raw3 (js "diverse") = Return n3.
Proof.
  unfold assess.
  destruct (callChatJSON 3 w) as [[raw1|e] w']; [|discriminate].
  destruct (callChatJSON 3 w') as [[raw2|e] w'']; [|discriminate].
  destruct (callChatJSON 3 w'') as [[raw3|e] w''']; [|discriminate].
  intros H. injection H as H _.
  destruct (normalizeAssessorResult m raw1 _) as [n1|e] eqn:E1; [|discriminate H].
  destruct (normalizeAssessorResult m raw2 _) as [n2|e] eqn:E2; [|discriminate H].
  destruct (normalizeAssessorResult m raw3 _) as [n3|e] eqn:E3; [|discriminate H].
  injection H as <-. exists n1, n2, n3, raw1, raw2, raw3. auto.
Qed.

Lemma report_returns (m : Matrix) (norm : AssessmentResult) (r : number * AssessmentResult) :
  report m norm = Return r ->
  r.2 = norm /\ exists z, r.1 = Finite (inject_Z z) /\ 0 <= z <= 100.
Proof.
  unfold report. destruct (overall_percentage m norm) as (z & -> & Hz).
  rewrite bind_Return. destruct (renderReportMarkdown norm) as [[]|e]; [|discriminate].
  rewrite bind_Return. intros [= <-]. split; [reflexivity|]. exists z. split; [reflexivity | exact Hz].
Qed.

(** The finish route answers with three reports or with an error, and an
    error leaves every session registered (so finishing can be retried).
    The error is a 500 with the message of the [TypeError] when the session
    id or the exercise answer of the body cannot be converted to a string;
    otherwise a 400 for an unknown session, and a 500 for a registered one.
    Reports are given for a registered session only: each has an overall
    score that is an integer between 0 and 100, the normalized result
    behind it scores every skill of the session's matrix, in the matrix's
    order, between 1 and 9, and the disagreement analysis returned has one
    row per skill of the matrix, each with a spread between 0 and 8. *)
Theorem api_finish_outcome (body : value) (st : server) :
  match (api_finish body st).1 with
  | R_finished results d =>
      exists sid s,
        body_string body (js "sessionId") [] = Return sid
        /\ sessions st !! sid = Some s
        /\ List.length results = 3%nat
        /\ Forall (fun r => (exists z, r.1 = Finite (inject_Z z) /\ 0 <= z <= 100)
                            /\ List.map skill (skill_scores r.2)
                               = List.map name (skills (matrix s))
                            /\ Forall score_in_range (skill_scores r.2)) results
        /\ List.length (rows d) = List.length (skills (matrix s))
        /\ Forall row_bounded (rows d)
  | R_error status msg =>
      sessions (api_finish body st).2 = sessions st
      /\ if request_converts (Finish body)
         then exists sid,
                body_string body (js "sessionId") [] = Return sid
                /\ match sessions st !! sid with
                   | None => status = 400 /\ msg = js "Session not found. Start again."
                   | Some _ => status = 500
                   end
         else status = 500 /\ msg = js "Cannot convert object to primitive value"
  | _ => False
  end.
Proof.
  unfold api_finish. cbn [request_converts].
  destruct (body_string_cases body (js "sessionId") []) as [(sid & -> & ->)|[-> ->]];
    [|repeat split].
  destruct (body_string_cases body (js "exerciseAnswer") []) as [(ex & -> & ->)|[-> ->]];
    [|repeat split].
  cbn [andb].
  destruct (sessions st !! sid) as [s|] eqn:Hs.
  2:{ cbn [fst snd]. split; [reflexivity|]. exists sid. rewrite Hs. repeat split. }
  destruct (assess (matrix s) (env st)) as [norms w1] eqn:Hassess.
  destruct norms as [norms|e].
  2:{ cbn [fst snd sessions]. split; [reflexivity|]. exists sid. rewrite Hs. repeat split. }
  rewrite bind_Return.
  destruct (mapM _ norms) as [reports|e] eqn:Hreports.
  2:{ cbn [fst snd sessions]. split; [reflexivity|]. exists sid. rewrite Hs. repeat split. }
  rewrite bind_Return. cbn [mret result_ret].
  destruct (writeFileSync w1) as [[u|e] w2].
  2:{ cbn [fst snd sessions]. split; [reflexivity|]. exists sid. rewrite Hs. repeat split. }
  cbn [fst]. exists sid, s. split; [reflexivity|]. split; [exact Hs|].
  destruct (assess_returns _ _ _ _ Hassess)
    as (n1 & n2 & n3 & raw1 & raw2 & raw3 & -> & E1 & E2 & E3).
  destruct (normalizeAssessorResult_complete _ _ _ _ E1) as (Hs1 & Hr1 & _).
  destruct (normalizeAssessorResult_complete _ _ _ _ E2) as (Hs2 & Hr2 & _).
  destruct (normalizeAssessorResult_complete _ _ _ _ E3) as (Hs3 & Hr3 & _).
  apply mapM_inv in Hreports.
  apply Forall2_cons_inv_l in Hreports as (r1 & rest & H1 & Hreports & ->).
  apply Forall2_cons_inv_l in Hreports as (r2 & rest' & H2 & Hreports & ->).
  apply Forall2_cons_inv_l in Hreports as (r3 & rest'' & H3 & Hreports & ->).
  apply Forall2_nil_inv_l in Hreports as ->.
  cbn [snd] in H1, H2, H3.
  destruct (report_returns _ _ _ H1) as [Hn1 Ho1].
  destruct (report_returns _ _ _ H2) as [Hn2 Ho2].
  destruct (report_returns _ _ _ H3) as [Hn3 Ho3].
  cbn [List.map fst snd]. split; [reflexivity|]. split.
  { rewrite <- Hn1 in Hs1, Hr1. rewrite <- Hn2 in Hs2, Hr2. rewrite <- Hn3 in Hs3, Hr3.
    repeat constructor; assumption. }
  set (results := [_; _; _]).
  assert (Permutation (rows (compareMulti results)) (unsorted_rows results)) as Hperm
    by apply (Array_sort_perm spread).
  split.
  - rewrite (Permutation_length Hperm). unfold unsorted_rows, results. cbn [norm].
    rewrite length_map, Hs1, length_map. reflexivity.
  - eapply Permutation_Forall; [symmetry; exact Hperm|].
    eapply List.Forall_impl; [|apply unsorted_rows_well_formed].
    intros row. apply well_formed_row_bounded.
    unfold scores_in_range, results. repeat constructor; assumption.
Qed.

Lemma callChatText_outcome (w : world) :
  calls (callChatText w).2 = S (calls w)
  /\ match (callChatText w).1 with
     | Return a => trim a = a
     | Throw _ => True
     end.
Proof.
  unfold callChatText, chat. destruct (reply_at w (calls w)) as [text|e]; cbn [fst snd calls].
  - split; [reflexivity | apply trim_idempotent].
  - split; [reflexivity | exact I].
Qed.

(** The two routes that generate an answer leave the registry alone and ask
    the model at most once; an answer they return is never empty and has no
    white space around it, and their refusals have status 400 or 500. *)
Theorem auto_routes_outcome (body : value) (st : server) :
  generated_answer_outcome st (api_auto_answer body st)
  /\ generated_answer_outcome st (api_auto_exercise body st).
Proof.
  unfold generated_answer_outcome, api_auto_answer, api_auto_exercise.
  pose proof (callChatText_outcome (env st)) as [Hcalls Htrim].
  destruct (auto_fields body) as [sid|e].
  2:{ cbn [fst snd]. repeat split; solve [lia | right; reflexivity]. }
  destruct (sessions st !! _) as [s|].
  2:{ cbn [fst snd]. repeat split; solve [lia | left; reflexivity]. }
  split.
  - destruct (negb _).
    { cbn [fst snd]. repeat split; solve [lia | left; reflexivity]. }
    destruct (question_prompt _) as [[]|e].
    2:{ cbn [fst snd]. repeat split; solve [lia | right; reflexivity]. }
    destruct (callChatText (env st)) as [[[|c answer]|e] w1];
      cbn [fst snd sessions env] in *; repeat split;
      solve [lia | right; reflexivity | discriminate | exact Htrim].
  - destruct (callChatText (env st)) as [[[|c answer]|e] w1];
      cbn [fst snd sessions env] in *; repeat split;
      solve [lia | right; reflexivity | discriminate | exact Htrim].
Qed.

Lemma auto_answer_calls (body : value) (st : server) :
  (calls (env st) <= calls (env (api_auto_answer body st).2) <= calls (env st) + 1)%nat.
Proof.
  unfold api_auto_answer.
  destruct (auto_fields body) as [sid|e]; [|cbn; lia].
  destruct (sessions st !! _) as [s|]; [|cbn; lia].
  destruct (negb _); [cbn; lia|].
  destruct (question_prompt _) as [[]|e]; [|cbn; lia].
  pose proof (callChatText_outcome (env st)) as [Hcalls _].
  destruct (callChatText (env st)) as [[[|c answer]|e] w1]; cbn [snd env] in *; lia.
Qed.

Lemma auto_exercise_calls (body : value) (st : server) :
  (calls (env st) <= calls (env (api_auto_exercise body st).2) <= calls (env st) + 1)%nat.
Proof.
  unfold api_auto_exercise.
  destruct (auto_fields body) as [sid|e]; [|cbn; lia].
  destruct (sessions st !! _) as [s|]; [|cbn; lia].
  pose proof (callChatText_outcome (env st)) as [Hcalls _].
  destruct (callChatText (env st)) as [[[|c answer]|e] w1]; cbn [snd env] in *; lia.
Qed.

Lemma callChatJSON_3_calls (w : world) :
  (calls w <= calls (callChatJSON 3 w).2 <= calls w + 6)%nat.
Proof.
  unfold callChatJSON.
  change 1 with (Z.of_nat 0 + 1). change 450 with (backoff 0).
  destruct (retry_loop_effort 3 (Z.to_nat 3) 0 w) as (Hc & _); [right; lia|].
  lia.
Qed.

Lemma assess_calls (m : Matrix) (w : world) :
  (calls w <= calls (assess m w).2 <= calls w + 18)%nat.
Proof.
  unfold assess.
  pose proof (callChatJSON_3_calls w) as H1.
  destruct (callChatJSON 3 w) as [[raw1|e] w1]; cbn [snd] in *; [|lia].
  pose proof (callChatJSON_3_calls w1) as H2.
  destruct (callChatJSON 3 w1) as [[raw2|e] w2]; cbn [snd] in *; [|lia].
  pose proof (callChatJSON_3_calls w2) as H3.
  destruct (callChatJSON 3 w2) as [[raw3|e] w3]; cbn [snd] in *; lia.
Qed.

(** One request makes the server call the model endpoint a bounded number
    of times, whatever the endpoint answers: at most six calls to start a
    session or to handle an answer, one to generate an answer, eighteen to
    finish. *)
Theorem handle_calls_bounded (rq : request) (st : server) :
  (calls (env st) <= calls (env (handle rq st).2)
   <= calls (env st) + calls_allowed rq)%nat.
Proof.
  destruct rq as [body|body|body|body|body]; cbn [handle calls_allowed].
  - unfold api_start. destruct matrix_file as [m|e]; [|cbn; lia].
    destruct (body_string body _ _) as [candidate|e]; [|cbn; lia].
    unfold buildInterviewPlan.
    pose proof (callChatJSON_3_calls (env st)) as H.
    destruct (callChatJSON 3 (env st)) as [r w1]. cbn [snd] in H.
    destruct (_ ≫= _); cbn [fresh_session snd env calls]; lia.
  - unfold api_answer.
    destruct (body_string body (js "sessionId") []) as [sid|e]; [|cbn; lia].
    destruct (body_string body (js "answer") []) as [answer|e]; [|cbn; lia].
    destruct (sessions st !! _) as [s|]; [|cbn; lia].
    destruct (question_text _ (js "skill")) as [sk|e]; [|cbn; lia].
    destruct (question_text _ (js "question")) as [qu|e]; [|cbn; lia].
    assert (forall sid s1 st1, env (advance sid s1 st1).2 = env st1) as Hadv.
    { intros. unfold advance. destruct (_ <=? _)%nat; reflexivity. }
    destruct (_ && _ && _); [|rewrite Hadv; cbn; lia].
    unfold decideFollowup. cbn [env].
    destruct (_ =? 0).
    { destruct (false && _); [cbn; lia | rewrite Hadv; cbn; lia]. }
    pose proof (callChatJSON_3_calls (env st)) as H.
    destruct (callChatJSON 3 (env st)) as [r w1]. cbn [snd] in H.
    destruct (_ ≫= _) as [[need fq]|e]; [|cbn; lia].
    destruct (need && truthy fq); [cbn; lia | rewrite Hadv; cbn; lia].
  - pose proof (auto_answer_calls body st). lia.
  - pose proof (auto_exercise_calls body st). lia.
  - unfold api_finish.
    destruct (body_string body (js "sessionId") []) as [sid|e]; [|cbn; lia].
    destruct (body_string body (js "exerciseAnswer") []) as [ex|e]; [|cbn; lia].
    destruct (sessions st !! _) as [s|]; [|cbn; lia].
    pose proof (assess_calls (matrix s) (env st)) as H.
    destruct (assess (matrix s) (env st)) as [norms w1]; cbn [snd] in H.
    destruct (_ ≫= _) as [[norms' reports]|e]; [|cbn; lia].
    unfold writeFileSync. destruct (write_error_at w1 (writes w1)); cbn; lia.
Qed.

(* =================================================================== *)
(** * [safeFilename] *)
(* =================================================================== *)

Lemma replace_unsafe_runs_units (in_run : bool) (s : jsstring) :
  Forall (fun c => is_filename_unit c = true) (replace_unsafe_runs in_run s).
Proof.
  revert in_run; induction s as [|c s IH]; intros in_run; cbn [replace_unsafe_runs];
    [constructor|].
  destruct (is_filename_unit c) eqn:E; [constructor; [exact E | apply IH]|].
  destruct in_run; [apply IH | constructor; [reflexivity | apply IH]].
Qed.

Lemma strip_underscores_start_suffix (s : jsstring) :
  exists d, s = d ++ strip_underscores_start s /\ Forall (fun c => c = 95%N) d.
Proof.
  induction s as [|c s (d & Hd & Hall)]; cbn [strip_underscores_start].
  - exists []. auto.
  - destruct (N.eqb_spec c 95) as [->|Hne].
    + exists (95%N :: d). cbn. split; [congruence | constructor; auto].
    + exists []. auto.
Qed.

Lemma strip_underscores_start_head (s : jsstring) :
  head (strip_underscores_start s) <> Some 95%N.
Proof.
  induction s as [|c s IH]; cbn [strip_underscores_start]; [discriminate|].
  destruct (N.eqb_spec c 95) as [->|Hne]; [exact IH|].
  cbn. congruence.
Qed.

Lemma strip_underscores_start_keeps (s : jsstring) :
  head s <> Some 95%N -> strip_underscores_start s = s.
Proof.
  destruct s as [|c s]; [reflexivity|]. cbn. intros H.
  destruct (N.eqb_spec c 95) as [->|Hne]; [congruence | reflexivity].
Qed.

Lemma strip_underscores_part (s : jsstring) :
  exists d d', s = d ++ strip_underscores s ++ d'.
Proof.
  unfold strip_underscores.
  destruct (strip_underscores_start_suffix s) as (d & Hd & _).
  destruct (strip_underscores_start_suffix (rev (strip_underscores_start s)))
    as (d' & Hd' & _).
  exists d, (rev d'). rewrite <- rev_app_distr, <- Hd', rev_involutive. exact Hd.
Qed.

Lemma strip_underscores_ends (s : jsstring) : no_underscore_at_ends (strip_underscores s).
Proof.
  unfold no_underscore_at_ends, strip_underscores.
  set (y := strip_underscores_start s).
  pose proof (strip_underscores_start_head s) as Hy. fold y in Hy.
  destruct (strip_underscores_start_suffix (rev y)) as (d & Hd & _).
  set (x := strip_underscores_start (rev y)) in *.
  split; [|rewrite rev_involutive; apply strip_underscores_start_head].
  assert (y = rev x ++ rev d) as Hyx
    by (rewrite <- rev_app_distr, <- Hd, rev_involutive; reflexivity).
  destruct (rev x) as [|c r]; [discriminate|].
  rewrite Hyx in Hy. exact Hy.
Qed.

Lemma strip_underscores_keeps (s : jsstring) :
  no_underscore_at_ends s -> strip_underscores s = s.
Proof.
  intros [Hh Hl]. unfold strip_underscores.
  rewrite (strip_underscores_start_keeps s Hh).
  rewrite (strip_underscores_start_keeps (rev s) Hl). apply rev_involutive.
Qed.

Lemma safeFilename_units (name : jsstring) :
  Forall (fun c => is_filename_unit c = true) (safeFilename name).
Proof.
  unfold safeFilename. set (t := trim _).
  pose proof (replace_unsafe_runs_units false t) as H.
  destruct (strip_underscores_part (replace_unsafe_runs false t)) as (d & d' & Hd).
  rewrite Hd in H. apply List.Forall_app in H as [_ H].
  apply List.Forall_app in H as [H _]. exact H.
Qed.

(** A file stem made by [safeFilename] holds only ASCII letters, digits,
    underscores and hyphens, and neither begins nor ends with an
    underscore. *)
Theorem safeFilename_safe (name : jsstring) :
  Forall (fun c => is_filename_unit c = true) (safeFilename name)
  /\ no_underscore_at_ends (safeFilename name).
Proof.
  split; [apply safeFilename_units|].
  unfold safeFilename. apply strip_underscores_ends.
Qed.

Lemma replace_unsafe_runs_underscores (in_run : bool) (s : jsstring) :
  Forall (fun c => is_filename_unit c = false \/ c = 95%N) s ->
  Forall (fun c => c = 95%N) (replace_unsafe_runs in_run s).
Proof.
  intros H. revert in_run; induction H as [|c s Hc _ IH]; intros in_run;
    cbn [replace_unsafe_runs]; [constructor|].
  destruct (is_filename_unit c) eqn:E.
  - destruct Hc as [Hc| ->]; [discriminate|]. constructor; [reflexivity | apply IH].
  - destruct in_run; [apply IH | constructor; [reflexivity | apply IH]].
Qed.

Lemma strip_underscores_start_all (s : jsstring) :
  Forall (fun c => c = 95%N) s -> strip_underscores_start s = [].
Proof. induction 1 as [|c s -> _ IH]; [reflexivity | exact IH]. Qed.

(** The fallback name covers only the empty name: a name that is not empty
    but holds no letter, digit or hyphen (only blanks, underscores and other
    code units) gives the empty file stem. *)
Theorem safeFilename_empty_result (name : jsstring) :
  name <> [] ->
  Forall (fun c => is_filename_unit c = false \/ c = 95%N) name ->
  safeFilename name = [].
Proof.
  intros Hne Hall. unfold safeFilename, strip_underscores.
  destruct name as [|c0 name0]; [congruence|]. set (name := c0 :: name0) in *.
  destruct (trim_part name) as (p & q & Hname).
  rewrite Hname in Hall. apply List.Forall_app in Hall as [_ Hall].
  apply List.Forall_app in Hall as [Hall _].
  rewrite (strip_underscores_start_all _ (replace_unsafe_runs_underscores false _ Hall)).
  reflexivity.
Qed.

Lemma filename_unit_not_ws (c : N) : is_filename_unit c = true -> is_ws c = false.
Proof.
  unfold is_filename_unit, is_word, is_ws. intros H.
  repeat (apply orb_true_iff in H as [H|H]);
    repeat match goal with
           | H : _ && _ = true |- _ => apply andb_true_iff in H as [? ?]
           | H : (_ <=? _)%N = true |- _ => apply N.leb_le in H
           | H : (_ =? _)%N = true |- _ => apply N.eqb_eq in H
           end;
    repeat (apply orb_false_iff; split);
    repeat match goal with
           | |- _ && _ = false => apply andb_false_iff
           end;
    try (apply N.eqb_neq; lia);
    try (left; apply N.leb_gt; lia);
    try (right; apply N.leb_gt; lia).
Qed.

Lemma replace_unsafe_runs_keeps (s : jsstring) :
  Forall (fun c => is_filename_unit c = true) s -> replace_unsafe_runs false s = s.
Proof.
  induction 1 as [|c s Hc _ IH]; cbn [replace_unsafe_runs]; [reflexivity|].
  rewrite Hc, IH. reflexivity.
Qed.

Lemma trim_keeps (s : jsstring) :
  (forall c, head s = Some c -> is_ws c = false) ->
  (forall c, head (rev s) = Some c -> is_ws c = false) ->
  trim s = s.
Proof.
  intros Hh Hl. unfold trim, trimEnd.
  assert (forall t, (forall c, head t = Some c -> is_ws c = false) -> trimStart t = t)
    as Hkeep.
  { intros [|c t] H; [reflexivity|]. apply trimStart_keeps, H. reflexivity. }
  rewrite (Hkeep s Hh), (Hkeep (rev s) Hl). apply rev_involutive.
Qed.

(** A file stem that is not empty is left as it is when [safeFilename] is
    applied to it again. *)
Theorem safeFilename_idempotent (name : jsstring) :
  safeFilename name <> [] ->
  safeFilename (safeFilename name) = safeFilename name.
Proof.
  intros Hne.
  pose proof (safeFilename_units name) as Hunits.
  assert (no_underscore_at_ends (safeFilename name)) as Hends
    by (unfold safeFilename; apply strip_underscores_ends).
  set (r := safeFilename name) in *.
  assert (forall t c, Forall (fun c => is_filename_unit c = true) t ->
                      head t = Some c -> is_ws c = false) as Hhead.
  { intros [|c' t] c Ht Hc; [discriminate|]. injection Hc as <-.
    apply filename_unit_not_ws. inversion Ht; assumption. }
  unfold safeFilename at 1. destruct r as [|c0 r0] eqn:Er; [congruence|].
  rewrite <- Er in *. rewrite trim_keeps.
  - rewrite (replace_unsafe_runs_keeps _ Hunits). apply strip_underscores_keeps, Hends.
  - intros c. apply Hhead, Hunits.
  - intros c. apply Hhead, List.Forall_rev, Hunits.
Qed.

(* =================================================================== *)
(** * [getCoverage] *)
(* =================================================================== *)

Lemma answered_has_answer (transcript : list QAEntry) (s : jsstring) :
  bool_decide
    (s ∈ (list_to_set (List.filter (fun s => negb (str_eqb s []))
                                   (List.map qa_skill transcript)) : gset jsstring))
  = has_answer transcript s.
Proof.
  unfold has_answer. apply eq_true_iff_eq.
  rewrite bool_decide_eq_true, elem_of_list_to_set, list_elem_of_In, filter_In,
          andb_true_iff, in_map_iff, existsb_exists.
  split.
  - intros ((t & <- & Ht) & Hne). split; [exact Hne|].
    exists t. split; [exact Ht | apply str_eqb_eq; reflexivity].
  - intros (Hne & t & Ht & Heq). apply str_eqb_eq in Heq.
    split; [exists t; auto | exact Hne].
Qed.

Lemma getCoverage_count (transcript : list QAEntry) (skillNames : list jsstring) :
  count (getCoverage transcript skillNames)
  = List.length (List.filter (has_answer transcript) skillNames).
Proof.
  unfold getCoverage. cbn [count]. f_equal.
  apply filter_ext. intros s. apply answered_has_answer.
Qed.

Lemma filter_length_le {A} (f : A -> bool) (l : list A) :
  (List.length (List.filter f l) <= List.length l)%nat.
Proof.
  induction l as [|x l IH]; cbn; [lia|]. destruct (f x); cbn; lia.
Qed.

Lemma filter_length_mono {A} (f g : A -> bool) (l : list A) :
  (forall x, f x = true -> g x = true) ->
  (List.length (List.filter f l) <= List.length (List.filter g l))%nat.
Proof.
  intros Hfg. induction l as [|x l IH]; cbn; [lia|].
  destruct (f x) eqn:Ef.
  - rewrite (Hfg x Ef). cbn. lia.
  - destruct (g x); cbn; lia.
Qed.

(** The coverage counts the skill names that are not empty and are the skill
    of some entry of the transcript, once for each time the name is listed;
    several entries for one skill count once. The count never exceeds the
    number of names, and the fraction lies between 0 and 1, being 0 when
    there is no name at all. *)
Theorem getCoverage_bounds (transcript : list QAEntry) (skillNames : list jsstring) :
  let c := getCoverage transcript skillNames in
  count c = List.length (List.filter (has_answer transcript) skillNames)
  /\ total c = List.length skillNames
  /\ (count c <= total c)%nat
  /\ (0 <= fraction c)%Q /\ (fraction c <= 1)%Q
  /\ (if (total c =? 0)%nat then fraction c = 0%Q
      else fraction c = (inject_Z (Z.of_nat (count c)) / inject_Z (Z.of_nat (total c)))%Q).
Proof.
  cbn zeta. rewrite getCoverage_count.
  pose proof (filter_length_le (has_answer transcript) skillNames) as Hle.
  pose proof (getCoverage_count transcript skillNames) as Hcount.
  unfold getCoverage in *. cbn [count total fraction] in *.
  set (n := List.length (List.filter _ skillNames)) in *.
  rewrite Hcount. clear Hcount.
  split; [reflexivity|]. split; [reflexivity|]. split; [exact Hle|].
  destruct (Nat.eqb_spec (List.length skillNames) 0) as [H0|Hpos].
  - repeat split; (reflexivity || discriminate).
  - assert (0 < inject_Z (Z.of_nat (List.length skillNames)))%Q as Htot.
    { change 0%Q with (inject_Z 0). rewrite <- Zlt_Qlt. lia. }
    split; [|split; [|reflexivity]].
    + apply Qle_shift_div_l; [exact Htot|]. rewrite Qmult_0_l.
      change 0%Q with (inject_Z 0). rewrite <- Zle_Qle. lia.
    + apply Qle_shift_div_r; [exact Htot|]. rewrite Qmult_1_l.
      rewrite <- Zle_Qle. lia.
Qed.

Lemma has_answer_app (transcript more : list QAEntry) (s : jsstring) :
  has_answer transcript s = true -> has_answer (transcript ++ more) s = true.
Proof.
  unfold has_answer. rewrite !andb_true_iff, existsb_app, orb_true_iff.
  intros [H1 H2]. auto.
Qed.

(** Recording further answers never lowers the coverage: neither the count
    nor the fraction. *)
Theorem getCoverage_monotone
    (transcript more : list QAEntry) (skillNames : list jsstring) :
  (count (getCoverage transcript skillNames)
   <= count (getCoverage (transcript ++ more) skillNames))%nat
  /\ (fraction (getCoverage transcript skillNames)
      <= fraction (getCoverage (transcript ++ more) skillNames))%Q.
Proof.
  pose proof (getCoverage_count transcript skillNames) as H1.
  pose proof (getCoverage_count (transcript ++ more) skillNames) as H2.
  pose proof (filter_length_mono (has_answer transcript)
                (has_answer (transcript ++ more)) skillNames
                (has_answer_app transcript more)) as Hle.
  rewrite <- H1, <- H2 in Hle. split; [exact Hle|].
  unfold getCoverage in *. cbn [count fraction] in *.
  destruct (Nat.eqb_spec (List.length skillNames) 0) as [H0|Hpos]; [apply Qle_refl|].
  unfold Qdiv. apply Qmult_le_compat_r.
  - rewrite <- Zle_Qle. lia.
  - apply Qlt_le_weak, Qinv_lt_0_compat.
    change 0%Q with (inject_Z 0). rewrite <- Zlt_Qlt. lia.
Qed.

(* =================================================================== *)
(** * The two clamps and the two score scales *)
(* =================================================================== *)

Lemma Qle_bool_inject_Z (a b : Z) : Qle_bool (inject_Z a) (inject_Z b) = (a <=? b).
Proof. unfold Qle_bool. cbn. rewrite !Z.mul_1_r. reflexivity. Qed.

Lemma clamp_finite (q : Q) :
  exists z, clampInt (VNum (Finite q)) 1 9 = Return z
            /\ Assessment.clamp (Finite q) = Finite (inject_Z z).
Proof.
  rewrite clampInt_finite. eexists. split; [reflexivity|].
  unfold Assessment.clamp. cbn [Assessment.Math_round_number].
  set (z := Math_round q). unfold Assessment.Math_min_9.
  change 9%Q with (inject_Z 9). rewrite Qle_bool_inject_Z.
  destruct (Z.leb_spec z 9) as [H9|H9]; unfold Assessment.Math_max_1.
  - change 1%Q with (inject_Z 1). rewrite Qle_bool_inject_Z.
    destruct (Z.leb_spec 1 z) as [H1|H1]; do 2 f_equal; lia.
  - change (Qle_bool 1 (inject_Z 9)) with true. cbv iota. do 2 f_equal. lia.
Qed.

(** The clamp and the scale of the assessment module against those of the
    server, on a score that is a number. On a finite number and on minus
    infinity they agree: [clamp(n)] is [clampInt(n, 1, 9)] and
    [scoreTo100(clamp(n))] is [score1to9_to_0to100(n)]. They part on the
    other two numbers: the module lets [NaN] through, as the clamped score
    and as the score out of 100, and takes plus infinity to 9 and to 100,
    where the server gives 1 and 0 for both. *)
Theorem clamp_vs_clampInt (n : number) :
  match n with
  | NaN =>
      Assessment.clamp n = NaN /\ clampInt (VNum n) 1 9 = Return 1
      /\ Assessment.scoreTo100 (Assessment.clamp n) = NaN
      /\ score1to9_to_0to100 (VNum n) = Return 0
  | Infinity false =>
      Assessment.clamp n = Finite 9 /\ clampInt (VNum n) 1 9 = Return 1
      /\ Assessment.scoreTo100 (Assessment.clamp n) = Finite 100
      /\ score1to9_to_0to100 (VNum n) = Return 0
  | _ =>
      exists z p,
        clampInt (VNum n) 1 9 = Return z
        /\ Assessment.clamp n = Finite (inject_Z z)
        /\ score1to9_to_0to100 (VNum n) = Return p
        /\ Assessment.scoreTo100 (Assessment.clamp n) = Finite (inject_Z p)
  end.
Proof.
  destruct n as [q| |[|]]; [|repeat split | exists 1, 0; repeat split | repeat split].
  destruct (clamp_finite q) as (z & Hz & Hclamp).
  exists z, (level_to_0to100 (inject_Z z)).
  split; [exact Hz|]. split; [exact Hclamp|].
  unfold score1to9_to_0to100. rewrite Hz, Hclamp. split; reflexivity.
Qed.

(* =================================================================== *)
(** * The classification of failures *)
(* =================================================================== *)

(** The classification looks for its markers anywhere in the message: a
    message that is classified transient stays so with any text put before
    or after it. *)
Theorem isTransient_embedded (p m s : jsstring) :
  isTransient m = true -> isTransient (p ++ m ++ s) = true.
Proof.
  unfold isTransient, is429, toLowerCase. rewrite !List.map_app.
  rewrite !orb_true_iff.
  intros [[[[[H|H]|H]|H]|H]|H];
    [left; left; left; left; left | left; left; left; left; right
     | left; left; left; right | left; left; right | left; right | right];
    apply includes_embedded; exact H.
Qed.

End Host.

(* ===================================================================== *)
(** * The properties at concrete inputs *)
(* ===================================================================== *)

(** C3 does not hold as stated: the endpoint refuses the decision call, the
    route answers with the error, and the transcript of the session, empty
    before, now holds the submitted answer. *)
Lemma api_answer_failed_decision_grows_transcript :
  (api_answer no_number_text example_parse 1 example_answer_body
              (Server example_registry (world_with unauthorized))).1
  = R_error 500 (js "401 Unauthorized")
  /\ transcript example_session = []
  /\ transcript <$>
       sessions (api_answer no_number_text example_parse 1 example_answer_body
                            (Server example_registry (world_with unauthorized))).2
       !! js "s0"
     = Some [ {| qa_skill := js "A"; qa_question := js "Q"; qa_answer := js "I built it." |} ].
Proof. repeat split; vm_compute; reflexivity. Qed.

(** The amended C3 at that input. *)
Lemma api_answer_decision_failure_witness :
  body_string no_number_text example_answer_body (js "sessionId") [] = Return (js "s0")
  /\ body_string no_number_text example_answer_body (js "answer") []
     = Return (js "I built it.")
  /\ example_registry !! js "s0" = Some example_session
  /\ question_text no_number_text example_question (js "skill") = Return (js "A")
  /\ question_text no_number_text example_question (js "question") = Return (js "Q")
  /\ asks_decision example_session (js "I built it.") = true
  /\ exists s',
       (api_answer no_number_text example_parse 1 example_answer_body
                   (Server example_registry (world_with unauthorized))).1
       = R_error 500 (js "401 Unauthorized")
       /\ sessions (api_answer no_number_text example_parse 1 example_answer_body
                               (Server example_registry (world_with unauthorized))).2
          !! js "s0" = Some s'
       /\ idx s' = idx example_session
       /\ followupsLeft s' = followupsLeft example_session
       /\ planQuestions s' = planQuestions example_session
       /\ transcript s'
          = transcript example_session
            ++ [answered (js "A") (js "Q") (js "I built it.")].
Proof.
  split; [vm_compute; reflexivity|]. split; [vm_compute; reflexivity|].
  split; [vm_compute; reflexivity|]. split; [vm_compute; reflexivity|].
  split; [vm_compute; reflexivity|]. split; [vm_compute; reflexivity|].
  apply (api_answer_decision_failure no_number_text example_parse 1
           example_answer_body (Server example_registry (world_with unauthorized))
           example_session example_question
           (js "s0") (js "I built it.") (js "A") (js "Q")
           (plain_error (js "401 Unauthorized"))
           (decideFollowup example_parse 1 (world_with unauthorized)).2);
    vm_compute; reflexivity.
Defined.

(** C4 does not hold as stated: a brace in the text before the object
    moves the start of the slice, and what is returned is not the object. *)
Lemma cleanJSON_keeps_text_after_an_earlier_brace :
  cleanJSON (js "Result {final}: " ++ example_object) = js "{final}: " ++ example_object
  /\ js "{final}: " ++ example_object <> example_object.
Proof. split; [vm_compute; reflexivity | vm_compute; discriminate]. Qed.

(** The amended C4 on a fenced object. *)
Lemma cleanJSON_extraction_witness :
  ~ In lbrace (js "```json" ++ [10%N])
  /\ ~ In rbrace ([10%N] ++ js "```")
  /\ cleanJSON ((js "```json" ++ [10%N])
                ++ object_text (quoted (js "a") ++ js ":1")
                ++ ([10%N] ++ js "```"))
     = object_text (quoted (js "a") ++ js ":1").
Proof.
  assert (~ In lbrace (js "```json" ++ [10%N])) as Hpre.
  { vm_compute. intros H. repeat (destruct H as [H|H]; [discriminate H|]). exact H. }
  assert (~ In rbrace ([10%N] ++ js "```")) as Hsuf.
  { vm_compute. intros H. repeat (destruct H as [H|H]; [discriminate H|]). exact H. }
  split; [exact Hpre|]. split; [exact Hsuf|].
  exact (proj1 cleanJSON_extraction _ _ _ Hpre Hsuf).
Defined.

(** C5 at an endpoint that is rate-limited once and then refuses: one pause
    of 450 ms, a second attempt, and the error of that attempt raised. *)
Lemma callChatJSON_retry_policy_witness :
  Z.of_nat 1 < 3
  /\ fails_with_marker (outcome_at example_parse (world_with limited_then_unauthorized) 0)
  /\ ends_without_marker (outcome_at example_parse (world_with limited_then_unauthorized) 1)
  /\ callChatJSON example_parse 3 (world_with limited_then_unauthorized)
     = (Throw (plain_error (js "401 Unauthorized")),
        with_pauses [450]
          (after_attempts example_parse 2 (world_with limited_then_unauthorized))).
Proof.
  assert (fails_with_marker
            (outcome_at example_parse (world_with limited_then_unauthorized) 0)) as Hfirst.
  { left. exists [], (js " Too Many Requests"). vm_compute. reflexivity. }
  assert (ends_without_marker
            (outcome_at example_parse (world_with limited_then_unauthorized) 1)) as Hsecond.
  { intros H. apply isTransient_marker in H. vm_compute in H. discriminate H. }
  split; [lia|]. split; [exact Hfirst|]. split; [exact Hsecond|].
  apply (callChatJSON_retry_policy example_parse 3
           (world_with limited_then_unauthorized) 1).
  - lia.
  - intros i Hi. replace i with 0%nat by lia. exact Hfirst.
  - left. exact Hsecond.
Defined.

(** C6 does not hold as stated: the maximum is taken from the environment as
    it is, and with a maximum of -1 the session that a start registers has a
    follow-up budget of -1. *)
Lemma negative_maximum_gives_negative_budget :
  followupsLeft <$>
    sessions (run no_number_text example_parse (-1) (Return example_matrix)
                  [Start example_start_body] (Server ∅ (world_with cooperative)))
    !! js "s0"
  = Some (-1)
  /\ ~ 0 <= -1.
Proof. split; [vm_compute; reflexivity | lia]. Qed.

(** C8 at a raw output that scores A only: the entry of B is the
    synthesized one. *)
Lemma normalizeAssessorResult_synthesizes_missing_witness :
  In (js "B") (List.map name (skills example_matrix))
  /\ entry_key no_number_text
       (VObj [(js "skill", VStr (js "A")); (js "score_1_to_9", VNum (Finite 7))])
     <> Return (js "B")
  /\ exists r,
       normalizeAssessorResult no_number_text example_matrix example_raw (js "strict")
       = Return r
       /\ forall i : nat,
            List.map name (skills example_matrix) !! i = Some (js "B") ->
            exists e, skill_scores r !! i = Some e
              /\ e = default_entry (js "B") (js "strict")
              /\ skill e = js "B"
              /\ score_1_to_9 e = 1
              /\ confidence_low_med_high e = VStr (js "low")
              /\ evidence_bullets e = [VStr (js "No evidence captured for this skill.")]
              /\ List.length (risks e) = 2%nat
              /\ List.length (followups e) = 2%nat.
Proof.
  assert (In (js "B") (List.map name (skills example_matrix))) as Hin.
  { right. left. reflexivity. }
  assert (entry_key no_number_text
            (VObj [(js "skill", VStr (js "A")); (js "score_1_to_9", VNum (Finite 7))])
          <> Return (js "B")) as Hkey.
  { vm_compute. discriminate. }
  split; [exact Hin|]. split; [exact Hkey|].
  destruct (normalizeAssessorResult_synthesizes_missing no_number_text
              example_matrix example_raw (js "strict") (js "B") Hin) as [Hreturns Hentry].
  { intros x [<-|[]]. exact Hkey. }
  destruct (Hreturns eq_refl eq_refl) as [r Hr].
  exists r. split; [exact Hr | exact (Hentry r Hr)].
Defined.

(** C10 does not hold as stated: on a closing brace followed by an opening
    one the server keeps the text and the assessment module returns the
    empty string. *)
Lemma cleanJSON_modules_differ_on_reversed_braces :
  cleanJSON (js "} {") = js "} {" /\ Assessment.cleanJSON (js "} {") = [].
Proof. split; vm_compute; reflexivity. Qed.

(** C6 on a whole interview: a session is started, its only question is
    skipped, the interview is finished, and an answer and a new start follow.
    The finish succeeds, the id [s0] is issued to no later session, and [s0]
    is not registered at the end. *)
Lemma sessions_within_bounds_and_finish_deletes_witness :
  0 <= 1
  /\ (forall id s,
         sessions (run no_number_text example_parse 1 (Return example_matrix)
                       [Start example_start_body; Answer example_skip_body]
                       (Server ∅ (world_with cooperative))) !! id = Some s ->
         0 <= followupsLeft s /\ (idx s <= List.length (planQuestions s))%nat)
  /\ finished
       (api_finish no_number_text example_parse example_finish_body
          (run no_number_text example_parse 1 (Return example_matrix)
               [Start example_start_body; Answer example_skip_body]
               (Server ∅ (world_with cooperative)))).1 = true
  /\ sessions
       (run no_number_text example_parse 1 (Return example_matrix)
            [Answer example_answer_body; Start example_start_body]
            (api_finish no_number_text example_parse example_finish_body
               (run no_number_text example_parse 1 (Return example_matrix)
                    [Start example_start_body; Answer example_skip_body]
                    (Server ∅ (world_with cooperative)))).2)
     !! js "s0" = None.
Proof.
  assert (0 <= 1) as Hmax by lia.
  pose proof (sessions_within_bounds_and_finish_deletes
                no_number_text example_parse 1 (Return example_matrix)
                (world_with cooperative)
                [Start example_start_body; Answer example_skip_body]
                example_finish_body
                [Answer example_answer_body; Start example_start_body] Hmax)
    as [Hbounds Hfinish].
  assert (finished
            (api_finish no_number_text example_parse example_finish_body
               (run no_number_text example_parse 1 (Return example_matrix)
                    [Start example_start_body; Answer example_skip_body]
                    (Server ∅ (world_with cooperative)))).1 = true) as Hfin.
  { vm_compute. reflexivity. }
  destruct (Hfinish Hfin) as (sid & Hsid & _ & Hlater).
  assert (sid = js "s0") as -> by (vm_compute in Hsid; injection Hsid as <-; reflexivity).
  split; [exact Hmax|]. split; [exact Hbounds|]. split; [exact Hfin|].
  apply Hlater. intros n Hn.
  assert (started (env (api_finish no_number_text example_parse example_finish_body
               (run no_number_text example_parse 1 (Return example_matrix)
                    [Start example_start_body; Answer example_skip_body]
                    (Server ∅ (world_with cooperative)))).2) = 1%nat) as Hstarted.
  { vm_compute. reflexivity. }
  assert (session_id_at (env (api_finish no_number_text example_parse example_finish_body
               (run no_number_text example_parse 1 (Return example_matrix)
                    [Start example_start_body; Answer example_skip_body]
                    (Server ∅ (world_with cooperative)))).2) = example_ids) as Hids.
  { vm_compute. reflexivity. }
  rewrite Hstarted in Hn. rewrite Hids.
  unfold example_ids. intros H. injection H as H. lia.
Defined.

(* ===================================================================== *)
(** * The scenarios of the specification and further examples *)
(* ===================================================================== *)

Example clampInt_rounds_a_number :
  clampInt no_number_text (VNum (Finite (76 # 10))) 1 9 = Return 8.
Proof. reflexivity. Qed.

Example clampInt_parses_a_string :
  clampInt no_number_text (VStr (js " 7.6")) 1 9 = Return 7.
Proof. vm_compute. reflexivity. Qed.

Example clampInt_of_a_word : clampInt no_number_text (VStr (js "high")) 1 9 = Return 1.
Proof. vm_compute. reflexivity. Qed.

Example clampInt_of_nothing : clampInt no_number_text VUndefined 1 9 = Return 1.
Proof. vm_compute. reflexivity. Qed.

Example clampInt_of_a_large_number :
  clampInt no_number_text (VNum (Finite 100)) 1 9 = Return 9.
Proof. reflexivity. Qed.

Example clampInt_of_a_negative_string :
  clampInt no_number_text (VStr (js "-3")) 1 9 = Return 1.
Proof. vm_compute. reflexivity. Qed.

Example cleanJSON_strips_a_fence :
  cleanJSON (js "```json" ++ [10%N] ++ example_object ++ [10%N] ++ js "```")
  = example_object.
Proof. vm_compute. reflexivity. Qed.

Example cleanJSON_keeps_an_array : cleanJSON (js " [1, 2] ") = js "[1, 2]".
Proof. vm_compute. reflexivity. Qed.

Example empty_content_is_transient :
  isTransient (js "Model returned empty content.") = true
  /\ isTransient (js "JSON-fix step returned empty content.") = true
  /\ isTransient (js "429 Too Many Requests") = true
  /\ isTransient (js "Rate limit exceeded") = true
  /\ isTransient (js "Request Timeout") = true
  /\ isTransient (js "fetch failed") = true
  /\ isTransient (js "Service temporarily unavailable") = true
  /\ isTransient (js "401 Unauthorized") = false.
Proof. repeat split; vm_compute; reflexivity. Qed.

(** Equal weights and equal scores [s] give round(((s−1)/8)×100). *)
Example weightedSkillsScore0to100_equal_scores :
  weightedSkillsScore0to100 no_number_text [scored (js "A") 6; scored (js "B") 6]
                            (skills example_matrix) = Return 63
  /\ level_to_0to100 6 = 63.
Proof. split; vm_compute; reflexivity. Qed.

(** A total weight of 0 gives 0. *)
Example weightedSkillsScore0to100_unknown_skills :
  weightedSkillsScore0to100 no_number_text [scored (js "C") 6] (skills example_matrix)
  = Return 0.
Proof. vm_compute. reflexivity. Qed.

(** Assessors scoring A=9,B=1, then A=1,B=9, then A=5,B=5: both rows have
    spread 8 and keep the order of the skills. *)
Example compareMulti_ties_keep_skill_order :
  List.map (fun r => (row_skill r, scores r, spread r))
           (rows (compareMulti [example_assessed 9 1; example_assessed 1 9;
                                example_assessed 5 5]))
  = [(js "A", [9; 1; 5], 8); (js "B", [1; 9; 5], 8)].
Proof. vm_compute. reflexivity. Qed.

(** The arithmetic is that of doubles. With both weights at 0.1 and the
    scores 2 and 5 the quotient 0.7 / 0.2 falls just below 3.5 and is
    rounded to the level 3; skills at 38 and an exercise at 13 give an
    overall 0.7 * 38 + 0.3 * 13 just below 30.5, rounded to 30. *)
Example weightedSkillsScore0to100_in_doubles :
  weightedSkillsScore0to100 no_number_text [scored (js "A") 2; scored (js "B") 5]
                            (skills example_matrix_tenths) = Return 25
  /\ level_to_0to100 3 = 25
  /\ Math_round (((1 # 10) * 2 + (1 # 10) * 5) / ((1 # 10) + (1 # 10)))%Q = 4.
Proof. repeat split; vm_compute; reflexivity. Qed.

Example overall_in_doubles :
  weightedSkillsScore0to100 no_number_text (skill_scores (example_result 4 4 2))
                            (skills example_matrix) = Return 38
  /\ score1to9_to_0to100 no_number_text (VNum (Finite 2)) = Return 13
  /\ overall no_number_text example_matrix (example_result 4 4 2) = Return (Finite 30)
  /\ Math_round ((7 # 10) * 38 + (3 # 10) * 13)%Q = 31.
Proof. repeat split; vm_compute; reflexivity. Qed.

(** Skills at 75 and an exercise at 50 give an overall of 68. *)
Example overall_blend :
  overall no_number_text example_matrix (example_result 7 7 5) = Return (Finite 68).
Proof. vm_compute. reflexivity. Qed.

(** An object with an own property [toString] cannot be converted, nor an
    array that holds one; an object without one can. *)
Example ToString_of_objects :
  ToString no_number_text example_poisoned = Throw TypeError_primitive
  /\ ToString no_number_text (VArr [VNull; example_poisoned]) = Throw TypeError_primitive
  /\ ToString no_number_text (VObj [(js "skill", VStr (js "A"))])
     = Return (js "[object Object]")
  /\ ToString no_number_text (VArr [VNull; VStr (js "a"); VArr [VBool true]])
     = Return (js ",a,true").
Proof. repeat split; vm_compute; reflexivity. Qed.

(** An answer whose session id cannot be converted is refused with status
    500 before the registry is looked at. *)
Example api_answer_of_a_poisoned_body :
  api_answer no_number_text example_parse 1 example_poisoned_body
             (Server example_registry (world_with unauthorized))
  = (R_error 500 (js "Cannot convert object to primitive value"),
     Server example_registry (world_with unauthorized)).
Proof. reflexivity. Qed.

(** A raw output without B: the normalized result has A as scored and B
    synthesized. *)
Example normalizeAssessorResult_fills_B :
  match normalizeAssessorResult no_number_text example_matrix example_raw (js "strict") with
  | Return r => List.map (fun e => (skill e, score_1_to_9 e)) (skill_scores r)
  | Throw _ => []
  end = [(js "A", 7); (js "B", 1)].
Proof. vm_compute. reflexivity. Qed.

(* =================================================================== *)
(** * The further properties at concrete inputs *)
(* =================================================================== *)

(** The bounds of the lists on a raw output with four pieces of evidence and
    seven lines of summary. *)
Lemma normalizeAssessorResult_lists_bounded_witness :
  exists r,
    normalizeAssessorResult no_number_text example_matrix example_raw_twice (js "strict")
    = Return r
    /\ Forall entry_lists_bounded (skill_scores r)
    /\ (List.length (exercise_evidence_bullets r) <= 3)%nat
    /\ (List.length (summary r) <= 6)%nat.
Proof.
  eexists. split; [vm_compute; reflexivity|].
  apply (normalizeAssessorResult_lists_bounded
           no_number_text example_matrix example_raw_twice (js "strict")).
  vm_compute. reflexivity.
Defined.

(** A scored 3 and then 7: the score kept for A is 7. *)
Lemma normalizeAssessorResult_last_entry_wins_witness :
  incoming_of example_raw_twice
  = [example_entry 3 []] ++ example_entry 7 example_evidence :: []
  /\ entry_key no_number_text (example_entry 7 example_evidence) = Return (js "A")
  /\ truthy (example_entry 7 example_evidence) = true
  /\ entry_score no_number_text (example_entry 7 example_evidence) = Return 7
  /\ exists r e,
      normalizeAssessorResult no_number_text example_matrix example_raw_twice (js "strict")
      = Return r
      /\ skill_scores r !! 0%nat = Some e
      /\ skill e = js "A"
      /\ entry_score no_number_text (example_entry 7 example_evidence)
         = Return (score_1_to_9 e).
Proof.
  assert (incoming_of example_raw_twice
          = [example_entry 3 []] ++ example_entry 7 example_evidence :: []) as H2
    by reflexivity.
  assert (entry_key no_number_text (example_entry 7 example_evidence) = Return (js "A"))
    as H3 by (vm_compute; reflexivity).
  split; [exact H2|]. split; [exact H3|]. split; [reflexivity|].
  split; [vm_compute; reflexivity|].
  destruct (normalizeAssessorResult_last_entry_wins
              no_number_text example_matrix example_raw_twice (js "strict") (js "A")
              [example_entry 3 []] [] (example_entry 7 example_evidence) 0%nat
              H2 H3 eq_refl) as [Hreturns Hentry].
  - intros y [].
  - reflexivity.
  - destruct (Hreturns eq_refl eq_refl) as [r Hr].
    destruct (Hentry r Hr) as (e & He). exists r, e. split; [exact Hr | exact He].
Defined.

(** A fenced object comes out as the object. *)
Lemma cleanJSON_braced_witness :
  has_brace_pair (strip_fences example_fenced) = true
  /\ exists mid, cleanJSON example_fenced = object_text mid.
Proof.
  assert (has_brace_pair (strip_fences example_fenced) = true) as H
    by (vm_compute; reflexivity).
  split; [exact H | exact (cleanJSON_braced example_fenced H)].
Defined.

(** Three attempts at an endpoint that answers with blanks: three calls, two
    pauses, and the empty-content error. *)
Lemma callChatJSON_empty_content_exhausts_witness :
  1 <= 3
  /\ (forall i, exists t, reply_at (world_with blank) i = Content t /\ cleanJSON t = [])
  /\ (callChatJSON example_parse 3 (world_with blank)).1
     = Throw (plain_error (js "Model returned empty content."))
  /\ calls (callChatJSON example_parse 3 (world_with blank)).2 = 3%nat
  /\ slept (callChatJSON example_parse 3 (world_with blank)).2 = [450; 900].
Proof.
  assert (1 <= 3) as H1 by lia.
  assert (forall i, exists t, reply_at (world_with blank) i = Content t /\ cleanJSON t = [])
    as H2.
  { intros i. exists (js "  "). split; [reflexivity | vm_compute; reflexivity]. }
  split; [exact H1|]. split; [exact H2|].
  exact (callChatJSON_empty_content_exhausts example_parse 3 (world_with blank) H1 H2).
Defined.

(** An answer for a session that was never started. *)
Lemma unknown_session_rejected_witness :
  names_session (Answer example_answer_body) = true
  /\ request_converts (Answer example_answer_body) = true
  /\ exists msg,
      handle no_number_text example_parse 1 (Return example_matrix)
             (Answer example_answer_body) (Server ∅ (world_with cooperative))
      = (R_error 400 msg, Server ∅ (world_with cooperative)).
Proof.
  split; [reflexivity|]. split; [reflexivity|].
  destruct (unknown_session_rejected no_number_text example_parse 1 (Return example_matrix)
              (Answer example_answer_body) (Server ∅ (world_with cooperative)))
    as (msg & Hmsg & _).
  - reflexivity.
  - intros sid _. apply lookup_empty.
  - exists msg. exact Hmsg.
Defined.

(** A second answer to an interview of one question. *)
Lemma answer_past_plan_end_witness :
  body_string no_number_text example_answer_body (js "sessionId") [] = Return (js "s0")
  /\ sessions (Server {[ js "s0" := example_session_done ]} (world_with cooperative))
     !! js "s0" = Some example_session_done
  /\ (List.length (planQuestions example_session_done) <= idx example_session_done)%nat
  /\ request_converts (Answer example_answer_body) = true
  /\ request_converts (AutoAnswer example_answer_body) = true
  /\ api_answer no_number_text example_parse 1 example_answer_body
       (Server {[ js "s0" := example_session_done ]} (world_with cooperative))
     = (R_error 500 (js "Cannot read properties of undefined (reading 'skill')"),
        Server {[ js "s0" := example_session_done ]} (world_with cooperative))
  /\ api_auto_answer no_number_text example_answer_body
       (Server {[ js "s0" := example_session_done ]} (world_with cooperative))
     = (R_error 400 (js "No current question."),
        Server {[ js "s0" := example_session_done ]} (world_with cooperative)).
Proof.
  assert (body_string no_number_text example_answer_body (js "sessionId") []
          = Return (js "s0")) as H0 by (vm_compute; reflexivity).
  assert (sessions (Server {[ js "s0" := example_session_done ]} (world_with cooperative))
          !! js "s0" = Some example_session_done) as H1 by (vm_compute; reflexivity).
  assert (List.length (planQuestions example_session_done) <= idx example_session_done)%nat
    as H2 by (cbn; lia).
  split; [exact H0|]. split; [exact H1|]. split; [exact H2|].
  split; [reflexivity|]. split; [reflexivity|].
  destruct (answer_past_plan_end no_number_text example_parse 1 example_answer_body
              _ _ _ H0 H1 H2) as [Hanswer Hauto].
  split; [exact (Hanswer eq_refl) | exact (Hauto eq_refl)].
Defined.


(** An answer after which the model asks for a follow-up: the session stays
    on its question and the follow-up question is returned. *)
Lemma api_answer_decision_taken_witness :
  body_string no_number_text example_answer_body (js "sessionId") [] = Return (js "s0")
  /\ body_string no_number_text example_answer_body (js "answer") []
     = Return (js "I built it.")
  /\ sessions (Server example_registry (world_with deciding)) !! js "s0"
     = Some example_session
  /\ question_text no_number_text example_question (js "skill") = Return (js "A")
  /\ question_text no_number_text example_question (js "question") = Return (js "Q")
  /\ asks_decision example_session (js "I built it.") = true
  /\ decideFollowup example_parse_decision 1 (world_with deciding)
     = (Return (true, VStr (js "Which tools?")), (chat (world_with deciding)).2)
  /\ api_answer no_number_text example_parse_decision 1 example_answer_body
       (Server example_registry (world_with deciding))
     = (R_next (VObj [(js "skill", VStr (js "A"));
                      (js "question", VStr (js "Which tools?"))]),
        Server (<[js "s0" := held_back example_session
                               (example_entry_of (js "I built it."))]> example_registry)
               (chat (world_with deciding)).2).
Proof.
  assert (body_string no_number_text example_answer_body (js "sessionId") []
          = Return (js "s0")) as H0 by (vm_compute; reflexivity).
  assert (body_string no_number_text example_answer_body (js "answer") []
          = Return (js "I built it.")) as Ha by (vm_compute; reflexivity).
  assert (sessions (Server example_registry (world_with deciding)) !! js "s0"
          = Some example_session) as H1 by (vm_compute; reflexivity).
  assert (question_text no_number_text example_question (js "skill") = Return (js "A"))
    as Hsk by (vm_compute; reflexivity).
  assert (question_text no_number_text example_question (js "question") = Return (js "Q"))
    as Hqu by (vm_compute; reflexivity).
  assert (asks_decision example_session (js "I built it.") = true) as H4
    by (vm_compute; reflexivity).
  assert (decideFollowup example_parse_decision 1
            (env (Server example_registry (world_with deciding)))
          = (Return (true, VStr (js "Which tools?")), (chat (world_with deciding)).2)) as H5
    by (vm_compute; reflexivity).
  split; [exact H0|]. split; [exact Ha|]. split; [exact H1|]. split; [exact Hsk|].
  split; [exact Hqu|]. split; [exact H4|]. split; [exact H5|].
  exact (api_answer_decision_taken no_number_text example_parse_decision 1
           example_answer_body (Server example_registry (world_with deciding))
           example_session example_question _ _ _ _ true (VStr (js "Which tools?"))
           (chat (world_with deciding)).2 H0 Ha H1 eq_refl Hsk Hqu H4 H5).
Defined.

(** A session that is started and whose only question is then skipped: the
    later state has the same plan, the cursor one further and one entry more. *)
Lemma run_session_grows_witness :
  never_issued_again (js "s0")
    (env (run no_number_text example_parse 1 (Return example_matrix)
              [Start example_start_body] (Server ∅ (world_with cooperative))))
  /\ sessions (run no_number_text example_parse 1 (Return example_matrix)
                   [Start example_start_body] (Server ∅ (world_with cooperative)))
     !! js "s0" = Some example_session
  /\ sessions (run no_number_text example_parse 1 (Return example_matrix)
                   [Answer example_skip_body]
                   (run no_number_text example_parse 1 (Return example_matrix)
                        [Start example_start_body] (Server ∅ (world_with cooperative))))
     !! js "s0" = Some example_session_done
  /\ session_grows example_session example_session_done.
Proof.
  assert (never_issued_again (js "s0")
            (env (run no_number_text example_parse 1 (Return example_matrix)
                      [Start example_start_body] (Server ∅ (world_with cooperative)))))
    as H1.
  { intros n Hn.
    assert (started (env (run no_number_text example_parse 1 (Return example_matrix)
                      [Start example_start_body] (Server ∅ (world_with cooperative))))
            = 1%nat) as Hstarted by (vm_compute; reflexivity).
    assert (session_id_at (env (run no_number_text example_parse 1 (Return example_matrix)
                      [Start example_start_body] (Server ∅ (world_with cooperative))))
            = example_ids) as Hids by (vm_compute; reflexivity).
    rewrite Hstarted in Hn. rewrite Hids.
    unfold example_ids. intros H. injection H as H. lia. }
  assert (sessions (run no_number_text example_parse 1 (Return example_matrix)
                   [Start example_start_body] (Server ∅ (world_with cooperative)))
          !! js "s0" = Some example_session) as H2 by (vm_compute; reflexivity).
  assert (sessions (run no_number_text example_parse 1 (Return example_matrix)
                   [Answer example_skip_body]
                   (run no_number_text example_parse 1 (Return example_matrix)
                        [Start example_start_body] (Server ∅ (world_with cooperative))))
          !! js "s0" = Some example_session_done) as H3 by (vm_compute; reflexivity).
  split; [exact H1|]. split; [exact H2|]. split; [exact H3|].
  exact (run_session_grows no_number_text example_parse 1 (Return example_matrix)
           [Answer example_skip_body] _ (js "s0") _ _ H1 H2 H3).
Defined.

(** The session registered by a start is sound. *)
Lemma run_sessions_sound_witness :
  sessions (run no_number_text example_parse 1 (Return example_matrix)
                [Start example_start_body] (Server ∅ (world_with cooperative)))
  !! js "s0" = Some example_session
  /\ session_sound 1 example_session.
Proof.
  assert (sessions (run no_number_text example_parse 1 (Return example_matrix)
                [Start example_start_body] (Server ∅ (world_with cooperative)))
          !! js "s0" = Some example_session) as H by (vm_compute; reflexivity).
  split; [exact H|].
  exact (run_sessions_sound no_number_text example_parse 1 (Return example_matrix)
           [Start example_start_body] (world_with cooperative) (js "s0") example_session H).
Defined.

(** With a maximum of 0, an answer with content is handled without a call. *)
Lemma followups_disabled_no_model_call_witness :
  0 <= 0
  /\ env (api_answer no_number_text example_parse 0 example_answer_body
            (run no_number_text example_parse 0 (Return example_matrix)
                 [Start example_start_body] (Server ∅ (world_with cooperative)))).2
     = env (run no_number_text example_parse 0 (Return example_matrix)
                [Start example_start_body] (Server ∅ (world_with cooperative))).
Proof.
  assert (0 <= 0) as H by lia.
  split; [exact H|].
  exact (followups_disabled_no_model_call no_number_text example_parse 0
           (Return example_matrix) [Start example_start_body] (world_with cooperative)
           example_answer_body H).
Defined.

(** Two assessors, 1 and 9 on A, 2 and 2 on B. *)
Lemma compareMulti_spread_range_witness :
  scores_in_range [example_assessed 1 2; example_assessed 9 2]
  /\ Forall row_bounded (rows (compareMulti [example_assessed 1 2; example_assessed 9 2])).
Proof.
  assert (scores_in_range [example_assessed 1 2; example_assessed 9 2]) as H.
  { repeat constructor; cbn; lia. }
  split; [exact H | exact (compareMulti_spread_range _ H)].
Defined.

(** A name of blanks, underscores and punctuation gives the empty stem. *)
Lemma safeFilename_empty_result_witness :
  js " _!_ " <> []
  /\ Forall (fun c => is_filename_unit c = false \/ c = 95%N) (js " _!_ ")
  /\ safeFilename (js " _!_ ") = [].
Proof.
  assert (js " _!_ " <> []) as H1 by discriminate.
  assert (Forall (fun c => is_filename_unit c = false \/ c = 95%N) (js " _!_ ")) as H2.
  { repeat (constructor; [first [left; reflexivity | right; reflexivity]|]). constructor. }
  split; [exact H1|]. split; [exact H2|].
  exact (safeFilename_empty_result _ H1 H2).
Defined.

(** The stem of a name with a blank and punctuation is a fixed point. *)
Lemma safeFilename_idempotent_witness :
  safeFilename (js "Ada Lovelace!") = js "Ada_Lovelace"
  /\ safeFilename (js "Ada Lovelace!") <> []
  /\ safeFilename (safeFilename (js "Ada Lovelace!")) = safeFilename (js "Ada Lovelace!").
Proof.
  assert (safeFilename (js "Ada Lovelace!") <> []) as H by (vm_compute; discriminate).
  split; [vm_compute; reflexivity|]. split; [exact H|].
  exact (safeFilename_idempotent _ H).
Defined.

(** A status line around the marker of a rate limit. *)
Lemma isTransient_embedded_witness :
  isTransient (js "429") = true
  /\ isTransient (js "HTTP " ++ js "429" ++ js " Too Many Requests") = true.
Proof.
  assert (isTransient (js "429") = true) as H by (vm_compute; reflexivity).
  split; [exact H | exact (isTransient_embedded _ _ _ H)].
Defined.
